(** * smart_colleague: the DOM snapshot tool and the assistant widget

    A shallow embedding of [src/dom_parser.js] (the snapshot tool) and of
    the state-carrying part of the [AIAssistantWidget] class, with the
    properties of the specification stated and proved over it. *)

From stdpp Require Import base list gmap strings.
From Stdlib Require Import NArith Lia.

Set Warnings "-register-all,-clear-no-such-hyp".

(** ** JavaScript strings

    A JavaScript string is a sequence of UTF-16 code units. *)

Module JS.

Local Open Scope N_scope.

Abbreviation jsstring := (list N).

(** [WhiteSpace] and [LineTerminator] of ECMAScript: the characters removed
    by [String.prototype.trim] and matched by the regular expression
    class [\s]. *)
Definition is_ws (c : N) : bool :=
  (c =? 9) || (c =? 10) || (c =? 11) || (c =? 12) || (c =? 13) || (c =? 32)
  || (c =? 160) || (c =? 5760) || ((8192 <=? c) && (c <=? 8202))
  || (c =? 8232) || (c =? 8233) || (c =? 8239) || (c =? 8287)
  || (c =? 12288) || (c =? 65279).

Definition space : N := 32.

Fixpoint trimStart (s : jsstring) : jsstring :=
  match s with
  | c :: s' => if is_ws c then trimStart s' else s
  | [] => []
  end.

Definition trimEnd (s : jsstring) : jsstring := rev (trimStart (rev s)).

(** [s.trim()] *)
Definition trim (s : jsstring) : jsstring := trimEnd (trimStart s).

(** [s.replace(/\s+/g, ' ')]: the scan emits one space where a match of
    [\s+] starts and skips the rest of the (greedy) match; [in_match] tells
    whether the previous code unit belongs to the current match. *)
Fixpoint replace_ws_runs (in_match : bool) (s : jsstring) : jsstring :=
  match s with
  | [] => []
  | c :: s' =>
      if is_ws c
      then (if in_match then replace_ws_runs true s'
            else space :: replace_ws_runs true s')
      else c :: replace_ws_runs false s'
  end.

(** [s.substring(0, n)] *)
Definition substring0 (n : nat) (s : jsstring) : jsstring := take n s.

(** [s.toLowerCase()]: the lower-case mapping of Unicode over the code
    points of the string. The tables are those of Unicode 14.0. *)

Definition is_high (c : N) : bool := (55296 <=? c) && (c <=? 56319).
Definition is_low (c : N) : bool := (56320 <=? c) && (c <=? 57343).

(** The code points of a string: a surrogate pair is one code point, a
    surrogate without its partner stands for itself. *)
Fixpoint code_points (s : jsstring) : list N :=
  match s with
  | [] => []
  | h :: s' =>
      match s' with
      | l :: s'' =>
          if is_high h && is_low l
          then (65536 + (h - 55296) * 1024 + (l - 56320)) :: code_points s''
          else h :: code_points s'
      | [] => [h]
      end
  end.

Definition code_units (c : N) : jsstring :=
  if c <? 65536 then [c]
  else [55296 + (c - 65536) / 1024; 56320 + (c - 65536) mod 1024].

(** Membership in a list of ranges sorted by their first code point. *)
Fixpoint in_ranges (ranges : list (N * N)) (c : N) : bool :=
  match ranges with
  | [] => false
  | (first, last) :: rest =>
      if c <? first then false
      else if c <=? last then true
      else in_ranges rest c
  end.

(** The simple lower-case mappings, as rules [(first, last, stride,
    target)]: the code points [first], [first + stride], ... up to [last]
    map to [target], [target + stride], ... *)
Definition lower_rules : list (N * N * N * N) :=
  [
   (65, 90, 1, 97); (192, 214, 1, 224); (216, 222, 1, 248); (256, 302, 2, 257); (306,
   310, 2, 307); (313, 327, 2, 314); (330, 374, 2, 331); (376, 376, 1, 255); (377, 381,
   2, 378); (385, 385, 1, 595); (386, 388, 2, 387); (390, 390, 1, 596); (391, 391, 1,
   392); (393, 394, 1, 598); (395, 395, 1, 396); (398, 398, 1, 477); (399, 399, 1,
   601); (400, 400, 1, 603); (401, 401, 1, 402); (403, 403, 1, 608); (404, 404, 1,
   611); (406, 406, 1, 617); (407, 407, 1, 616); (408, 408, 1, 409); (412, 412, 1,
   623); (413, 413, 1, 626); (415, 415, 1, 629); (416, 420, 2, 417); (422, 422, 1,
   640); (423, 423, 1, 424); (425, 425, 1, 643); (428, 428, 1, 429); (430, 430, 1,
   648); (431, 431, 1, 432); (433, 434, 1, 650); (435, 437, 2, 436); (439, 439, 1,
   658); (440, 440, 1, 441); (444, 444, 1, 445); (452, 452, 1, 454); (453, 453, 1,
   454); (455, 455, 1, 457); (456, 456, 1, 457); (458, 458, 1, 460); (459, 475, 2,
   460); (478, 494, 2, 479); (497, 497, 1, 499); (498, 500, 2, 499); (502, 502, 1,
   405); (503, 503, 1, 447); (504, 542, 2, 505); (544, 544, 1, 414); (546, 562, 2,
   547); (570, 570, 1, 11365); (571, 571, 1, 572); (573, 573, 1, 410); (574, 574, 1,
   11366); (577, 577, 1, 578); (579, 579, 1, 384); (580, 580, 1, 649); (581, 581, 1,
   652); (582, 590, 2, 583); (880, 882, 2, 881); (886, 886, 1, 887); (895, 895, 1,
   1011); (902, 902, 1, 940); (904, 906, 1, 941); (908, 908, 1, 972); (910, 911, 1,
   973); (913, 929, 1, 945); (931, 939, 1, 963); (975, 975, 1, 983); (984, 1006, 2,
   985); (1012, 1012, 1, 952); (1015, 1015, 1, 1016); (1017, 1017, 1, 1010); (1018,
   1018, 1, 1019); (1021, 1023, 1, 891); (1024, 1039, 1, 1104); (1040, 1071, 1, 1072);
   (1120, 1152, 2, 1121); (1162, 1214, 2, 1163); (1216, 1216, 1, 1231); (1217, 1229, 2,
   1218); (1232, 1326, 2, 1233); (1329, 1366, 1, 1377); (4256, 4293, 1, 11520); (4295,
   4295, 1, 11559); (4301, 4301, 1, 11565); (5024, 5103, 1, 43888); (5104, 5109, 1,
   5112); (7312, 7354, 1, 4304); (7357, 7359, 1, 4349); (7680, 7828, 2, 7681); (7838,
   7838, 1, 223); (7840, 7934, 2, 7841); (7944, 7951, 1, 7936); (7960, 7965, 1, 7952);
   (7976, 7983, 1, 7968); (7992, 7999, 1, 7984); (8008, 8013, 1, 8000); (8025, 8031, 2,
   8017); (8040, 8047, 1, 8032); (8072, 8079, 1, 8064); (8088, 8095, 1, 8080); (8104,
   8111, 1, 8096); (8120, 8121, 1, 8112); (8122, 8123, 1, 8048); (8124, 8124, 1, 8115);
   (8136, 8139, 1, 8050); (8140, 8140, 1, 8131); (8152, 8153, 1, 8144); (8154, 8155, 1,
   8054); (8168, 8169, 1, 8160); (8170, 8171, 1, 8058); (8172, 8172, 1, 8165); (8184,
   8185, 1, 8056); (8186, 8187, 1, 8060); (8188, 8188, 1, 8179); (8486, 8486, 1, 969);
   (8490, 8490, 1, 107); (8491, 8491, 1, 229); (8498, 8498, 1, 8526); (8544, 8559, 1,
   8560); (8579, 8579, 1, 8580); (9398, 9423, 1, 9424); (11264, 11311, 1, 11312);
   (11360, 11360, 1, 11361); (11362, 11362, 1, 619); (11363, 11363, 1, 7549); (11364,
   11364, 1, 637); (11367, 11371, 2, 11368); (11373, 11373, 1, 593); (11374, 11374, 1,
   625); (11375, 11375, 1, 592); (11376, 11376, 1, 594); (11378, 11378, 1, 11379);
   (11381, 11381, 1, 11382); (11390, 11391, 1, 575); (11392, 11490, 2, 11393); (11499,
   11501, 2, 11500); (11506, 11506, 1, 11507); (42560, 42604, 2, 42561); (42624, 42650,
   2, 42625); (42786, 42798, 2, 42787); (42802, 42862, 2, 42803); (42873, 42875, 2,
   42874); (42877, 42877, 1, 7545); (42878, 42886, 2, 42879); (42891, 42891, 1, 42892);
   (42893, 42893, 1, 613); (42896, 42898, 2, 42897); (42902, 42920, 2, 42903); (42922,
   42922, 1, 614); (42923, 42923, 1, 604); (42924, 42924, 1, 609); (42925, 42925, 1,
   620); (42926, 42926, 1, 618); (42928, 42928, 1, 670); (42929, 42929, 1, 647);
   (42930, 42930, 1, 669); (42931, 42931, 1, 43859); (42932, 42946, 2, 42933); (42948,
   42948, 1, 42900); (42949, 42949, 1, 642); (42950, 42950, 1, 7566); (42951, 42953, 2,
   42952); (42960, 42960, 1, 42961); (42966, 42968, 2, 42967); (42997, 42997, 1,
   42998); (65313, 65338, 1, 65345); (66560, 66599, 1, 66600); (66736, 66771, 1,
   66776); (66928, 66938, 1, 66967); (66940, 66954, 1, 66979); (66956, 66962, 1,
   66995); (66964, 66965, 1, 67003); (68736, 68786, 1, 68800); (71840, 71871, 1,
   71872); (93760, 93791, 1, 93792); (125184, 125217, 1, 125218)
  ].

Fixpoint lower_in (rules : list (N * N * N * N)) (c : N) : N :=
  match rules with
  | [] => c
  | (first, last, stride, target) :: rest =>
      if c <? first then c
      else if (c <=? last) && ((c - first) mod stride =? 0)
           then c - first + target
           else lower_in rest c
  end.

Definition lower_point (c : N) : N := lower_in lower_rules c.

(** The property [Case_Ignorable]. *)
Definition case_ignorable_ranges : list (N * N) :=
  [
   (39, 39); (46, 46); (58, 58); (94, 94); (96, 96); (168, 168); (173, 173); (175,
   175); (180, 180); (183, 184); (688, 879); (884, 885); (890, 890); (900, 901); (903,
   903); (1155, 1161); (1369, 1369); (1375, 1375); (1425, 1469); (1471, 1471); (1473,
   1474); (1476, 1477); (1479, 1479); (1524, 1524); (1536, 1541); (1552, 1562); (1564,
   1564); (1600, 1600); (1611, 1631); (1648, 1648); (1750, 1757); (1759, 1768); (1770,
   1773); (1807, 1807); (1809, 1809); (1840, 1866); (1958, 1968); (2027, 2037); (2042,
   2042); (2045, 2045); (2070, 2093); (2137, 2139); (2184, 2184); (2192, 2193); (2200,
   2207); (2249, 2306); (2362, 2362); (2364, 2364); (2369, 2376); (2381, 2381); (2385,
   2391); (2402, 2403); (2417, 2417); (2433, 2433); (2492, 2492); (2497, 2500); (2509,
   2509); (2530, 2531); (2558, 2558); (2561, 2562); (2620, 2620); (2625, 2626); (2631,
   2632); (2635, 2637); (2641, 2641); (2672, 2673); (2677, 2677); (2689, 2690); (2748,
   2748); (2753, 2757); (2759, 2760); (2765, 2765); (2786, 2787); (2810, 2815); (2817,
   2817); (2876, 2876); (2879, 2879); (2881, 2884); (2893, 2893); (2901, 2902); (2914,
   2915); (2946, 2946); (3008, 3008); (3021, 3021); (3072, 3072); (3076, 3076); (3132,
   3132); (3134, 3136); (3142, 3144); (3146, 3149); (3157, 3158); (3170, 3171); (3201,
   3201); (3260, 3260); (3263, 3263); (3270, 3270); (3276, 3277); (3298, 3299); (3328,
   3329); (3387, 3388); (3393, 3396); (3405, 3405); (3426, 3427); (3457, 3457); (3530,
   3530); (3538, 3540); (3542, 3542); (3633, 3633); (3636, 3642); (3654, 3662); (3761,
   3761); (3764, 3772); (3782, 3782); (3784, 3789); (3864, 3865); (3893, 3893); (3895,
   3895); (3897, 3897); (3953, 3966); (3968, 3972); (3974, 3975); (3981, 3991); (3993,
   4028); (4038, 4038); (4141, 4144); (4146, 4151); (4153, 4154); (4157, 4158); (4184,
   4185); (4190, 4192); (4209, 4212); (4226, 4226); (4229, 4230); (4237, 4237); (4253,
   4253); (4348, 4348); (4957, 4959); (5906, 5908); (5938, 5939); (5970, 5971); (6002,
   6003); (6068, 6069); (6071, 6077); (6086, 6086); (6089, 6099); (6103, 6103); (6109,
   6109); (6155, 6159); (6211, 6211); (6277, 6278); (6313, 6313); (6432, 6434); (6439,
   6440); (6450, 6450); (6457, 6459); (6679, 6680); (6683, 6683); (6742, 6742); (6744,
   6750); (6752, 6752); (6754, 6754); (6757, 6764); (6771, 6780); (6783, 6783); (6823,
   6823); (6832, 6862); (6912, 6915); (6964, 6964); (6966, 6970); (6972, 6972); (6978,
   6978); (7019, 7027); (7040, 7041); (7074, 7077); (7080, 7081); (7083, 7085); (7142,
   7142); (7144, 7145); (7149, 7149); (7151, 7153); (7212, 7219); (7222, 7223); (7288,
   7293); (7376, 7378); (7380, 7392); (7394, 7400); (7405, 7405); (7412, 7412); (7416,
   7417); (7468, 7530); (7544, 7544); (7579, 7679); (8125, 8125); (8127, 8129); (8141,
   8143); (8157, 8159); (8173, 8175); (8189, 8190); (8203, 8207); (8216, 8217); (8228,
   8228); (8231, 8231); (8234, 8238); (8288, 8292); (8294, 8303); (8305, 8305); (8319,
   8319); (8336, 8348); (8400, 8432); (11388, 11389); (11503, 11505); (11631, 11631);
   (11647, 11647); (11744, 11775); (11823, 11823); (12293, 12293); (12330, 12333);
   (12337, 12341); (12347, 12347); (12441, 12446); (12540, 12542); (40981, 40981);
   (42232, 42237); (42508, 42508); (42607, 42610); (42612, 42621); (42623, 42623);
   (42652, 42655); (42736, 42737); (42752, 42785); (42864, 42864); (42888, 42890);
   (42994, 42996); (43000, 43001); (43010, 43010); (43014, 43014); (43019, 43019);
   (43045, 43046); (43052, 43052); (43204, 43205); (43232, 43249); (43263, 43263);
   (43302, 43309); (43335, 43345); (43392, 43394); (43443, 43443); (43446, 43449);
   (43452, 43453); (43471, 43471); (43493, 43494); (43561, 43566); (43569, 43570);
   (43573, 43574); (43587, 43587); (43596, 43596); (43632, 43632); (43644, 43644);
   (43696, 43696); (43698, 43700); (43703, 43704); (43710, 43711); (43713, 43713);
   (43741, 43741); (43756, 43757); (43763, 43764); (43766, 43766); (43867, 43871);
   (43881, 43883); (44005, 44005); (44008, 44008); (44013, 44013); (64286, 64286);
   (64434, 64450); (65024, 65039); (65043, 65043); (65056, 65071); (65106, 65106);
   (65109, 65109); (65279, 65279); (65287, 65287); (65294, 65294); (65306, 65306);
   (65342, 65342); (65344, 65344); (65392, 65392); (65438, 65439); (65507, 65507);
   (65529, 65531); (66045, 66045); (66272, 66272); (66422, 66426); (67456, 67461);
   (67463, 67504); (67506, 67514); (68097, 68099); (68101, 68102); (68108, 68111);
   (68152, 68154); (68159, 68159); (68325, 68326); (68900, 68903); (69291, 69292);
   (69446, 69456); (69506, 69509); (69633, 69633); (69688, 69702); (69744, 69744);
   (69747, 69748); (69759, 69761); (69811, 69814); (69817, 69818); (69821, 69821);
   (69826, 69826); (69837, 69837); (69888, 69890); (69927, 69931); (69933, 69940);
   (70003, 70003); (70016, 70017); (70070, 70078); (70089, 70092); (70095, 70095);
   (70191, 70193); (70196, 70196); (70198, 70199); (70206, 70206); (70367, 70367);
   (70371, 70378); (70400, 70401); (70459, 70460); (70464, 70464); (70502, 70508);
   (70512, 70516); (70712, 70719); (70722, 70724); (70726, 70726); (70750, 70750);
   (70835, 70840); (70842, 70842); (70847, 70848); (70850, 70851); (71090, 71093);
   (71100, 71101); (71103, 71104); (71132, 71133); (71219, 71226); (71229, 71229);
   (71231, 71232); (71339, 71339); (71341, 71341); (71344, 71349); (71351, 71351);
   (71453, 71455); (71458, 71461); (71463, 71467); (71727, 71735); (71737, 71738);
   (71995, 71996); (71998, 71998); (72003, 72003); (72148, 72151); (72154, 72155);
   (72160, 72160); (72193, 72202); (72243, 72248); (72251, 72254); (72263, 72263);
   (72273, 72278); (72281, 72283); (72330, 72342); (72344, 72345); (72752, 72758);
   (72760, 72765); (72767, 72767); (72850, 72871); (72874, 72880); (72882, 72883);
   (72885, 72886); (73009, 73014); (73018, 73018); (73020, 73021); (73023, 73029);
   (73031, 73031); (73104, 73105); (73109, 73109); (73111, 73111); (73459, 73460);
   (78896, 78904); (92912, 92916); (92976, 92982); (92992, 92995); (94031, 94031);
   (94095, 94111); (94176, 94177); (94179, 94180); (110576, 110579); (110581, 110587);
   (110589, 110590); (113821, 113822); (113824, 113827); (118528, 118573); (118576,
   118598); (119143, 119145); (119155, 119170); (119173, 119179); (119210, 119213);
   (119362, 119364); (121344, 121398); (121403, 121452); (121461, 121461); (121476,
   121476); (121499, 121503); (121505, 121519); (122880, 122886); (122888, 122904);
   (122907, 122913); (122915, 122916); (122918, 122922); (123184, 123197); (123566,
   123566); (123628, 123631); (125136, 125142); (125252, 125259); (127995, 127999);
   (917505, 917505); (917536, 917631); (917760, 917999)
  ].

(** The property [Cased]. *)
Definition cased_ranges : list (N * N) :=
  [
   (65, 90); (97, 122); (170, 170); (181, 181); (186, 186); (192, 214); (216, 246);
   (248, 442); (444, 447); (452, 659); (661, 696); (704, 705); (736, 740); (837, 837);
   (880, 883); (886, 887); (890, 893); (895, 895); (902, 902); (904, 906); (908, 908);
   (910, 929); (931, 1013); (1015, 1153); (1162, 1327); (1329, 1366); (1376, 1416);
   (4256, 4293); (4295, 4295); (4301, 4301); (4304, 4346); (4349, 4351); (5024, 5109);
   (5112, 5117); (7296, 7304); (7312, 7354); (7357, 7359); (7424, 7615); (7680, 7957);
   (7960, 7965); (7968, 8005); (8008, 8013); (8016, 8023); (8025, 8025); (8027, 8027);
   (8029, 8029); (8031, 8061); (8064, 8116); (8118, 8124); (8126, 8126); (8130, 8132);
   (8134, 8140); (8144, 8147); (8150, 8155); (8160, 8172); (8178, 8180); (8182, 8188);
   (8305, 8305); (8319, 8319); (8336, 8348); (8450, 8450); (8455, 8455); (8458, 8467);
   (8469, 8469); (8473, 8477); (8484, 8484); (8486, 8486); (8488, 8488); (8490, 8493);
   (8495, 8500); (8505, 8505); (8508, 8511); (8517, 8521); (8526, 8526); (8544, 8575);
   (8579, 8580); (9398, 9449); (11264, 11492); (11499, 11502); (11506, 11507); (11520,
   11557); (11559, 11559); (11565, 11565); (42560, 42605); (42624, 42653); (42786,
   42887); (42891, 42894); (42896, 42954); (42960, 42961); (42963, 42963); (42965,
   42969); (42997, 42998); (43000, 43002); (43824, 43866); (43868, 43880); (43888,
   43967); (64256, 64262); (64275, 64279); (65313, 65338); (65345, 65370); (66560,
   66639); (66736, 66771); (66776, 66811); (66928, 66938); (66940, 66954); (66956,
   66962); (66964, 66965); (66967, 66977); (66979, 66993); (66995, 67001); (67003,
   67004); (67456, 67456); (67459, 67461); (67463, 67504); (67506, 67514); (68736,
   68786); (68800, 68850); (71840, 71903); (93760, 93823); (119808, 119892); (119894,
   119964); (119966, 119967); (119970, 119970); (119973, 119974); (119977, 119980);
   (119982, 119993); (119995, 119995); (119997, 120003); (120005, 120069); (120071,
   120074); (120077, 120084); (120086, 120092); (120094, 120121); (120123, 120126);
   (120128, 120132); (120134, 120134); (120138, 120144); (120146, 120485); (120488,
   120512); (120514, 120538); (120540, 120570); (120572, 120596); (120598, 120628);
   (120630, 120654); (120656, 120686); (120688, 120712); (120714, 120744); (120746,
   120770); (120772, 120779); (122624, 122633); (122635, 122654); (125184, 125251);
   (127280, 127305); (127312, 127337); (127344, 127369)
  ].

Definition case_ignorable (c : N) : bool := in_ranges case_ignorable_ranges c.
Definition cased (c : N) : bool := in_ranges cased_ranges c.

(** The first code point that is not case-ignorable is a cased letter. *)
Fixpoint cased_next (l : list N) : bool :=
  match l with
  | [] => false
  | c :: l' => if case_ignorable c then cased_next l' else cased c
  end.

(** The condition [Final_Sigma]: a cased letter before (case-ignorable
    code points between skipped), and none after. [before] is in reverse
    order. *)
Definition final_sigma (before after : list N) : bool :=
  cased_next before && negb (cased_next after).

(** The capital sigma depends on its place and the capital I with a dot
    gives two code points; every other code point has its simple mapping. *)
Fixpoint lower_points (before : list N) (l : list N) : list N :=
  match l with
  | [] => []
  | c :: l' =>
      (if c =? 931 then [if final_sigma before l' then 962 else 963]
       else if c =? 304 then [105; 775]
       else [lower_point c])
      ++ lower_points (c :: before) l'
  end.

Definition toLowerCase (s : jsstring) : jsstring :=
  flat_map code_units (lower_points [] (code_points s)).

(** String literals: the UTF-8 bytes of a Rocq string, decoded to UTF-16
    code units. *)
Fixpoint utf16_of_utf8 (bs : list N) : jsstring :=
  match bs with
  | [] => []
  | b0 :: r0 =>
      if b0 <? 128 then b0 :: utf16_of_utf8 r0
      else match r0 with
           | [] => [b0]
           | b1 :: r1 =>
               if b0 <? 224
               then N.lor (N.shiftl (N.land b0 31) 6) (N.land b1 63)
                      :: utf16_of_utf8 r1
               else match r1 with
                    | [] => [b0; b1]
                    | b2 :: r2 =>
                        if b0 <? 240
                        then N.lor (N.shiftl (N.land b0 15) 12)
                               (N.lor (N.shiftl (N.land b1 63) 6) (N.land b2 63))
                               :: utf16_of_utf8 r2
                        else match r2 with
                             | [] => [b0; b1; b2]
                             | b3 :: r3 =>
                                 let cp :=
                                   N.lor (N.shiftl (N.land b0 7) 18)
                                     (N.lor (N.shiftl (N.land b1 63) 12)
                                        (N.lor (N.shiftl (N.land b2 63) 6)
                                           (N.land b3 63))) in
                                 let v := cp - 65536 in
                                 (55296 + N.shiftr v 10)
                                   :: (56320 + N.land v 1023)
                                   :: utf16_of_utf8 r3
                             end
                    end
           end
  end.

Fixpoint bytes_of_string (s : string) : list N :=
  match s with
  | EmptyString => []
  | String a s' => Ascii.N_of_ascii a :: bytes_of_string s'
  end.

Definition lit (s : string) : jsstring := utf16_of_utf8 (bytes_of_string s).

(** A completion: the code returns a value or throws an error whose
    [message] is the carried string. *)
Inductive completion (A : Type) : Type :=
| Return (a : A)
| Throw (message : jsstring).
Arguments Return {A} a.
Arguments Throw {A} message.

Definition bind {A B} (m : completion A) (k : A → completion B) : completion B :=
  match m with
  | Return a => k a
  | Throw e => Throw e
  end.

(** JavaScript values, as far as JSON carries them, and [undefined].
    No operation of the modelled code reads the numeric value of a number
    other than through its truthiness, so numbers are integers here. *)
Inductive jsval : Type :=
| VUndefined
| VNull
| VBool (b : bool)
| VNum (z : Z)
| VStr (s : jsstring)
| VArr (items : list jsval)
| VObj (fields : gmap jsstring jsval).

(** [ToBoolean] *)
Definition truthy (v : jsval) : bool :=
  match v with
  | VUndefined | VNull => false
  | VBool b => b
  | VNum z => negb (z =? 0)%Z
  | VStr s => negb (bool_decide (s = []))
  | VArr _ | VObj _ => true
  end.

(** [ToString(v)] returns. It throws a [TypeError] for an object with a
    property [toString] of its own, which is no function in a value out of
    JSON (and [valueOf] gives no primitive), and for an array that holds a
    value for which it throws: [join] writes [null] and [undefined] as the
    empty string and every other item by [ToString]. *)
Fixpoint stringifies (v : jsval) : bool :=
  match v with
  | VArr items => forallb stringifies items
  | VObj fields =>
      match fields !! lit "toString" with
      | Some _ => false
      | None => true
      end
  | _ => true
  end.

End JS.

Import JS.


(** ** The DOM, as jsdom hands it to the snapshot tool

    Of an element the tool reads [tagName], [attributes] (name and value of
    each, in document order), [children] (the element children) and
    [textContent]. *)

Module Dom.

Inductive element : Type :=
  Element {
    tagName : jsstring;
    attributes : list (jsstring * jsstring);
    children : list element;
    textContent : jsstring
  }.

End Dom.

(** ** [dom_parser.js] *)

Module DomParser.

(** What [elementToTree] and [parseDOM] return: the [elementInfo] object,
    the object returned beyond the depth limit, which has the two fields
    [tagName] and [depthLimit: true] only, and the [{ error }] object of
    [parseDOM]'s catch clause. *)
Inductive tree : Type :=
| ElementInfo (tagName : jsstring) (attributes : gmap jsstring jsstring)
    (children : list tree) (textContent : jsstring) (elementCount : nat)
| DepthLimit (tagName : jsstring)
| ErrorObject (error : jsstring).

(** Property reads; [None] is JavaScript's [undefined]. *)
Definition tagName (node : tree) : option jsstring :=
  match node with
  | ElementInfo t _ _ _ _ | DepthLimit t => Some t
  | ErrorObject _ => None
  end.

Definition children (node : tree) : option (list tree) :=
  match node with
  | ElementInfo _ _ c _ _ => Some c
  | _ => None
  end.

Definition textContent (node : tree) : option jsstring :=
  match node with
  | ElementInfo _ _ _ t _ => Some t
  | _ => None
  end.

Definition elementCount (node : tree) : option nat :=
  match node with
  | ElementInfo _ _ _ _ n => Some n
  | _ => None
  end.

Definition depthLimit (node : tree) : option bool :=
  match node with
  | DepthLimit _ => Some true
  | _ => None
  end.

(** [obj[name] = value] on an object created by [{}], for a string
    [value]: the key [__proto__] reaches the setter of [Object.prototype],
    which ignores a string. *)
Definition set_property (obj : gmap jsstring jsstring) (name value : jsstring)
  : gmap jsstring jsstring :=
  if decide (name = lit "__proto__") then obj else <[name := value]> obj.

(** The text of a node: [''] when [element.textContent] is the empty
    string, which is falsy, and the trimmed, collapsed and cut text
    otherwise. *)
Definition nodeText (text : jsstring) : jsstring :=
  if decide (text = []) then []
  else substring0 200 (replace_ws_runs false (trim text)).

Fixpoint elementToTree (element : Dom.element) (depth : nat) : tree :=
  if decide (10 < depth) then
    DepthLimit (if decide (Dom.tagName element = []) then lit "..."
                else toLowerCase (Dom.tagName element))
  else
    let textContent := nodeText (Dom.textContent element) in
    let tagName :=
      if decide (Dom.tagName element = []) then []
      else toLowerCase (Dom.tagName element) in
    let attributes :=
      fold_left (λ obj attr, set_property obj attr.1 attr.2)
        (Dom.attributes element) ∅ in
    let '(children, elementCount) :=
      fold_left
        (λ info child,
           let childTree := elementToTree child (depth + 1) in
           (info.1 ++ [childTree],
            info.2 + (1 + default 0 (DomParser.elementCount childTree))))
        (Dom.children element) ([], 0) in
    ElementInfo tagName attributes children textContent elementCount.

(** The report: [stats] of a file, the record of a file in [results]
    (an [analysis], or the [{ file, error }] of the catch clause), the
    [summary], and the object that [analyzeDOM] returns. A path is whatever
    value the input list holds. *)
Record stats := Stats { s_totalElements : nat; s_interactiveElements : nat }.

Inductive result : Type :=
| Analysis (file : jsval) (domTree : tree) (stats : stats)
| Failure (file : jsval) (error : jsstring).

Record summary := Summary {
  totalPages : nat;
  totalElements : nat;
  elementsByType : gmap jsstring nat;
  interactiveElements : nat
}.

Record report := Report {
  analyzedAt : jsstring;
  r_summary : summary;
  results : list result
}.

(** The shell around the program: the file system, jsdom, [JSON.parse] and
    the clock. [JSDOM html] is [new JSDOM(html).window.document
    .documentElement]; [toISOString] is [new Date().toISOString()]. *)
Record environment := Environment {
  readFileSync : jsval → completion jsstring;
  JSDOM : jsstring → completion Dom.element;
  JSON_parse : jsstring → completion jsval;
  writeFileSync : jsstring → report → completion unit;
  toISOString : jsstring
}.

Definition parseDOM (env : environment) (htmlPath : jsval) : tree :=
  match bind (readFileSync env htmlPath) (λ html,
        bind (JSDOM env html) (λ documentElement,
        Return (elementToTree documentElement 0))) with
  | Return domTree => domTree
  | Throw message => ErrorObject message
  end.

Definition interactiveTags : list jsstring :=
  [lit "button"; lit "a"; lit "input"; lit "select"; lit "textarea"; lit "form"].

(** [interactiveTags.includes(node.tagName)] *)
Definition includes (l : list jsstring) (x : option jsstring) : bool :=
  match x with
  | Some s => bool_decide (s ∈ l)
  | None => false
  end.

(** The message of the [TypeError] that [for (let child of node.children)]
    throws when [node.children] is [undefined] (the wording is V8's). *)
Definition not_iterable : jsstring := lit "node.children is not iterable".

Fixpoint countInteractiveElements (node : tree) : completion nat :=
  let count := if includes interactiveTags (tagName node) then 1 else 0 in
  match node with
  | ElementInfo _ _ children _ _ =>
      fold_left
        (λ count child,
           bind count (λ c,
           bind (countInteractiveElements child) (λ k, Return (c + k))))
        children (Return count)
  | _ => Throw not_iterable
  end.

(** The callback of [htmlFiles.forEach]: the state is [results] and
    [summary]. *)
Definition analyzeFile (env : environment) (st : list result * summary)
    (filePath : jsval) : list result * summary :=
  let '(results, summary) := st in
  let domTree := parseDOM env filePath in
  let totalElements := default 0 (elementCount domTree) in
  match countInteractiveElements domTree with
  | Return interactive =>
      let analysis := Analysis filePath domTree (Stats totalElements interactive) in
      (results ++ [analysis],
       Summary (totalPages summary)
         (DomParser.totalElements summary + totalElements)
         (elementsByType summary)
         (interactiveElements summary + interactive))
  | Throw message => (results ++ [Failure filePath message], summary)
  end.

(** [htmlFiles] is the value [JSON.parse] returned. Reading [length] of
    [null] throws; any other value that is not an array has no [forEach]. *)
Definition analyzeDOM (env : environment) (htmlFiles : jsval) : completion report :=
  match htmlFiles with
  | VArr files =>
      let summary := Summary (length files) 0 ∅ 0 in
      let '(results, summary) := fold_left (analyzeFile env) files ([], summary) in
      Return (Report (toISOString env) summary results)
  | VNull | VUndefined =>
      Throw (lit "Cannot read properties of null (reading 'length')")
  | _ => Throw (lit "htmlFiles.forEach is not a function")
  end.

(** The entry point. [argv2] is [process.argv[2]]. *)
Record status_line := StatusLine { filesAnalyzed : option nat }.

Inductive outcome : Type :=
| Completed (written : report) (stdout : status_line)
| Exit1 (stderr_error : jsstring).

Definition length_of (v : jsval) : option nat :=
  match v with
  | VArr files => Some (length files)
  | VStr s => Some (length s)
  | _ => None
  end.

Definition main (env : environment) (argv2 : jsval) : outcome :=
  match bind (readFileSync env argv2) (λ text,
        bind (JSON_parse env text) (λ htmlFiles,
        bind (analyzeDOM env htmlFiles) (λ analysisResult,
        bind (writeFileSync env (lit "dom_analysis.json") analysisResult) (λ _,
        Return (analysisResult, StatusLine (length_of htmlFiles)))))) with
  | Return (analysisResult, line) => Completed analysisResult line
  | Throw message => Exit1 message
  end.

Definition exit_code (o : outcome) : nat :=
  match o with
  | Completed _ _ => 0
  | Exit1 _ => 1
  end.

End DomParser.

(** ** The assistant widget

    The embedding keeps [this.state], the [disabled] flag of the send
    button, the network requests in flight, the [console.error] calls and a
    clock. What the methods write into the page (markup, classes, focus,
    scrolling, the typing indicator, the download link) is left out, except
    that building the markup can throw, which is kept. *)

Module Widget.

Inductive role := user | assistant.

#[global] Instance role_eq_dec : EqDecision role.
Proof. solve_decision. Defined.

(** A chat message. [id] and [timestamp] are both taken from the clock
    when the message is created; the model keeps the clock reading. *)
Record message := Message {
  id : nat;
  msg_role : role;
  content : jsval;
  timestamp : nat;
  instructionData : jsval
}.

(** [this.state]. [popularInstructions] is not set by the constructor, so
    it is [undefined] until [loadPopularInstructions] assigns it. *)
Record state := State {
  isVisible : bool;
  availableTasks : jsval;
  isListening : bool;
  chatMessages : list message;
  currentChatMessage : jsstring;
  activeTab : jsstring;
  isWaitingForResponse : bool;
  isMinimized : bool;
  hasUnreadMessages : bool;
  popularInstructions : jsval
}.

Definition set_isVisible (b : bool) (s : state) : state :=
  let 'State _ t l c m a w i u p := s in State b t l c m a w i u p.
Definition set_availableTasks (v : jsval) (s : state) : state :=
  let 'State b _ l c m a w i u p := s in State b v l c m a w i u p.
Definition set_isListening (x : bool) (s : state) : state :=
  let 'State b t _ c m a w i u p := s in State b t x c m a w i u p.
Definition set_chatMessages (x : list message) (s : state) : state :=
  let 'State b t l _ m a w i u p := s in State b t l x m a w i u p.
Definition set_currentChatMessage (x : jsstring) (s : state) : state :=
  let 'State b t l c _ a w i u p := s in State b t l c x a w i u p.
Definition set_activeTab (x : jsstring) (s : state) : state :=
  let 'State b t l c m _ w i u p := s in State b t l c m x w i u p.
Definition set_isWaitingForResponse (x : bool) (s : state) : state :=
  let 'State b t l c m a _ i u p := s in State b t l c m a x i u p.
Definition set_isMinimized (x : bool) (s : state) : state :=
  let 'State b t l c m a w _ u p := s in State b t l c m a w x u p.
Definition set_hasUnreadMessages (x : bool) (s : state) : state :=
  let 'State b t l c m a w i _ p := s in State b t l c m a w i x p.
Definition set_popularInstructions (v : jsval) (s : state) : state :=
  let 'State b t l c m a w i u _ := s in State b t l c m a w i u v.

(** The requests the widget issues with [fetch], each with the local
    variables its continuation uses. *)
Inductive request : Type :=
| GetHelp
| PopularInstructions
| SearchInstructions (query : jsstring)
| Chat (message : jsstring)
| GetInstruction (taskId taskName : jsstring)
| ProcessVoice (text : jsstring)
| Export (format : jsstring) (instructionId : jsval).

(** How a request ends: the promise of [fetch] is fulfilled with a response
    ([ok] is [response.ok], [body] the value [response.json()] resolves to,
    [None] when the body is not JSON and [response.json()] rejects), or it
    is rejected. *)
Inductive outcome : Type :=
| Fulfilled (ok : bool) (body : option jsval)
| Rejected.

Inductive error := TypeError | NetworkError | SyntaxError.

Record world := World {
  this_state : state;
  sendBtn_disabled : bool;
  pending : list request;
  console : list (jsstring * error);
  clock : nat
}.

Inductive result (A : Type) : Type :=
| Normal (a : A)
| Thrown (e : error).
Arguments Normal {A} a.
Arguments Thrown {A} e.

(** Code that reads and writes the world and may throw. *)
Definition M (A : Type) : Type := world → result A * world.

Definition throw {A} (e : error) : M A := λ w, (Thrown e, w).

#[global] Instance M_ret : MRet M := λ A a w, (Normal a, w).

#[global] Instance M_bind : MBind M := λ A B k m w,
  match m w with
  | (Normal a, w') => k a w'
  | (Thrown e, w') => (Thrown e, w')
  end.

(** [try { m } catch (error) { handler error }] *)
Definition try_catch {A} (m : M A) (handler : error → M A) : M A :=
  λ w, match m w with
       | (Normal a, w') => (Normal a, w')
       | (Thrown e, w') => handler e w'
       end.

(** [try { m } finally { f }]: [f] runs in either case, and the completion
    of [m] stands unless [f] throws. *)
Definition try_finally {A} (m : M A) (f : M unit) : M A :=
  λ w, match m w with
       | (r, w') =>
           match f w' with
           | (Normal _, w'') => (r, w'')
           | (Thrown e, w'') => (Thrown e, w'')
           end
       end.

Definition gets {A} (f : state → A) : M A := λ w, (Normal (f (this_state w)), w).

Definition modify (f : state → state) : M unit :=
  λ w, (Normal tt,
        World (f (this_state w)) (sendBtn_disabled w) (pending w) (console w) (clock w)).

Definition set_sendBtn_disabled (b : bool) : M unit :=
  λ w, (Normal tt, World (this_state w) b (pending w) (console w) (clock w)).

(** [fetch(...)]: the request is in flight from now on. *)
Definition fetch (r : request) : M unit :=
  λ w, (Normal tt,
        World (this_state w) (sendBtn_disabled w) (pending w ++ [r]) (console w) (clock w)).

Definition console_error (label : jsstring) (e : error) : M unit :=
  λ w, (Normal tt,
        World (this_state w) (sendBtn_disabled w) (pending w)
          (console w ++ [(label, e)]) (clock w)).

(** Reading the clock ([Date.now()], [new Date()]). *)
Definition now : M nat :=
  λ w, (Normal (clock w),
        World (this_state w) (sendBtn_disabled w) (pending w) (console w) (S (clock w))).

(** [await response.json()] after [await fetch(...)]. *)
Definition json (o : outcome) : M jsval :=
  match o with
  | Fulfilled _ (Some data) => mret data
  | Fulfilled _ None => throw SyntaxError
  | Rejected => throw NetworkError
  end.

(** [v.name] for a name that no prototype defines: a [TypeError] on
    [null] and [undefined], the own property of an object, [undefined]
    otherwise. *)
Definition prop (v : jsval) (name : string) : M jsval :=
  match v with
  | VUndefined | VNull => throw TypeError
  | VObj fields => mret (default VUndefined (fields !! lit name))
  | _ => mret VUndefined
  end.

(** [v || []] *)
Definition or_empty (v : jsval) : jsval := if truthy v then v else VArr [].

Definition is_string (v : jsval) : bool :=
  match v with VStr _ => true | _ => false end.

(** [escapeHtml(unsafe)] calls [unsafe.replace]; it returns for a string
    and throws a [TypeError] for every other value. *)
Definition escapeHtml (unsafe : jsval) : M unit :=
  if is_string unsafe then mret tt else throw TypeError.

(** A substitution [${v}] of a template literal. *)
Definition substitute (v : jsval) : M unit :=
  if stringifies v then mret tt else throw TypeError.

Fixpoint for_each {A} (f : A → M unit) (l : list A) : M unit :=
  match l with
  | [] => mret tt
  | x :: l' => f x;; for_each f l'
  end.

(** The templates of the three kinds of cards, with their substitutions
    in the order of the template. [JSON.stringify(item).replace(...)] in the
    second and the third returns for every value out of JSON. *)
Definition task_card (task : jsval) : M unit :=
  id ← prop task "id";
  substitute id;;
  name ← prop task "name";
  substitute name;;
  name ← prop task "name";
  substitute name;;
  description ← prop task "description";
  substitute description.

Definition instruction_card (instruction : jsval) : M unit :=
  task_id ← prop instruction "task_id";
  substitute task_id;;
  usage_count ← prop instruction "usage_count";
  substitute usage_count.

Definition result_card (result : jsval) : M unit :=
  task_id ← prop result "task_id";
  substitute task_id;;
  user_query ← prop result "user_query";
  substitute (if truthy user_query then user_query else VStr (lit "Без описания")).

(** A list of cards is drawn by [if (list.length === 0) { ...; return; }
    list.map(card)] ([renderAvailableTasks], [renderSearchResults]), or the
    same over [list.slice(0, 5)] ([renderPopularInstructions]). It returns
    when [length] is [0]; otherwise only an array has a [map], and the
    template of the card is built for each item drawn. *)
Definition render_cards (limit : option nat) (card : jsval → M unit) (list : jsval)
  : M unit :=
  match list with
  | VArr items =>
      let drawn := match limit with Some n => take n items | None => items end in
      for_each card drawn
  | VStr s => if decide (s = []) then mret tt else throw TypeError
  | VObj fields =>
      match fields !! lit "length" with
      | Some (VNum 0) => mret tt
      | _ => throw TypeError
      end
  | _ => throw TypeError
  end.

(** [v === 'literal'] *)
Definition is_literal (v : jsval) (s : string) : bool :=
  match v with VStr x => bool_decide (x = lit s) | _ => false end.

(** [v.map(f)] for a value out of JSON: only an array has a [map]. *)
Definition array_map (f : jsval → M unit) (v : jsval) : M unit :=
  match v with
  | VArr items => for_each f items
  | _ => throw TypeError
  end.

(** Methods that only touch the page. *)
Definition scrollChatToBottom : M unit := mret tt.
Definition updateNotificationBadge : M unit := mret tt.
Definition showTypingIndicator : M unit := mret tt.
Definition hideTypingIndicator : M unit := mret tt.
Definition attachEventListeners : M unit := mret tt.

(** The markup of one message in [renderChatMessages]: the content and
    the steps are escaped, and the [instruction_id] is written into each of
    the three export buttons. *)
Definition render_message (msg : message) : M unit :=
  match msg_role msg with
  | user => escapeHtml (content msg)
  | assistant =>
      if truthy (instructionData msg) then
        escapeHtml (content msg);;
        steps ← prop (instructionData msg) "steps";
        array_map escapeHtml steps;;
        instruction_id ← prop (instructionData msg) "instruction_id";
        substitute instruction_id;;
        instruction_id ← prop (instructionData msg) "instruction_id";
        substitute instruction_id;;
        instruction_id ← prop (instructionData msg) "instruction_id";
        substitute instruction_id
      else escapeHtml (content msg)
  end.

Definition renderChatMessages : M unit :=
  messages ← gets chatMessages;
  for_each render_message messages.

(** [addChatMessage(role, content, instructionData = null)]; a caller that
    leaves the third argument out passes [VUndefined]. *)
Definition addChatMessage (role : role) (content instructionData : jsval) : M unit :=
  id ← now;
  timestamp ← now;
  let instructionData :=
    match instructionData with VUndefined => VNull | v => v end in
  let message := Message id role content timestamp instructionData in
  modify (λ s, set_chatMessages (chatMessages s ++ [message]) s);;
  visible ← gets isVisible;
  (if negb visible && bool_decide (role = assistant)
   then modify (set_hasUnreadMessages true);; updateNotificationBadge
   else mret tt : M unit);;
  renderChatMessages;;
  scrollChatToBottom.

Definition showPanel : M unit :=
  modify (set_isVisible true);;
  modify (set_hasUnreadMessages false);;
  updateNotificationBadge.

Definition hidePanel : M unit := modify (set_isVisible false).

Definition togglePanel : M unit :=
  minimized ← gets isMinimized;
  (if minimized : bool then modify (set_isMinimized false) else mret tt : M unit);;
  visible ← gets isVisible;
  if visible : bool then hidePanel else showPanel.

Definition toggleMinimize : M unit :=
  modify (λ s, set_isMinimized (negb (isMinimized s)) s).

Definition switchTab (tabName : jsstring) : M unit :=
  modify (set_activeTab tabName);;
  if decide (tabName = lit "chat") then scrollChatToBottom else mret tt.

Definition welcomeMessages : list jsstring :=
  [lit "Привет! Я ваш AI-ассистент. Чем могу помочь?";
   lit "Здравствуйте! Готов помочь с задачами на этой странице.";
   lit "Приветствую! Задавайте вопросы или ищите инструкции.";
   lit "Добрый день! Я здесь, чтобы помочь вам разобраться с интерфейсом."].

(** [random] is [Math.floor(Math.random() * welcomeMessages.length)]. *)
Definition addWelcomeMessage (random : nat) : M unit :=
  let randomMessage := default [] (welcomeMessages !! (random mod 4)%nat) in
  addChatMessage assistant (VStr randomMessage) VUndefined.

Definition renderAvailableTasks : M unit :=
  tasks ← gets availableTasks;
  render_cards None task_card tasks.

Definition renderPopularInstructions : M unit :=
  instructions ← gets popularInstructions;
  render_cards (Some 5%nat) instruction_card instructions.

Definition renderSearchResults (results : jsval) : M unit :=
  render_cards None result_card results.

(** An [async] method runs up to its first [await] when it is called and
    goes on when the awaited request ends; the part after the [await] is the
    method's [_resume]. [await fetch(...)] and [await response.json()] are
    taken as one suspension: the method does nothing between them. *)

Definition initializeWidget : M unit := fetch GetHelp.

Definition initializeWidget_try (o : outcome) : M unit :=
  tasks ← json o;
  available ← prop tasks "available_tasks";
  modify (set_availableTasks (or_empty available));;
  renderAvailableTasks.

Definition initializeWidget_catch (error : error) : M unit :=
  console_error (lit "Ошибка инициализации ассистента:") error.

Definition initializeWidget_resume (o : outcome) : M unit :=
  try_catch (initializeWidget_try o) initializeWidget_catch.

Definition loadPopularInstructions : M unit := fetch PopularInstructions.

Definition loadPopularInstructions_try (o : outcome) : M unit :=
  data ← json o;
  popular ← prop data "popular_instructions";
  modify (set_popularInstructions (or_empty popular));;
  renderPopularInstructions.

Definition loadPopularInstructions_catch (error : error) : M unit :=
  console_error (lit "Ошибка загрузки популярных инструкций:") error.

Definition loadPopularInstructions_resume (o : outcome) : M unit :=
  try_catch (loadPopularInstructions_try o) loadPopularInstructions_catch.

Definition searchInstructions (query : jsstring) : M unit :=
  if decide (trim query = []) then
    renderAvailableTasks;;
    renderPopularInstructions
  else fetch (SearchInstructions query).

Definition searchInstructions_try (o : outcome) : M unit :=
  data ← json o;
  results ← prop data "results";
  renderSearchResults (or_empty results).

Definition searchInstructions_catch (error : error) : M unit :=
  console_error (lit "Ошибка поиска:") error.

Definition searchInstructions_resume (o : outcome) : M unit :=
  try_catch (searchInstructions_try o) searchInstructions_catch.

Definition chat_apology : jsstring :=
  lit "Извините, произошла ошибка. Попробуйте еще раз.".

Definition sendChatMessage : M unit :=
  current ← gets currentChatMessage;
  waiting ← gets isWaitingForResponse;
  let message := trim current in
  if bool_decide (message = []) || waiting then mret tt
  else
    addChatMessage user (VStr message) VUndefined;;
    modify (set_currentChatMessage []);;
    showTypingIndicator;;
    modify (set_isWaitingForResponse true);;
    set_sendBtn_disabled true;;
    fetch (Chat message).

Definition sendChatMessage_try (o : outcome) : M unit :=
  data ← json o;
  hideTypingIndicator;;
  type ← prop data "type";
  if is_literal type "instruction" then
    message ← prop data "message";
    instruction_data ← prop data "instruction_data";
    addChatMessage assistant message instruction_data
  else
    message ← prop data "message";
    addChatMessage assistant message VUndefined.

Definition sendChatMessage_catch (error : error) : M unit :=
  console_error (lit "Chat error:") error;;
  hideTypingIndicator;;
  addChatMessage assistant (VStr chat_apology) VUndefined.

Definition sendChatMessage_finally : M unit :=
  modify (set_isWaitingForResponse false);;
  set_sendBtn_disabled false.

Definition sendChatMessage_resume (o : outcome) : M unit :=
  try_finally
    (try_catch (sendChatMessage_try o) sendChatMessage_catch)
    sendChatMessage_finally.

(** The object literal [{ steps: ..., instruction_id: ... }]. *)
Definition instruction_object (steps instruction_id : jsval) : jsval :=
  VObj (<[lit "steps" := steps]> (<[lit "instruction_id" := instruction_id]> ∅)).

Definition instruction_apology : jsstring :=
  lit "Извините, не удалось получить инструкцию.".

Definition showInstruction (taskId taskName : jsstring) : M unit :=
  fetch (GetInstruction taskId taskName).

Definition showInstruction_try (taskName : jsstring) (o : outcome) : M unit :=
  data ← json o;
  switchTab (lit "chat");;
  steps ← prop data "steps";
  instruction_id ← prop data "instruction_id";
  addChatMessage assistant
    (VStr (lit "Вот инструкция для задачи " ++ [34%N] ++ taskName ++ [34%N; 58%N]))
    (instruction_object (or_empty steps) instruction_id).

Definition showInstruction_catch (error : error) : M unit :=
  console_error (lit "Ошибка получения инструкции:") error;;
  addChatMessage assistant (VStr instruction_apology) VUndefined.

Definition showInstruction_resume (taskName : jsstring) (o : outcome) : M unit :=
  try_catch (showInstruction_try taskName o) showInstruction_catch.

Definition loadInstruction (instruction : jsval) : M unit :=
  switchTab (lit "chat");;
  steps ← prop instruction "steps";
  instruction_id ← prop instruction "id";
  addChatMessage assistant (VStr (lit "Вот инструкция:"))
    (instruction_object (or_empty steps) instruction_id).

Definition voice_apology : jsstring :=
  lit "Извините, произошла ошибка при обработке голосового запроса.".

Definition processVoiceQuery (text : jsstring) : M unit :=
  fetch (ProcessVoice text).

Definition processVoiceQuery_try (text : jsstring) (o : outcome) : M unit :=
  data ← json o;
  switchTab (lit "chat");;
  addChatMessage user (VStr text) VUndefined;;
  source ← prop data "source";
  if is_literal source "existing" || is_literal source "generated"
     || is_literal source "fallback"
  then
    reply ← prop data "text";
    steps ← prop data "steps";
    instruction_id ← prop data "instruction_id";
    addChatMessage assistant reply (instruction_object steps instruction_id)
  else
    reply ← prop data "text";
    addChatMessage assistant reply VUndefined.

Definition processVoiceQuery_catch (error : error) : M unit :=
  console_error (lit "Ошибка обработки голоса:") error;;
  addChatMessage assistant (VStr voice_apology) VUndefined.

Definition processVoiceQuery_resume (text : jsstring) (o : outcome) : M unit :=
  try_catch (processVoiceQuery_try text o) processVoiceQuery_catch.

(** A call of an [async] method whose promise is dropped: what the method
    throws does not reach the caller. *)
Definition detached (m : M unit) : M unit :=
  λ w, (Normal tt, (m w).2).

(** [prompt_result] is what [prompt(...)] returns: the text typed, or
    [None] for [null]. *)
Definition startVoiceInput (prompt_result : option jsstring) : M unit :=
  listening ← gets isListening;
  if listening : bool then mret tt
  else
    modify (set_isListening true);;
    try_finally
      (try_catch
         (match prompt_result with
          | Some text =>
              if decide (text = []) then mret tt
              else detached (processVoiceQuery text)
          | None => mret tt
          end)
         (λ error, console_error (lit "Ошибка голосового ввода:") error))
      (modify (set_isListening false)).

Definition exportInstruction_catch (error : error) : M unit :=
  console_error (lit "Ошибка экспорта:") error.

(** The address of the request is a template with [${instructionId}], built
    inside the [try] block before [fetch] is called. *)
Definition exportInstruction (format : jsstring) (instructionId : jsval) : M unit :=
  let instructionId :=
    match instructionId with VUndefined => VNull | v => v end in
  if negb (truthy instructionId) then mret tt
  else
    try_catch
      (substitute instructionId;;
       fetch (Export format instructionId))
      exportInstruction_catch.

Definition exportInstruction_try (o : outcome) : M unit :=
  match o with
  | Fulfilled ok _ => mret tt
  | Rejected => throw NetworkError
  end.

Definition exportInstruction_resume (o : outcome) : M unit :=
  try_catch (exportInstruction_try o) exportInstruction_catch.

Definition sendMessage (message : jsstring) : M unit :=
  modify (set_currentChatMessage message);;
  detached sendChatMessage.

(** [init] after [await this.initializeWidget()], and after
    [await this.loadPopularInstructions()]. *)
Definition init_after_help (o : outcome) : M unit :=
  initializeWidget_resume o;;
  loadPopularInstructions.

Definition init_after_popular (o : outcome) (random : nat) : M unit :=
  loadPopularInstructions_resume o;;
  attachEventListeners;;
  addWelcomeMessage random.

(** The continuation that a request in flight holds. *)
Definition resume (r : request) (o : outcome) (random : nat) : M unit :=
  match r with
  | GetHelp => init_after_help o
  | PopularInstructions => init_after_popular o random
  | SearchInstructions _ => searchInstructions_resume o
  | Chat _ => sendChatMessage_resume o
  | GetInstruction _ taskName => showInstruction_resume taskName o
  | ProcessVoice text => processVoiceQuery_resume text o
  | Export _ _ => exportInstruction_resume o
  end.

(** The [i]-th request in flight ends with [o]. *)
Definition settle (i : nat) (o : outcome) (random : nat) : M unit :=
  λ w, match pending w !! i with
       | Some r =>
           resume r o random
             (World (this_state w) (sendBtn_disabled w) (delete i (pending w))
                (console w) (clock w))
       | None => (Normal tt, w)
       end.

(** What happens to a widget: a listener runs ([togglePanel], [hidePanel],
    [toggleMinimize], [switchTab], the two [input] listeners, the send
    button and the Enter key, the voice buttons), a public method or a
    method named by the markup is called ([show], [hide], [sendMessage],
    [destroy], [showInstruction], [loadInstruction], [exportInstruction]),
    or a request ends. The listeners are attached at the end of [init]; the
    events are allowed from the start, which only adds worlds. *)
Inductive event : Type :=
| TogglePanel
| ShowPanel
| HidePanel
| ToggleMinimize
| SwitchTab (tabName : jsstring)
| SearchInput (query : jsstring)
| ChatInput (value : jsstring)
| SendChatMessage
| SendMessage (message : jsstring)
| ShowInstruction (taskId taskName : jsstring)
| LoadInstruction (instruction : jsval)
| StartVoiceInput (prompt_result : option jsstring)
| ExportInstruction (format : jsstring) (instructionId : jsval)
| Destroy
| Settle (i : nat) (o : outcome) (random : nat).

Definition handle (e : event) : M unit :=
  match e with
  | TogglePanel => togglePanel
  | ShowPanel => showPanel
  | HidePanel => hidePanel
  | ToggleMinimize => toggleMinimize
  | SwitchTab tabName => switchTab tabName
  | SearchInput query => searchInstructions query
  | ChatInput value => modify (set_currentChatMessage value)
  | SendChatMessage => sendChatMessage
  | SendMessage message => sendMessage message
  | ShowInstruction taskId taskName => showInstruction taskId taskName
  | LoadInstruction instruction => loadInstruction instruction
  | StartVoiceInput prompt_result => startVoiceInput prompt_result
  | ExportInstruction format instructionId => exportInstruction format instructionId
  | Destroy => mret tt
  | Settle i o random => settle i o random
  end.

Definition step (w : world) (e : event) : world := (handle e w).2.

(** The widget when its constructor returns: [init] has run up to the
    request of [initializeWidget]. *)
Definition initial_state : state :=
  State false (VArr []) false [] [] (lit "tasks") false false false VUndefined.

Definition initial : world :=
  (initializeWidget (World initial_state false [] [] 0)).2.

Inductive reachable : world → Prop :=
| reachable_initial : reachable initial
| reachable_step w e : reachable w → reachable (step w e).

End Widget.

(** ** The words of the specification, for the snapshot tool *)

Module DomSpec.

Import Dom.

(** The elements strictly below [e], in document order. *)
Fixpoint descendants (e : element) : list element :=
  flat_map (λ c, c :: descendants c) (children e).

(** The elements strictly below [e] and at most [k] levels below it. *)
Fixpoint descendants_upto (e : element) (k : nat) : list element :=
  match k with
  | 0 => []
  | S k' => flat_map (λ c, c :: descendants_upto c k') (children e)
  end.

(** The number of levels below [e]: [0] for an element without element
    children. *)
Fixpoint height (e : element) : nat :=
  foldr Nat.max 0 (map (λ c, S (height c)) (children e)).

(** The tag name as [elementToTree] writes it, and the object of the
    attributes. *)
Definition lowerTag (e : element) (missing : jsstring) : jsstring :=
  if decide (tagName e = []) then missing else toLowerCase (tagName e).

Definition attributeMap (e : element) : gmap jsstring jsstring :=
  fold_left (λ obj attr, DomParser.set_property obj attr.1 attr.2) (attributes e) ∅.

(** An element is interactive when its tag name, in lower case, is one of
    button, a, input, select, textarea, form. *)
Definition interactive (e : element) : bool :=
  bool_decide (toLowerCase (tagName e) ∈ DomParser.interactiveTags).

(** The element nodes of the document with root [e]. *)
Definition elements (e : element) : list element := e :: descendants e.

(** Maximal runs of a string: [(true, r)] is a run of whitespace,
    [(false, r)] a run of other code units. *)
Fixpoint runs (s : jsstring) : list (bool * jsstring) :=
  match s with
  | [] => []
  | c :: s' =>
      match runs s' with
      | (w, r) :: rest =>
          if Bool.eqb w (is_ws c) then (w, c :: r) :: rest
          else (is_ws c, [c]) :: (w, r) :: rest
      | [] => [(is_ws c, [c])]
      end
  end.

(** Two neighbours in a list of runs are of different kinds. *)
Fixpoint alternate (l : list (bool * jsstring)) : Prop :=
  match l with
  | x :: (y :: _) as l' => x.1 ≠ y.1 ∧ alternate l'
  | _ => True
  end.

(** Every maximal whitespace run collapsed to a single space. *)
Definition collapse (s : jsstring) : jsstring :=
  flat_map (λ run : bool * jsstring, if run.1 then [space] else run.2) (runs s).

(** [t] is [s] trimmed: [s] without the whitespace at its two ends. *)
Definition trimmed (s t : jsstring) : Prop :=
  ∃ l r, s = l ++ t ++ r
         ∧ forallb is_ws l = true ∧ forallb is_ws r = true
         ∧ (∀ c, head t = Some c → is_ws c = false)
         ∧ (∀ c, last t = Some c → is_ws c = false).

(** The nodes of a tree of the report, the root first. *)
Fixpoint nodes (node : DomParser.tree) : list DomParser.tree :=
  node :: match node with
          | DomParser.ElementInfo _ _ cs _ _ => flat_map nodes cs
          | _ => []
          end.

(** The number of levels below a node of the report. *)
Fixpoint tree_height (node : DomParser.tree) : nat :=
  match node with
  | DomParser.ElementInfo _ _ cs _ _ => foldr Nat.max 0 (map (λ c, S (tree_height c)) cs)
  | _ => 0
  end.

(** Every node of the tree has [children]. *)
Definition complete (node : DomParser.tree) : bool :=
  forallb (λ n, bool_decide (is_Some (DomParser.children n))) (nodes node).

(** A node counts as interactive when its [tagName] is one of the six. *)
Definition interactive_node (node : DomParser.tree) : bool :=
  DomParser.includes DomParser.interactiveTags (DomParser.tagName node).

Definition count_nodes (node : DomParser.tree) : nat :=
  length (List.filter interactive_node (nodes node)).

(** The record of the report for one file. *)
Definition fileRecord (env : DomParser.environment) (path : jsval) : DomParser.result :=
  let domTree := DomParser.parseDOM env path in
  match DomParser.countInteractiveElements domTree with
  | Return interactive =>
      DomParser.Analysis path domTree
        (DomParser.Stats (default 0 (DomParser.elementCount domTree)) interactive)
  | Throw message => DomParser.Failure path message
  end.

(** Reading and parsing the file at [path]. *)
Definition document (env : DomParser.environment) (path : jsval) : completion element :=
  bind (DomParser.readFileSync env path) (DomParser.JSDOM env).

(** The input list is there: the file named by the argument can be read,
    its text is JSON, and the value is an array. *)
Definition input_list (env : DomParser.environment) (argv2 : jsval) : option (list jsval) :=
  match bind (DomParser.readFileSync env argv2) (DomParser.JSON_parse env) with
  | Return (VArr files) => Some files
  | _ => None
  end.

End DomSpec.

(** ** Examples of documents *)

Module Examples.

Import Dom.

Definition el (tag : string) (children : list element) : element :=
  Element (lit tag) [] children [].

(** [n] nested [div] elements around [inner]. *)
Fixpoint nest (n : nat) (inner : element) : element :=
  match n with
  | 0 => inner
  | S n' => el "DIV" [nest n' inner]
  end.

(** [<html><head></head><body><button>x</button></body></html>] *)
Definition page : element :=
  Element (lit "HTML") []
    [el "HEAD" [];
     Element (lit "BODY") [] [Element (lit "BUTTON") [] [] (lit "x")] (lit "x")]
    (lit "x").

(** A document whose [button] is at depth 12: below [html] and [body], ten
    nested [div] elements hold it. *)
Definition deep_page : element :=
  el "HTML" [el "HEAD" []; el "BODY" [nest 10 (el "BUTTON" [])]].

(** The same with nine [div] elements: the [button] is at depth 11. *)
Definition capped_page : element :=
  el "HTML" [el "HEAD" []; el "BODY" [nest 9 (el "BUTTON" [])]].

(** A file system with the three documents, and an input list naming
    them and a file that is not there. *)
Definition path (name : string) : jsval := VStr (lit name).

Definition fs : DomParser.environment :=
  DomParser.Environment
    (λ p, match p with
          | VStr s =>
              if decide (s = lit "list.json") then Return (lit "list")
              else if decide (s = lit "a.html") then Return (lit "a")
              else if decide (s = lit "deep.html") then Return (lit "deep")
              else if decide (s = lit "capped.html") then Return (lit "capped")
              else if decide (s = lit "bad.json") then Return (lit "{")
              else if decide (s = lit "object.json") then Return (lit "{}")
              else Throw (lit "ENOENT: no such file or directory")
          | _ => Throw (lit "The path argument must be of type string")
          end)
    (λ html,
       if decide (html = lit "a") then Return page
       else if decide (html = lit "deep") then Return deep_page
       else if decide (html = lit "capped") then Return capped_page
       else Return (el "HTML" [el "HEAD" []; el "BODY" []]))
    (λ text,
       if decide (text = lit "list")
       then Return (VArr [path "a.html"; path "deep.html"; path "missing.html";
                          path "capped.html"])
       else if decide (text = lit "{}") then Return (VObj ∅)
       else Throw (lit "Unexpected end of JSON input"))
    (λ _ _, Return tt)
    (lit "2024-01-01T00:00:00.000Z").

End Examples.

(** ** The words of the specification, for the widget *)

Module WidgetSpec.

Import Widget.

(** The chat message list of a world, its in-flight flag, and the chat
    requests in flight. *)
Definition messages (w : world) : list message := chatMessages (this_state w).

Definition waiting (w : world) : bool := isWaitingForResponse (this_state w).

Definition is_chat (r : request) : bool :=
  match r with Chat _ => true | _ => false end.

Definition chat_requests (w : world) : list request :=
  List.filter is_chat (pending w).

(** A chat request is outstanding. *)
Definition chat_outstanding (w : world) : Prop :=
  ∃ i message, pending w !! i = Some (Chat message).

(** The event is the end of a chat request. *)
Definition ends_chat (w : world) (e : event) : Prop :=
  match e with
  | Settle i _ _ => ∃ message, pending w !! i = Some (Chat message)
  | _ => False
  end.

(** The events that run [sendChatMessage] or end a request. *)
Definition chat_event (e : event) : bool :=
  match e with
  | SendChatMessage | SendMessage _ | Settle _ _ _ => true
  | _ => false
  end.

(** At most one chat request is in flight, and one is exactly when the
    flag is set. *)
Definition guarded (w : world) : Prop :=
  length (chat_requests w) = if waiting w then 1 else 0.

(** [m] leaves the world in relation [R] with the world it started in. *)
Definition preserves {A} (R : relation world) (m : M A) : Prop :=
  ∀ w, R w (m w).2.

(** The chat message list is only extended at its end. *)
Definition extends : relation world :=
  λ w w', messages w `prefix_of` messages w'.

(** The in-flight flag and the chat requests in flight are as before. *)
Definition same_chat : relation world :=
  λ w w', waiting w' = waiting w ∧ chat_requests w' = chat_requests w.

(** [m] only reads the world. *)
Definition reads {A} (m : M A) : Prop := ∀ w, (m w).2 = w.

(** The markup of the message can be built: the content is a string, and
    with a payload its [steps] are an array of strings and its
    [instruction_id] can be written as a string. *)
Definition steps_render (instructionData : jsval) : bool :=
  match instructionData with
  | VObj fields =>
      match default VUndefined (fields !! lit "steps") with
      | VArr steps => forallb is_string steps
      | _ => false
      end
  | _ => false
  end.

(** [v.name] for a value that is neither [null] nor [undefined]. *)
Definition field (v : jsval) (name : string) : jsval :=
  match v with
  | VObj fields => default VUndefined (fields !! lit name)
  | _ => VUndefined
  end.

Definition renders (msg : message) : bool :=
  match msg_role msg with
  | user => is_string (content msg)
  | assistant =>
      if truthy (instructionData msg)
      then is_string (content msg) && steps_render (instructionData msg)
           && stringifies (field (instructionData msg) "instruction_id")
      else is_string (content msg)
  end.

(** The world after [addChatMessage]. *)
Definition new_message (w : world) (role : role) (content instructionData : jsval)
  : message :=
  Message (clock w) role content (S (clock w))
    match instructionData with VUndefined => VNull | v => v end.

Definition added (w : world) (role : role) (content instructionData : jsval) : world :=
  let s := set_chatMessages
             (messages w ++ [new_message w role content instructionData])
             (this_state w) in
  World (if negb (isVisible (this_state w)) && bool_decide (role = assistant)
         then set_hasUnreadMessages true s else s)
    (sendBtn_disabled w) (pending w) (console w) (S (S (clock w))).

(** The part of a request's continuation that belongs to the method
    that issued it. *)
Definition method_resume (r : request) (o : outcome) : M unit :=
  match r with
  | GetHelp => initializeWidget_resume o
  | PopularInstructions => loadPopularInstructions_resume o
  | SearchInstructions _ => searchInstructions_resume o
  | Chat _ => sendChatMessage_resume o
  | GetInstruction _ taskName => showInstruction_resume taskName o
  | ProcessVoice text => processVoiceQuery_resume text o
  | Export _ _ => exportInstruction_resume o
  end.

(** The label that the catch clause of the method logs. *)
Definition log_label (r : request) : jsstring :=
  match r with
  | GetHelp => lit "Ошибка инициализации ассистента:"
  | PopularInstructions => lit "Ошибка загрузки популярных инструкций:"
  | SearchInstructions _ => lit "Ошибка поиска:"
  | Chat _ => lit "Chat error:"
  | GetInstruction _ _ => lit "Ошибка получения инструкции:"
  | ProcessVoice _ => lit "Ошибка обработки голоса:"
  | Export _ _ => lit "Ошибка экспорта:"
  end.

(** The apology that the catch clause of the method adds to the chat, for
    the three methods that add one. *)
Definition apology (r : request) : option jsstring :=
  match r with
  | Chat _ => Some chat_apology
  | GetInstruction _ _ => Some instruction_apology
  | ProcessVoice _ => Some voice_apology
  | _ => None
  end.

(** The [try] block of the method that issued the request, from the end
    of the request on. *)
Definition try_block (r : request) (o : outcome) : M unit :=
  match r with
  | GetHelp => initializeWidget_try o
  | PopularInstructions => loadPopularInstructions_try o
  | SearchInstructions _ => searchInstructions_try o
  | Chat _ => sendChatMessage_try o
  | GetInstruction _ taskName => showInstruction_try taskName o
  | ProcessVoice text => processVoiceQuery_try text o
  | Export _ _ => exportInstruction_try o
  end.

(** The methods that read the body of the response as JSON. *)
Definition parses_body (r : request) : bool :=
  match r with Export _ _ => false | _ => true end.

(** The world with [entry] logged. *)
Definition logged (w : world) (label : jsstring) (e : error) : world :=
  World (this_state w) (sendBtn_disabled w) (pending w)
    (console w ++ [(label, e)]) (clock w).

(** The world when a chat request has ended. *)
Definition released (w : world) : world :=
  World (set_isWaitingForResponse false (this_state w)) false (pending w)
    (console w) (clock w).

(** Example worlds. [ready]: the two requests of [init] have been answered
    with [{}], so the listeners are attached and the welcome message is in
    the chat. Then the user types a message and sends it ([sent]), or types
    into the search box ([searching]); in [broken] the reply to the message
    has arrived, and it has no [message]. *)
Definition empty_reply : outcome := Fulfilled true (Some (VObj ∅)).

Definition ready : world :=
  step (step initial (Settle 0 empty_reply 0)) (Settle 0 empty_reply 0).

Definition typed : world := step ready (ChatInput (lit "hello")).

Definition sent : world := step typed SendChatMessage.

Definition searching : world := step ready (SearchInput (lit "cart")).

Definition broken : world := step sent (Settle 0 empty_reply 0).

End WidgetSpec.

(** ** More words for the snapshot tool *)

Module DomSpecMore.

Import Dom.

(** What a record of the report adds to the two totals of the summary. *)
Definition record_elements (r : DomParser.result) : nat :=
  match r with
  | DomParser.Analysis _ _ st => DomParser.s_totalElements st
  | DomParser.Failure _ _ => 0
  end.

Definition record_interactive (r : DomParser.result) : nat :=
  match r with
  | DomParser.Analysis _ _ st => DomParser.s_interactiveElements st
  | DomParser.Failure _ _ => 0
  end.

(** The nodes of a tree of the report at [k] levels below its root. *)
Fixpoint level (k : nat) (node : DomParser.tree) : list DomParser.tree :=
  match k with
  | 0 => [node]
  | S k' =>
      match node with
      | DomParser.ElementInfo _ _ cs _ _ => flat_map (level k') cs
      | _ => []
      end
  end.

(** The elements of a document at [k] levels below [e]. *)
Fixpoint elements_at (k : nat) (e : element) : list element :=
  match k with
  | 0 => [e]
  | S k' => flat_map (elements_at k') (children e)
  end.

(** No two neighbours of the string are both whitespace. *)
Fixpoint sparse (s : jsstring) : Prop :=
  match s with
  | a :: (b :: _) as s' => ¬ (is_ws a = true ∧ is_ws b = true) ∧ sparse s'
  | _ => True
  end.

(** The code units of a string that are not whitespace. *)
Definition ink (s : jsstring) : jsstring :=
  List.filter (λ c, negb (is_ws c)) s.

(** The attributes of a node of the report; [None] for a node without. *)
Definition attributes_of (node : DomParser.tree) : option (gmap jsstring jsstring) :=
  match node with
  | DomParser.ElementInfo _ a _ _ _ => Some a
  | _ => None
  end.

End DomSpecMore.

(** ** More words for the widget *)

Module WidgetSpecMore.

Import Widget WidgetSpec.

(** Every message of the chat can be drawn. *)
Definition drawable (w : world) : Prop := forallb renders (messages w) = true.

(** The events that bring a value of the backend into the chat: the end
    of a request with a JSON body, and [loadInstruction], which the markup
    calls with an instruction of the backend. *)
Definition brings_payload (e : event) : bool :=
  match e with
  | LoadInstruction _ => true
  | Settle _ (Fulfilled _ (Some _)) _ => true
  | _ => false
  end.

Definition keeps_drawable : relation world := λ w w', drawable w → drawable w'.

(** The badge is not pending while the panel is open; no voice input is
    going on; the send button is disabled exactly when the flag is set. *)
Definition steady (w : world) : Prop :=
  (isVisible (this_state w) = true → hasUnreadMessages (this_state w) = false)
  ∧ isListening (this_state w) = false
  ∧ sendBtn_disabled w = waiting w.

Definition keeps_steady : relation world := λ w w', steady w → steady w'.

(** The world after [sendChatMessage] has issued its request; [w] is the
    world with the message of the user added. *)
Definition submitted (w : world) (message : jsstring) : world :=
  World (set_isWaitingForResponse true (set_currentChatMessage [] (this_state w)))
    true (pending w ++ [Chat message]) (console w) (clock w).

(** The message that the reply [data] of the chat request adds. *)
Definition reply_content (fields : gmap jsstring jsval) : jsval :=
  default VUndefined (fields !! lit "message").

Definition reply_payload (fields : gmap jsstring jsval) : jsval :=
  if is_literal (default VUndefined (fields !! lit "type")) "instruction"
  then default VUndefined (fields !! lit "instruction_data")
  else VUndefined.

(** The chat and the requests in flight are as before. *)
Definition quiet : relation world :=
  λ w w', messages w' = messages w ∧ pending w' = pending w.

(** The world with the [i]-th request gone. *)
Definition without (i : nat) (w : world) : world :=
  World (this_state w) (sendBtn_disabled w) (delete i (pending w)) (console w) (clock w).

End WidgetSpecMore.

(** ** The helpers of the widget for markup and colours *)

Module Markup.

Local Open Scope Z_scope.

(** [s.replace(/c/g, by)] for the pattern of one code unit [c]. *)
Definition replace_unit (c : N) (by_ : jsstring) (s : jsstring) : jsstring :=
  flat_map (λ x, if N.eqb x c then by_ else [x]) s.

(** [escapeHtml(unsafe)] for a string: the five replacements, in the
    order of the source. *)
Definition escapeHtml (unsafe : jsstring) : jsstring :=
  replace_unit 39 (lit "&#039;")
    (replace_unit 34 (lit "&quot;")
       (replace_unit 62 (lit "&gt;")
          (replace_unit 60 (lit "&lt;")
             (replace_unit 38 (lit "&amp;") unsafe)))).

(** [color.replace("#", "")]: the first [#] goes. *)
Fixpoint remove_first (c : N) (s : jsstring) : jsstring :=
  match s with
  | [] => []
  | x :: s' => if N.eqb x c then s' else x :: remove_first c s'
  end.

(** The value of a digit of radix 16. *)
Definition hex_value (c : N) : option Z :=
  if ((48 <=? c) && (c <=? 57))%N then Some (Z.of_N c - 48)
  else if ((97 <=? c) && (c <=? 102))%N then Some (Z.of_N c - 87)
  else if ((65 <=? c) && (c <=? 70))%N then Some (Z.of_N c - 55)
  else None.

(** The integer that the longest prefix of digits stands for; [None]
    when the string does not begin with a digit. *)
Fixpoint digits_value (acc : option Z) (s : jsstring) : option Z :=
  match s with
  | [] => acc
  | c :: s' =>
      match hex_value c with
      | Some d => digits_value (Some (default 0 acc * 16 + d)) s'
      | None => acc
      end
  end.

(** The double nearest to an integer, ties to even; [None] is an
    infinity. *)
Definition round_double (z : Z) : option Z :=
  let a := Z.abs z in
  if a <? 2 ^ 53 then Some z
  else
    let e := Z.log2 a - 52 in
    let q := a / 2 ^ e in
    let r := a mod 2 ^ e in
    let half := 2 ^ (e - 1) in
    let q' := if (r >? half) || ((r =? half) && Z.odd q) then q + 1 else q in
    let v := q' * 2 ^ e in
    if v >=? 2 ^ 1024 then None else Some (Z.sgn z * v).

(** [ToInt32] of an integer. *)
Definition wrap32 (z : Z) : Z :=
  let m := z mod 2 ^ 32 in
  if m >=? 2 ^ 31 then m - 2 ^ 32 else m.

(** [ToInt32(parseInt(s, 16))], which is what [>>] and [&] make of
    [num]: leading whitespace, a sign and a prefix [0x] are skipped;
    [NaN] (no digit) and the infinities give [0]. *)
Definition parseInt16_int32 (s : jsstring) : Z :=
  let s1 := trimStart s in
  let '(sign, s2) :=
    match s1 with
    | 45%N :: r => (-1, r)
    | 43%N :: r => (1, r)
    | _ => (1, s1)
    end in
  let s3 :=
    match s2 with
    | 48%N :: x :: r => if N.eqb x 120 || N.eqb x 88 then r else s2
    | _ => s2
    end in
  match digits_value None s3 with
  | None => 0
  | Some v =>
      match round_double (sign * v) with
      | Some n => wrap32 n
      | None => 0
      end
  end.

Definition hex_digit (d : Z) : N :=
  if d <? 10 then Z.to_N (48 + d) else Z.to_N (87 + d).

Fixpoint digits16 (fuel : nat) (z : Z) : jsstring :=
  match fuel with
  | O => []
  | S fuel' =>
      if z <? 16 then [hex_digit z]
      else digits16 fuel' (z / 16) ++ [hex_digit (z mod 16)]
  end.

(** [z.toString(16)] for an integer. *)
Definition toString16 (z : Z) : jsstring :=
  if z <? 0 then 45%N :: digits16 (S (Z.to_nat (Z.log2 (- z)))) (- z)
  else digits16 (S (Z.to_nat (Z.log2 z))) z.

(** [lightenColor(color, percent)] and [darkenColor(color, percent)];
    [amt] is the integer [Math.round(2.55 * percent)], which is 242 and 51
    where [applyGlobalStyles] calls the two. The arithmetic is that of the
    integers, as the arithmetic of the doubles is as long as the numbers are
    below [2 ^ 53]: in [lightenColor] always, the channels being cut to
    255, and in [darkenColor] for [amt] above [- 2 ^ 36]. *)
Definition lightenColor (color : jsstring) (amt : Z) : jsstring :=
  let num := parseInt16_int32 (remove_first 35 color) in
  let R := Z.shiftr num 16 + amt in
  let G := Z.land (Z.shiftr num 8) 255 + amt in
  let B := Z.land num 255 + amt in
  35%N :: drop 1 (toString16
    (16777216
     + (if R <? 255 then if R <? 1 then 0 else R else 255) * 65536
     + (if G <? 255 then if G <? 1 then 0 else G else 255) * 256
     + (if B <? 255 then if B <? 1 then 0 else B else 255))).

Definition darkenColor (color : jsstring) (amt : Z) : jsstring :=
  let num := parseInt16_int32 (remove_first 35 color) in
  let R := Z.shiftr num 16 - amt in
  let G := Z.land (Z.shiftr num 8) 255 - amt in
  let B := Z.land num 255 - amt in
  35%N :: drop 1 (toString16
    (16777216
     + (if R >? 0 then R else 0) * 65536
     + (if G >? 0 then G else 0) * 256
     + (if B >? 0 then B else 0))).

End Markup.

(** ** The words for the helpers *)

Module MarkupSpec.

Import Markup.

Local Open Scope Z_scope.

(** What stands for a code unit in escaped text. *)
Definition entity (c : N) : jsstring :=
  if N.eqb c 38 then lit "&amp;"
  else if N.eqb c 60 then lit "&lt;"
  else if N.eqb c 62 then lit "&gt;"
  else if N.eqb c 34 then lit "&quot;"
  else if N.eqb c 39 then lit "&#039;"
  else [c].

(** The code units that [escapeHtml] replaces. *)
Definition special (c : N) : bool :=
  N.eqb c 38 || N.eqb c 60 || N.eqb c 62 || N.eqb c 34 || N.eqb c 39.

(** The two digits of a channel, and the colour of three channels. *)
Definition hex2 (n : Z) : jsstring := [hex_digit (n / 16); hex_digit (n mod 16)].

Definition color (r g b : Z) : jsstring := 35%N :: hex2 r ++ hex2 g ++ hex2 b.

Definition channel (n : Z) : Prop := 0 ≤ n ≤ 255.

Definition clamp (n : Z) : Z := Z.max 0 (Z.min 255 n).

End MarkupSpec.

(** ** Strings *)

Module JSFacts.

Import DomSpec.

Example lit_ascii : lit "form" = [102; 111; 114; 109]%N.
Proof. reflexivity. Qed.

Example lit_cyrillic : lit "Шаг" = [1064; 1072; 1075]%N.
Proof. reflexivity. Qed.

Example toLowerCase_ascii : toLowerCase (lit "BUTTON") = lit "button".
Proof. by vm_compute. Qed.

Example toLowerCase_latin : toLowerCase (lit "XÀK") = lit "xàk".
Proof. by vm_compute. Qed.

(** The capital I with a dot gives [i] and the combining dot; the capital
    sigma at the end of a word gives the final sigma. *)
Example toLowerCase_special :
  toLowerCase (lit "Aİ") = [97; 105; 775]%N
  ∧ toLowerCase (lit "ΟΔΟΣ") = lit "οδος"
  ∧ toLowerCase (lit "ΣΑΣ") = lit "σας".
Proof. by vm_compute. Qed.

(** A code point outside the basic plane (the Deseret capital long I). *)
Example toLowerCase_pair :
  toLowerCase [55297; 56320]%N = [55297; 56360]%N.
Proof. by vm_compute. Qed.

Example trim_example : trim (lit "  a  b ") = lit "a  b".
Proof. reflexivity. Qed.

Example replace_example :
  replace_ws_runs false (lit "a  b" ++ [9; 10]%N ++ lit "c ") = lit "a b c ".
Proof. reflexivity. Qed.

Lemma trimStart_split s :
  ∃ l, s = l ++ trimStart s ∧ forallb is_ws l = true.
Proof.
  induction s as [|c s IH]; simpl.
  - by exists [].
  - destruct (is_ws c) eqn:Hc.
    + destruct IH as (l & Hs & Hl). exists (c :: l). simpl.
      rewrite Hc, Hl. split; [by f_equal|done].
    + by exists [].
Qed.

Lemma trimStart_head s c : head (trimStart s) = Some c → is_ws c = false.
Proof.
  induction s as [|x s IH]; simpl; [done|].
  destruct (is_ws x) eqn:Hx; [done|]. simpl. by intros [= <-].
Qed.

Lemma trimStart_nonws s c : head s = Some c → is_ws c = false → trimStart s = s.
Proof. destruct s as [|x s]; simpl; [done|]. intros [= ->] ->. done. Qed.

Lemma forallb_rev {A} (f : A → bool) l : forallb f (rev l) = forallb f l.
Proof.
  induction l as [|x l IH]; simpl; [done|].
  rewrite forallb_app, IH. simpl. rewrite andb_true_r. apply andb_comm.
Qed.

Lemma head_rev {A} (l : list A) : head (rev l) = last l.
Proof.
  induction l as [|x l _] using rev_ind; [done|].
  by rewrite rev_app_distr, last_snoc.
Qed.

Lemma trimEnd_split s :
  ∃ r, s = trimEnd s ++ r ∧ forallb is_ws r = true.
Proof.
  unfold trimEnd. destruct (trimStart_split (rev s)) as (l & Hs & Hl).
  exists (rev l). rewrite forallb_rev. split; [|done].
  rewrite <- rev_app_distr, <- Hs. by rewrite rev_involutive.
Qed.

Lemma trimEnd_last s c : last (trimEnd s) = Some c → is_ws c = false.
Proof.
  unfold trimEnd. rewrite <- head_rev, rev_involutive. apply trimStart_head.
Qed.

Lemma trimEnd_head s c :
  head s = Some c → is_ws c = false → head (trimEnd s) = Some c.
Proof.
  intros Hh Hc. destruct (trimEnd_split s) as (r & Hs & Hr).
  destruct (trimEnd s) as [|x t] eqn:Ht.
  - simpl in Hs. subst s. destruct r as [|y r]; [done|].
    simpl in *. injection Hh as ->. by rewrite Hc in Hr.
  - rewrite Hs in Hh. done.
Qed.

(** [trim] removes the whitespace at the two ends, and nothing else. *)
Lemma trim_trimmed s : trimmed s (trim s).
Proof.
  unfold trim.
  destruct (trimStart_split s) as (l & Hs & Hl).
  destruct (trimEnd_split (trimStart s)) as (r & Hr & Hrw).
  exists l, r. split; [by rewrite <- Hr|]. repeat split; try done.
  - intros c Hc. destruct (trimStart s) as [|x t] eqn:Ht; [done|].
    assert (is_ws x = false) as Hx by (apply (trimStart_head s); by rewrite Ht).
    rewrite (trimEnd_head (x :: t) x eq_refl Hx) in Hc. by injection Hc as <-.
  - apply trimEnd_last.
Qed.

Lemma forallb_ws_trimStart s : forallb is_ws s = true → trimStart s = [].
Proof.
  induction s as [|c s IH]; simpl; [done|].
  intros [-> Hs]%andb_true_iff. auto.
Qed.

(** A string is empty or all whitespace exactly when [trim] leaves
    nothing. *)
Lemma trim_nil_iff s : trim s = [] ↔ forallb is_ws s = true.
Proof.
  split.
  - intros Ht. destruct (trim_trimmed s) as (l & r & Hs & Hl & Hr & _).
    rewrite Ht in Hs. simpl in Hs. subst s. by rewrite forallb_app, Hl, Hr.
  - intros H. unfold trim. by rewrite (forallb_ws_trimStart _ H).
Qed.

(** The runs of a string are its pieces. *)
Lemma runs_concat s : concat (map snd (runs s)) = s.
Proof.
  induction s as [|c s IH]; simpl; [done|].
  destruct (runs s) as [|[w r] rest]; simpl in *.
  - by subst s.
  - destruct (Bool.eqb w (is_ws c)); simpl; by rewrite <- IH.
Qed.

(** Each run is not empty and of one kind. *)
Lemma runs_kind s :
  Forall (λ run : bool * jsstring,
            run.2 ≠ [] ∧ Forall (λ c, is_ws c = run.1) run.2) (runs s).
Proof.
  induction s as [|c s IH]; simpl; [constructor|].
  destruct (runs s) as [|[w r] rest]; simpl in *.
  - repeat constructor; done.
  - inversion IH as [|? ? [Hne Hk] Hrest]; subst.
    destruct (Bool.eqb w (is_ws c)) eqn:Hw.
    + apply Bool.eqb_prop in Hw. constructor; [|done]. simpl in *.
      split; [done|]. constructor; done.
    + constructor; [|by constructor]. simpl. split; [done|].
      by constructor.
Qed.

(** The runs are maximal. *)
Lemma runs_maximal s : alternate (runs s).
Proof.
  induction s as [|c s IH]; simpl; [done|].
  destruct (runs s) as [|[w r] rest]; simpl in *; [done|].
  destruct (Bool.eqb w (is_ws c)) eqn:Hw; simpl.
  - destruct rest; [done|]. done.
  - split; [|done]. intros <-. by rewrite Bool.eqb_reflx in Hw.
Qed.

(** The scan of [replace(/\s+/g, ' ')] collapses each maximal run of
    whitespace to one space. *)
Lemma replace_ws_runs_collapse s :
  replace_ws_runs false s = collapse s
  ∧ replace_ws_runs true s =
      match runs s with
      | (true, _) :: rest =>
          flat_map (λ run : bool * jsstring, if run.1 then [space] else run.2) rest
      | _ => collapse s
      end.
Proof.
  unfold collapse. induction s as [|c s [IHf IHt]]; simpl; [done|].
  destruct (is_ws c) eqn:Hc.
  - rewrite IHt. destruct (runs s) as [|[[] r] rest]; simpl; done.
  - rewrite IHf. destruct (runs s) as [|[[] r] rest]; simpl; done.
Qed.

Lemma substring0_length n s : length (substring0 n s) ≤ n.
Proof. unfold substring0. rewrite length_take. lia. Qed.

End JSFacts.

(** ** The snapshot tool *)

Module DomParserFacts.

Import Dom DomParser DomSpec JSFacts.

(** Induction on an element with the hypothesis for all its children. *)
Lemma element_induction (P : element → Prop) :
  (∀ t a cs x, Forall P cs → P (Element t a cs x)) → ∀ e, P e.
Proof.
  intros step. fix IH 1. intros [t a cs x]. apply step.
  induction cs as [|c cs IHcs]; constructor; [apply IH|apply IHcs].
Qed.

Lemma tree_induction (P : tree → Prop) :
  (∀ t a cs x n, Forall P cs → P (ElementInfo t a cs x n)) →
  (∀ t, P (DepthLimit t)) →
  (∀ m, P (ErrorObject m)) →
  ∀ node, P node.
Proof.
  intros step Hd He. fix IH 1. intros [t a cs x n| |]; [|done..]. apply step.
  induction cs as [|c cs IHcs]; constructor; [apply IH|apply IHcs].
Qed.

Lemma list_sum_cons x l : list_sum (x :: l) = x + list_sum l.
Proof. reflexivity. Qed.

(** The loop over the children builds the list of the child trees and the
    sum of [1 + (childTree.elementCount || 0)]. *)
Lemma children_loop (f : element → tree) cs acc n :
  fold_left
    (λ (info : list tree * nat) child,
       (info.1 ++ [f child], info.2 + (1 + default 0 (elementCount (f child)))))
    cs (acc, n)
  = (acc ++ map f cs,
     n + list_sum (map (λ c, 1 + default 0 (elementCount (f c))) cs)).
Proof.
  revert acc n. induction cs as [|c cs IH]; intros acc n;
    cbn [fold_left map fst snd]; rewrite ?list_sum_cons.
  - by rewrite app_nil_r, Nat.add_0_r.
  - rewrite IH. f_equal; [by rewrite <- app_assoc|lia].
Qed.

Lemma elementToTree_eq e depth :
  elementToTree e depth =
    if decide (10 < depth) then DepthLimit (lowerTag e (lit "..."))
    else ElementInfo (lowerTag e []) (attributeMap e)
           (map (λ c, elementToTree c (depth + 1)) (Dom.children e))
           (nodeText (Dom.textContent e))
           (list_sum (map (λ c, 1 + default 0 (elementCount (elementToTree c (depth + 1))))
                        (Dom.children e))).
Proof.
  destruct e as [t a cs x]. unfold lowerTag, attributeMap. simpl.
  destruct (decide (10 < depth)); [done|].
  by rewrite (children_loop (λ c, elementToTree c (depth + 1))).
Qed.

Lemma lowerTag_nil e : lowerTag e [] = toLowerCase (Dom.tagName e).
Proof. unfold lowerTag. destruct (decide _) as [->|]; done. Qed.

Lemma descendants_eq e :
  descendants e = flat_map (λ c, c :: descendants c) (Dom.children e).
Proof. by destruct e. Qed.

Lemma descendants_upto_S e k :
  descendants_upto e (S k) = flat_map (λ c, c :: descendants_upto c k) (Dom.children e).
Proof. by destruct e. Qed.

Lemma descendants_upto_0 e : descendants_upto e 0 = [].
Proof. by destruct e. Qed.

Lemma height_eq e : height e = foldr Nat.max 0 (map (λ c, S (height c)) (Dom.children e)).
Proof. by destruct e. Qed.

Lemma foldr_max_elem {A} (f : A → nat) l x :
  x ∈ l → f x ≤ foldr Nat.max 0 (map f l).
Proof.
  induction l as [|y l IH]; cbn [foldr map].
  - by intros ?%elem_of_nil.
  - intros [->|Hx]%elem_of_cons; [lia|]. specialize (IH Hx). lia.
Qed.

Lemma foldr_max_witness {A} (f : A → nat) l :
  0 < foldr Nat.max 0 (map f l) → ∃ x, x ∈ l ∧ foldr Nat.max 0 (map f l) = f x.
Proof.
  induction l as [|y l IH]; cbn [foldr map]; [lia|]. intros _.
  destruct (decide (foldr Nat.max 0 (map f l) ≤ f y)).
  - exists y. split; [left|lia].
  - destruct IH as (x & Hx & Hm); [lia|]. exists x. split; [by right|lia].
Qed.

Lemma height_child e c : c ∈ Dom.children e → S (height c) ≤ height e.
Proof.
  intros Hc. rewrite (height_eq e).
  apply (foldr_max_elem (λ c, S (height c))), Hc.
Qed.

(** An element with a level below it has a child that carries the rest of
    the height. *)
Lemma height_witness e :
  0 < height e → ∃ c, c ∈ Dom.children e ∧ height e = S (height c).
Proof. rewrite (height_eq e). apply (foldr_max_witness (λ c, S (height c))). Qed.

Lemma length_flat_map {A B} (f : A → list B) l :
  length (flat_map f l) = list_sum (map (λ x, length (f x)) l).
Proof.
  induction l as [|x l IH]; cbn [flat_map map]; rewrite ?list_sum_cons; [done|].
  by rewrite length_app, IH.
Qed.

Lemma list_sum_ext {A} (f g : A → nat) l :
  Forall (λ x, f x = g x) l → list_sum (map f l) = list_sum (map g l).
Proof.
  induction 1 as [|x l Hx _ IH]; cbn [map]; rewrite ?list_sum_cons; [done|]. by rewrite Hx, IH.
Qed.

(** The count of a node is the number of elements that its subtree
    reaches: the descendants down to depth 11 of the document. *)
Lemma elementCount_upto e : ∀ depth,
  depth ≤ 10 →
  elementCount (elementToTree e depth) = Some (length (descendants_upto e (11 - depth))).
Proof.
  induction e as [t a cs x IH] using element_induction. intros depth Hd.
  rewrite elementToTree_eq. destruct (decide (10 < depth)); [lia|].
  cbn [elementCount Dom.children].
  replace (11 - depth) with (S (10 - depth)) by lia.
  rewrite descendants_upto_S, length_flat_map. cbn [Dom.children]. f_equal.
  apply list_sum_ext. eapply Forall_impl; [exact IH|]. intros c Hc. cbn beta.
  destruct (decide (depth + 1 ≤ 10)).
  - rewrite Hc by done. replace (11 - (depth + 1)) with (10 - depth) by lia. done.
  - rewrite elementToTree_eq. destruct (decide (10 < depth + 1)); [|lia].
    replace (10 - depth) with 0 by lia. by rewrite descendants_upto_0.
Qed.

Lemma descendants_upto_all e : ∀ k, height e ≤ k → descendants_upto e k = descendants e.
Proof.
  induction e as [t a cs x IH] using element_induction. intros k Hk.
  destruct k as [|k].
  - rewrite descendants_upto_0, descendants_eq. simpl.
    destruct cs as [|c cs]; [done|]. rewrite height_eq in Hk. simpl in Hk. lia.
  - rewrite descendants_upto_S, descendants_eq. simpl.
    assert (Forall (λ c, descendants_upto c k = descendants c) cs) as Hall.
    { apply Forall_forall. intros c Hc.
      apply (proj1 (Forall_forall _ _) IH c Hc).
      pose proof (height_child (Element t a cs x) c Hc). lia. }
    clear IH Hk. induction Hall as [|c cs Hc _ IHcs]; simpl; [done|].
    by rewrite Hc, IHcs.
Qed.

Lemma list_sum_le {A} (f g : A → nat) l :
  Forall (λ x, f x ≤ g x) l → list_sum (map f l) ≤ list_sum (map g l).
Proof.
  induction 1 as [|y l Hy _ IH]; cbn [map]; rewrite ?list_sum_cons; [done|]. lia.
Qed.

Lemma list_sum_lt {A} (f g : A → nat) l x :
  x ∈ l → Forall (λ y, f y ≤ g y) l → f x < g x →
  list_sum (map f l) < list_sum (map g l).
Proof.
  intros Hx H Hlt. induction H as [|y l Hy H IH]; [by apply elem_of_nil in Hx|].
  cbn [map]; rewrite ?list_sum_cons.
  pose proof (list_sum_le f g l H) as Hle.
  apply elem_of_cons in Hx as [<-|Hx].
  - lia.
  - specialize (IH Hx). lia.
Qed.

Lemma descendants_upto_length e : ∀ k,
  length (descendants_upto e k) ≤ length (descendants e).
Proof.
  induction e as [t a cs x IH] using element_induction. intros [|k].
  - rewrite descendants_upto_0. cbn [length]. lia.
  - rewrite descendants_upto_S, descendants_eq, !length_flat_map.
    cbn [Dom.children]. apply list_sum_le.
    eapply Forall_impl; [exact IH|]. intros c Hc. cbn [length].
    specialize (Hc k). lia.
Qed.

(** Below the reach of [k] levels there are elements that
    [descendants_upto] leaves out. *)
Lemma descendants_upto_short e : ∀ k,
  k < height e → length (descendants_upto e k) < length (descendants e).
Proof.
  induction e as [t a cs x IH] using element_induction. intros k Hk.
  destruct (height_witness (Element t a cs x)) as (c & Hc & Hh); [lia|].
  cbn [Dom.children] in Hc. rewrite descendants_eq, length_flat_map.
  cbn [Dom.children]. destruct k as [|k].
  - rewrite descendants_upto_0. cbn [length].
    apply (Nat.lt_le_trans _ (list_sum (map (λ _, 1) cs))).
    + destruct cs as [|c' cs]; [by apply elem_of_nil in Hc|].
      cbn [map]; rewrite ?list_sum_cons. lia.
    + apply list_sum_le, Forall_forall. intros y _. cbn [length]. lia.
  - rewrite descendants_upto_S, length_flat_map. cbn [Dom.children].
    apply (list_sum_lt _ _ cs c Hc).
    + apply Forall_forall. intros y _. cbn [length].
      pose proof (descendants_upto_length y k). lia.
    + cbn [length]. apply ->Nat.succ_lt_mono.
      apply (proj1 (Forall_forall _ _) IH c Hc). lia.
Qed.

Lemma nodes_eq node :
  nodes node = node :: match node with
                       | ElementInfo _ _ cs _ _ => flat_map nodes cs
                       | _ => []
                       end.
Proof. by destruct node. Qed.

(** Every node of a tree that [elementToTree] returns is what
    [elementToTree] returns for an element of the document. *)
Lemma nodes_elementToTree e : ∀ depth node,
  node ∈ nodes (elementToTree e depth) →
  ∃ e' depth', e' ∈ elements e ∧ depth ≤ depth' ∧ node = elementToTree e' depth'.
Proof.
  induction e as [t a cs x IH] using element_induction. intros depth node.
  rewrite nodes_eq. intros [->|Hn]%elem_of_cons.
  - exists (Element t a cs x), depth. split; [left|done].
  - rewrite elementToTree_eq in Hn. destruct (decide (10 < depth)).
    { by apply elem_of_nil in Hn. }
    cbn [Dom.children] in Hn. apply list_elem_of_In, in_flat_map in Hn.
    destruct Hn as (sub & Hsub & Hn). apply in_map_iff in Hsub.
    destruct Hsub as (c & <- & Hc). apply list_elem_of_In in Hn, Hc.
    destruct (proj1 (Forall_forall _ _) IH c Hc _ _ Hn) as (e' & d' & He' & Hd' & ->).
    exists e', d'. split; [|split; [lia|done]].
    unfold elements. right. rewrite descendants_eq. cbn [Dom.children].
    apply list_elem_of_In, in_flat_map. exists c. split; [by apply list_elem_of_In|].
    by apply list_elem_of_In.
Qed.

(** C1 (amended). The root node's [elementCount] is the number of
    descendant elements of the root down to depth 11, the depth of the
    sentinel nodes, whose own descendants are not counted; it is the number
    of all descendant elements exactly when no element of the document lies
    deeper than that. *)
Theorem elementCount_root root :
  elementCount (elementToTree root 0) = Some (length (descendants_upto root 11))
  ∧ (length (descendants_upto root 11) = length (descendants root)
     ↔ height root ≤ 11).
Proof.
  split.
  - by rewrite (elementCount_upto root 0) by lia.
  - split.
    + intros Heq. destruct (decide (height root ≤ 11)); [done|].
      pose proof (descendants_upto_short root 11). lia.
    + intros Hh. by rewrite descendants_upto_all.
Qed.

(** C1, as stated, fails on a document with an element at depth 12: the
    count is 12, the root has 13 descendants. *)
Lemma elementCount_deep_page :
  elementCount (elementToTree Examples.deep_page 0) = Some 12
  ∧ length (descendants Examples.deep_page) = 13
  ∧ elementCount (elementToTree Examples.deep_page 0)
    ≠ Some (length (descendants Examples.deep_page)).
Proof. vm_compute. repeat split; congruence. Qed.

(** C2. Called at a depth above 10, [elementToTree] returns the object
    with the tag name and [depthLimit: true], which has no [children]. *)
Theorem depth_limit_sentinel e depth :
  10 < depth →
  elementToTree e depth = DepthLimit (lowerTag e (lit "..."))
  ∧ depthLimit (elementToTree e depth) = Some true
  ∧ children (elementToTree e depth) = None.
Proof.
  intros Hd. rewrite elementToTree_eq. by destruct (decide (10 < depth)); [|lia].
Qed.

Lemma depth_limit_sentinel_witness :
  10 < 11
  ∧ elementToTree (Examples.el "BUTTON" [Examples.el "SPAN" []]) 11
    = DepthLimit (lit "button").
Proof.
  split; [lia|].
  rewrite (proj1 (depth_limit_sentinel (Examples.el "BUTTON" [Examples.el "SPAN" []]) 11
                    ltac:(lia))).
  reflexivity.
Defined.

Lemma foldr_max_bound {A} (f : A → nat) l b :
  Forall (λ x, f x ≤ b) l → foldr Nat.max 0 (map f l) ≤ b.
Proof. induction 1 as [|x l Hx _ IH]; cbn [foldr map]; lia. Qed.

(** No node is produced below the cutoff: the tree of a document has at
    most 11 levels below its root. *)
Lemma tree_height_elementToTree e : ∀ depth,
  depth ≤ 11 → tree_height (elementToTree e depth) ≤ 11 - depth.
Proof.
  induction e as [t a cs x IH] using element_induction. intros depth Hd.
  rewrite elementToTree_eq. destruct (decide (10 < depth)); cbn [tree_height]; [lia|].
  cbn [Dom.children]. rewrite map_map. apply foldr_max_bound.
  eapply Forall_impl; [exact IH|]. intros c Hc. cbn beta.
  specialize (Hc (depth + 1)). lia.
Qed.

Example elementToTree_input :
  elementToTree
    (Element (lit "INPUT") [(lit "type", lit "text"); (lit "__proto__", lit "x")] []
       []) 0
  = ElementInfo (lit "input") {[ lit "type" := lit "text" ]} [] [] 0.
Proof. vm_compute. reflexivity. Qed.

Example elementToTree_page :
  elementToTree Examples.page 0
  = ElementInfo (lit "html") ∅
      [ElementInfo (lit "head") ∅ [] [] 0;
       ElementInfo (lit "body") ∅ [ElementInfo (lit "button") ∅ [] (lit "x") 0]
         (lit "x") 1]
      (lit "x") 3.
Proof. vm_compute. reflexivity. Qed.

Lemma textContent_present e depth :
  depth ≤ 10 →
  textContent (elementToTree e depth) = Some (nodeText (Dom.textContent e)).
Proof.
  intros Hd. rewrite elementToTree_eq. by destruct (decide (10 < depth)); [lia|].
Qed.

Lemma nodeText_spec text :
  ∃ t, trimmed text t ∧ nodeText text = take 200 (collapse t)
       ∧ length (nodeText text) ≤ 200.
Proof.
  exists (trim text). split; [apply trim_trimmed|].
  assert (nodeText text = take 200 (collapse (trim text))) as ->.
  { unfold nodeText. destruct (decide (text = [])) as [->|]; [done|].
    by rewrite (proj1 (replace_ws_runs_collapse _)). }
  split; [done|]. rewrite length_take. lia.
Qed.

(** C3. The [textContent] of a node is the text content of its element,
    trimmed, with every maximal run of whitespace collapsed to one space,
    cut to its first 200 code units; so it is at most 200 long. *)
Theorem textContent_normalised e depth text :
  textContent (elementToTree e depth) = Some text →
  ∃ t, trimmed (Dom.textContent e) t
       ∧ text = take 200 (collapse t)
       ∧ length text ≤ 200.
Proof.
  rewrite elementToTree_eq. destruct (decide (10 < depth)); [done|].
  cbn [textContent]. intros [= <-]. apply nodeText_spec.
Qed.

Lemma textContent_normalised_witness :
  textContent (elementToTree
                 (Element (lit "P") [] [] (lit "  Hello,   world " ++ [10; 9]%N)) 0)
    = Some (lit "Hello, world")
  ∧ ∃ t, trimmed (lit "  Hello,   world " ++ [10; 9]%N) t
         ∧ lit "Hello, world" = take 200 (collapse t)
         ∧ length (lit "Hello, world") ≤ 200.
Proof.
  split; [reflexivity|].
  exact (textContent_normalised
           (Element (lit "P") [] [] (lit "  Hello,   world " ++ [10; 9]%N)) 0
           (lit "Hello, world") eq_refl).
Defined.

(** So it is for every node of the tree of a document. *)
Lemma textContent_bounded root node text :
  node ∈ nodes (elementToTree root 0) →
  textContent node = Some text → length text ≤ 200.
Proof.
  intros (e & d & _ & _ & ->)%nodes_elementToTree.
  rewrite elementToTree_eq. destruct (decide (10 < d)); [done|].
  cbn [textContent]. intros [= <-].
  by destruct (nodeText_spec (Dom.textContent e)) as (_ & _ & _ & ?).
Qed.

Lemma countInteractiveElements_eq node :
  countInteractiveElements node =
    let count := if interactive_node node then 1 else 0 in
    match node with
    | ElementInfo _ _ children _ _ =>
        fold_left
          (λ count child,
             bind count (λ c,
             bind (countInteractiveElements child) (λ k, Return (c + k))))
          children (Return count)
    | _ => Throw not_iterable
    end.
Proof. by destruct node. Qed.

Lemma complete_eq node :
  complete node =
    match node with
    | ElementInfo _ _ cs _ _ => forallb complete cs
    | _ => false
    end.
Proof.
  unfold complete. rewrite nodes_eq. destruct node as [t a cs x n| |]; [|done..].
  cbn [forallb children]. rewrite bool_decide_eq_true_2 by eauto. cbn [andb].
  induction cs as [|c cs IH]; cbn [flat_map forallb]; [done|].
  by rewrite forallb_app, IH.
Qed.

Lemma count_nodes_eq node :
  count_nodes node =
    (if interactive_node node then 1 else 0)
    + match node with
      | ElementInfo _ _ cs _ _ => list_sum (map count_nodes cs)
      | _ => 0
      end.
Proof.
  unfold count_nodes. rewrite nodes_eq. cbn [List.filter].
  assert (∀ l, length (if interactive_node node then node :: l else l)
               = (if interactive_node node then 1 else 0) + length l) as ->.
  { intros l. by destruct (interactive_node node). }
  f_equal. destruct node as [t a cs x n| |]; [|done..].
  induction cs as [|c cs IH]; cbn [flat_map map]; rewrite ?list_sum_cons; [done|].
  by rewrite List.filter_app, length_app, IH.
Qed.

(** The loop of [countInteractiveElements] over the children. *)
Lemma count_loop cs :
  Forall (λ child, countInteractiveElements child =
                     if complete child then Return (count_nodes child)
                     else Throw not_iterable) cs →
  ∀ acc,
  fold_left
    (λ count child,
       bind count (λ c,
       bind (countInteractiveElements child) (λ k, Return (c + k))))
    cs acc
  = match acc with
    | Return c =>
        if forallb complete cs then Return (c + list_sum (map count_nodes cs))
        else Throw not_iterable
    | Throw m => Throw m
    end.
Proof.
  induction 1 as [|child cs Hchild _ IH]; intros acc.
  - cbn [fold_left forallb map]. destruct acc; [|done].
    cbn [list_sum fold_right]. by rewrite Nat.add_0_r.
  - cbn [fold_left forallb map]. rewrite list_sum_cons, IH.
    destruct acc as [c|m]; [|done]. cbn [bind]. rewrite Hchild.
    destruct (complete child); cbn [bind andb]; [|done].
    destruct (forallb complete cs); [|done]. f_equal. lia.
Qed.

(** [countInteractiveElements] returns the number of interactive nodes of
    a tree in which every node has [children], and throws on any other
    tree. *)
Lemma countInteractiveElements_spec node :
  countInteractiveElements node =
    if complete node then Return (count_nodes node) else Throw not_iterable.
Proof.
  induction node as [t a cs x n IH| |] using tree_induction; [|done..].
  rewrite countInteractiveElements_eq, complete_eq, count_nodes_eq. cbn zeta.
  by rewrite (count_loop cs IH).
Qed.

Lemma forallb_map' {A B} (f : B → bool) (g : A → B) l :
  forallb f (map g l) = forallb (λ x, f (g x)) l.
Proof. induction l as [|x l IH]; cbn [map forallb]; [done|]. by rewrite IH. Qed.

(** The tree of an element is complete when its subtree ends above the
    depth limit. *)
Lemma complete_elementToTree e : ∀ depth,
  complete (elementToTree e depth) = bool_decide (depth + height e ≤ 10).
Proof.
  induction e as [t a cs x IH] using element_induction. intros depth.
  rewrite elementToTree_eq, complete_eq.
  destruct (decide (10 < depth)).
  { by rewrite bool_decide_eq_false_2 by lia. }
  cbn [Dom.children]. rewrite forallb_map'.
  destruct (decide (depth + height (Element t a cs x) ≤ 10)) as [Hh|Hh].
  - rewrite bool_decide_eq_true_2 by done. apply forallb_forall.
    intros c Hc%list_elem_of_In.
    rewrite (proj1 (Forall_forall _ _) IH c Hc). apply bool_decide_eq_true_2.
    pose proof (height_child (Element t a cs x) c Hc). lia.
  - rewrite bool_decide_eq_false_2 by done. apply not_true_is_false.
    intros Hall. destruct (height_witness (Element t a cs x)) as (c & Hc & Hhc); [lia|].
    cbn [Dom.children] in Hc.
    pose proof (proj1 (forallb_forall _ _) Hall c (proj1 (list_elem_of_In _ _) Hc)) as Hcc.
    cbn beta in Hcc.
    rewrite (proj1 (Forall_forall _ _) IH c Hc) in Hcc.
    apply bool_decide_eq_true_1 in Hcc. lia.
Qed.

Lemma interactive_node_elementToTree e depth :
  interactive_node (elementToTree e depth) = interactive e.
Proof.
  rewrite elementToTree_eq. unfold interactive_node, interactive, lowerTag.
  destruct (decide (10 < depth)); cbn [tagName includes];
    destruct (decide (Dom.tagName e = [])) as [->|]; done.
Qed.

(** In a complete tree the interactive nodes are the interactive elements
    of the document. *)
Lemma count_nodes_elementToTree e : ∀ depth,
  depth + height e ≤ 10 →
  count_nodes (elementToTree e depth) = length (List.filter interactive (elements e)).
Proof.
  induction e as [t a cs x IH] using element_induction. intros depth Hh.
  rewrite count_nodes_eq, interactive_node_elementToTree, elementToTree_eq.
  destruct (decide (10 < depth)); [lia|]. unfold elements. cbn [List.filter].
  assert (∀ l, length (if interactive (Element t a cs x)
                       then Element t a cs x :: l else l)
               = (if interactive (Element t a cs x) then 1 else 0) + length l) as ->.
  { intros l. by destruct (interactive _). }
  f_equal. rewrite descendants_eq. cbn [Dom.children].
  assert (Forall (λ c, count_nodes (elementToTree c (depth + 1))
                       = length (List.filter interactive (elements c))) cs) as Hcs.
  { apply Forall_forall. intros c Hc.
    apply (proj1 (Forall_forall _ _) IH c Hc).
    pose proof (height_child (Element t a cs x) c Hc). lia. }
  clear IH Hh. induction Hcs as [|c cs Hc _ IHcs]; [done|].
  cbn [map flat_map]. rewrite list_sum_cons, List.filter_app, length_app, Hc, IHcs.
  done.
Qed.

Lemma countInteractiveElements_complete e depth :
  depth + height e ≤ 10 →
  countInteractiveElements (elementToTree e depth)
  = Return (length (List.filter interactive (elements e))).
Proof.
  intros Hh. rewrite countInteractiveElements_spec, complete_elementToTree.
  rewrite bool_decide_eq_true_2 by lia.
  by rewrite count_nodes_elementToTree by lia.
Qed.

(** Within the depth cap the count is that of the document: for a
    document with no element deeper than depth 10,
    [countInteractiveElements] returns the number of element nodes of the
    document whose tag name, in lower case, is one of button, a, input,
    select, textarea, form. *)
Theorem countInteractiveElements_shallow root :
  height root ≤ 10 →
  countInteractiveElements (elementToTree root 0)
  = Return (length (List.filter interactive (elements root))).
Proof. intros Hh. by apply countInteractiveElements_complete. Qed.

Lemma countInteractiveElements_shallow_witness :
  height Examples.page ≤ 10
  ∧ countInteractiveElements (elementToTree Examples.page 0) = Return 1.
Proof.
  split; [vm_compute; lia|].
  rewrite (countInteractiveElements_shallow Examples.page); [reflexivity|].
  vm_compute; lia.
Defined.

(** C4. The code on a document with a button at depth 11 (below [html]
    and [body], nine nested [div] elements hold it): the document has one
    interactive element, [countInteractiveElements] throws on the depth-limit
    node that stands for the button, and the file is recorded with the
    error and without a statistic. *)
Lemma countInteractiveElements_capped_page :
  length (List.filter interactive (elements Examples.capped_page)) = 1
  ∧ countInteractiveElements (elementToTree Examples.capped_page 0) = Throw not_iterable
  ∧ countInteractiveElements (elementToTree Examples.capped_page 0)
    ≠ Return (length (List.filter interactive (elements Examples.capped_page)))
  ∧ fileRecord Examples.fs (Examples.path "capped.html")
    = Failure (Examples.path "capped.html") not_iterable.
Proof. vm_compute. repeat split; congruence. Qed.

(** The callback of [forEach] adds the record of its file, whatever the
    files before it did. *)
Lemma analyzeFile_results env st path :
  (analyzeFile env st path).1 = st.1 ++ [fileRecord env path].
Proof.
  destruct st as [rs sm]. unfold analyzeFile, fileRecord. cbn zeta.
  by destruct (countInteractiveElements (parseDOM env path)).
Qed.

Lemma analyze_loop env files : ∀ st,
  (fold_left (analyzeFile env) files st).1 = st.1 ++ map (fileRecord env) files.
Proof.
  induction files as [|path files IH]; intros st; cbn [fold_left map].
  - by rewrite app_nil_r.
  - by rewrite IH, analyzeFile_results, <- app_assoc.
Qed.

Lemma analyzeDOM_array env files :
  ∃ report, analyzeDOM env (VArr files) = Return report
            ∧ results report = map (fileRecord env) files.
Proof.
  unfold analyzeDOM.
  pose proof (analyze_loop env files ([], Summary (length files) 0 ∅ 0)) as Hloop.
  destruct (fold_left _ _ _) as [rs sm]. eexists. split; [done|]. exact Hloop.
Qed.

Lemma parseDOM_document env path :
  parseDOM env path =
    match document env path with
    | Return root => elementToTree root 0
    | Throw m => ErrorObject m
    end.
Proof.
  unfold parseDOM, document.
  destruct (readFileSync env path) as [html|m]; cbn [bind]; [|done].
  by destruct (JSDOM env html).
Qed.

(** A file that cannot be read or parsed gets a [{ file, error }] record;
    the error is the one [countInteractiveElements] throws on the object
    [parseDOM] returned. *)
Lemma fileRecord_unreadable env path m :
  document env path = Throw m → fileRecord env path = Failure path not_iterable.
Proof. intros Hd. unfold fileRecord. by rewrite parseDOM_document, Hd. Qed.

Lemma fileRecord_deep env path root :
  document env path = Return root → 10 < height root →
  fileRecord env path = Failure path not_iterable.
Proof.
  intros Hd Hh. unfold fileRecord.
  rewrite parseDOM_document, Hd, countInteractiveElements_spec, complete_elementToTree.
  by rewrite bool_decide_eq_false_2 by lia.
Qed.

Lemma fileRecord_shallow env path root :
  document env path = Return root → height root ≤ 10 →
  fileRecord env path =
    Analysis path (elementToTree root 0)
      (Stats (length (descendants root))
             (length (List.filter interactive (elements root)))).
Proof.
  intros Hd Hh. unfold fileRecord.
  rewrite parseDOM_document, Hd, countInteractiveElements_complete by done.
  rewrite (elementCount_upto root 0), descendants_upto_all by lia. done.
Qed.

(** C10. The object returned beyond the depth limit and the object of
    [parseDOM]'s catch clause have no [children], and
    [countInteractiveElements] throws on a tree that holds one. So for a
    file whose document has an element deeper than depth 10 the analysis
    throws, and the report holds a [{ file, error }] record for it. *)
Theorem deep_file_recorded_as_failure env files i path root :
  files !! i = Some path →
  document env path = Return root →
  10 < height root →
  (∀ tag m, children (DepthLimit tag) = None ∧ children (ErrorObject m) = None)
  ∧ countInteractiveElements (parseDOM env path) = Throw not_iterable
  ∧ ∃ report, analyzeDOM env (VArr files) = Return report
              ∧ results report !! i = Some (Failure path not_iterable).
Proof.
  intros Hi Hd Hh. split; [done|]. split.
  - rewrite parseDOM_document, Hd, countInteractiveElements_spec, complete_elementToTree.
    by rewrite bool_decide_eq_false_2 by lia.
  - destruct (analyzeDOM_array env files) as (report & Hr & Hres).
    exists report. split; [done|].
    by rewrite Hres, list_lookup_fmap, Hi, <- (fileRecord_deep env path root).
Qed.

Lemma deep_file_recorded_as_failure_witness :
  ∃ report,
    analyzeDOM Examples.fs
      (VArr [Examples.path "a.html"; Examples.path "deep.html"]) = Return report
    ∧ results report !! 1 = Some (Failure (Examples.path "deep.html") not_iterable).
Proof.
  refine (proj2 (proj2 (deep_file_recorded_as_failure Examples.fs
            [Examples.path "a.html"; Examples.path "deep.html"] 1
            (Examples.path "deep.html") Examples.deep_page _ _ _))).
  - reflexivity.
  - reflexivity.
  - vm_compute. lia.
Defined.

Lemma main_fatal env argv2 :
  input_list env argv2 = None → ∃ m, main env argv2 = Exit1 m.
Proof.
  unfold input_list, main.
  destruct (readFileSync env argv2) as [text|m]; cbn [bind]; [|by eexists].
  destruct (JSON_parse env text) as [v|m]; cbn [bind]; [|by eexists].
  destruct v; try done; cbn [analyzeDOM bind]; by eexists.
Qed.

Lemma main_completes env argv2 files :
  input_list env argv2 = Some files →
  match main env argv2 with
  | Completed report line =>
      results report = map (fileRecord env) files
      ∧ line = StatusLine (Some (length files))
  | Exit1 m => ∃ report, writeFileSync env (lit "dom_analysis.json") report = Throw m
  end.
Proof.
  unfold input_list, main.
  destruct (readFileSync env argv2) as [text|m]; cbn [bind]; [|done].
  destruct (JSON_parse env text) as [v|m]; cbn [bind]; [|done].
  destruct v; try done. intros [= ->].
  destruct (analyzeDOM_array env files) as (report & -> & Hres). cbn [bind].
  destruct (writeFileSync env _ report) as [[]|m] eqn:Hw; cbn [bind length_of].
  - done.
  - by exists report.
Qed.

(** C7. With an array of paths, [analyzeDOM] returns a report with one
    record for each path, in their order, and the record of a path does not
    depend on the other files: a file that cannot be read or parsed, and a
    file whose analysis throws, get a [{ file, error }] record, and the files
    after it are analysed as they would be without it. When the file of the
    list cannot be read, or its text is not JSON, or the value is not an
    array, the run ends with the error line and exit code 1. *)
Theorem failures_isolated_startup_fatal env :
  (∀ files,
     ∃ report, analyzeDOM env (VArr files) = Return report
               ∧ results report = map (fileRecord env) files
               ∧ length (results report) = length files)
  ∧ (∀ path,
       (∀ m, document env path = Throw m →
             fileRecord env path = Failure path not_iterable)
       ∧ (∀ m, countInteractiveElements (parseDOM env path) = Throw m →
               fileRecord env path = Failure path m))
  ∧ (∀ argv2,
       input_list env argv2 = None →
       ∃ m, main env argv2 = Exit1 m ∧ exit_code (main env argv2) = 1).
Proof.
  split; [|split].
  - intros files. destruct (analyzeDOM_array env files) as (report & Hr & Hres).
    exists report. by rewrite Hres, length_map.
  - intros path. split.
    + apply fileRecord_unreadable.
    + intros m Hm. unfold fileRecord. by rewrite Hm.
  - intros argv2 Hin. destruct (main_fatal env argv2 Hin) as (m & Hm).
    exists m. by rewrite Hm.
Qed.

(** The report for the list with the one file [a.html]. *)
Example analyzeDOM_page :
  ∃ report,
    analyzeDOM Examples.fs (VArr [Examples.path "a.html"]) = Return report
    ∧ totalPages (r_summary report) = 1
    ∧ totalElements (r_summary report) = 3
    ∧ interactiveElements (r_summary report) = 1.
Proof. eexists. vm_compute. repeat split; reflexivity. Qed.

(** The run on the example file system: the second file is too deep and
    the third is missing; only the first is
    analysed, for the button of the fourth is at depth 11. *)
Example main_list :
  ∃ report line,
    main Examples.fs (Examples.path "list.json") = Completed report line
    ∧ filesAnalyzed line = Some 4
    ∧ results report !! 1 = Some (Failure (Examples.path "deep.html") not_iterable)
    ∧ results report !! 2 = Some (Failure (Examples.path "missing.html") not_iterable)
    ∧ results report !! 3 = Some (Failure (Examples.path "capped.html") not_iterable)
    ∧ totalElements (r_summary report) = 3
    ∧ interactiveElements (r_summary report) = 1.
Proof. eexists _, _. vm_compute. repeat split; reflexivity. Qed.

Example main_no_list :
  main Examples.fs (Examples.path "nothing.json")
  = Exit1 (lit "ENOENT: no such file or directory").
Proof. reflexivity. Qed.

Example main_bad_json :
  main Examples.fs (Examples.path "bad.json") = Exit1 (lit "Unexpected end of JSON input").
Proof. reflexivity. Qed.

Example main_not_an_array :
  main Examples.fs (Examples.path "object.json")
  = Exit1 (lit "htmlFiles.forEach is not a function").
Proof. reflexivity. Qed.

End DomParserFacts.

(** ** The widget *)

Module WidgetFacts.

Import Widget WidgetSpec JSFacts.

Lemma bind_run {A B} (m : M A) (k : A → M B) w :
  (m ≫= k) w = match m w with
               | (Normal a, w') => k a w'
               | (Thrown e, w') => (Thrown e, w')
               end.
Proof. reflexivity. Qed.

Lemma escape_each steps w :
  for_each escapeHtml steps w
  = (if forallb is_string steps then Normal tt else Thrown TypeError, w).
Proof.
  induction steps as [|v steps IH]; [done|].
  cbn [for_each forallb]. rewrite bind_run. unfold escapeHtml.
  destruct (is_string v); [|done]. cbn. exact IH.
Qed.

Lemma substitute_run v w :
  substitute v w = (if stringifies v then Normal tt else Thrown TypeError, w).
Proof. unfold substitute. by destruct (stringifies v). Qed.

Lemma render_message_run msg w :
  render_message msg w = (if renders msg then Normal tt else Thrown TypeError, w).
Proof.
  unfold render_message, renders, steps_render, field.
  destruct (msg_role msg); [by unfold escapeHtml; destruct (is_string _)|].
  destruct (truthy (instructionData msg)) eqn:Ht;
    [|by unfold escapeHtml; destruct (is_string _)].
  rewrite bind_run. unfold escapeHtml at 1.
  destruct (is_string (content msg)); [|done]. cbn [andb].
  change ((mret tt : M unit) w) with (Normal tt, w). cbn iota.
  rewrite bind_run.
  destruct (instructionData msg) as [| | | | |items|fields]; try done.
  cbn [prop]. change ((mret ?v : M jsval) w) with (Normal v, w). cbn iota.
  rewrite bind_run.
  destruct (default VUndefined (fields !! lit "steps")) as [| | | | |steps|];
    try done.
  cbn [array_map]. rewrite escape_each.
  destruct (forallb is_string steps); [|done]. cbn [andb].
  rewrite bind_run. change ((mret ?v : M jsval) w) with (Normal v, w). cbn iota.
  rewrite bind_run, substitute_run.
  destruct (stringifies _) eqn:Hs; [|done].
  rewrite bind_run. change ((mret ?v : M jsval) w) with (Normal v, w). cbn iota.
  rewrite bind_run, substitute_run, Hs.
  rewrite bind_run. change ((mret ?v : M jsval) w) with (Normal v, w). cbn iota.
  by rewrite substitute_run, Hs.
Qed.

Lemma render_each msgs w :
  for_each render_message msgs w
  = (if forallb renders msgs then Normal tt else Thrown TypeError, w).
Proof.
  induction msgs as [|msg msgs IH]; [done|].
  cbn [for_each forallb]. rewrite bind_run, render_message_run.
  destruct (renders msg); [|done]. exact IH.
Qed.

Lemma renderChatMessages_run w :
  renderChatMessages w
  = (if forallb renders (messages w) then Normal tt else Thrown TypeError, w).
Proof. unfold renderChatMessages. rewrite bind_run. apply render_each. Qed.

Lemma messages_added w role c i :
  messages (added w role c i) = messages w ++ [new_message w role c i].
Proof.
  unfold added, messages. destruct w as [[] ? ? ? ?]. cbn.
  by destruct (negb _ && _).
Qed.

(** [addChatMessage] adds the message and then draws the chat, which
    throws when a message of the list cannot be drawn. *)
Lemma addChatMessage_run role c i w :
  addChatMessage role c i w
  = (if forallb renders (messages (added w role c i))
     then Normal tt else Thrown TypeError,
     added w role c i).
Proof.
  unfold addChatMessage, added, messages, new_message, scrollChatToBottom,
    updateNotificationBadge, mbind, M_bind, mret, M_ret.
  destruct w as [[] ? ? ? ?].
  cbn -[renderChatMessages forallb renders].
  destruct (negb _ && _); cbn -[renderChatMessages forallb renders];
    rewrite renderChatMessages_run; unfold messages; cbn [this_state chatMessages];
    by destruct (forallb _ _).
Qed.

#[global] Instance extends_preorder : PreOrder extends.
Proof.
  split.
  - intros w. unfold extends. done.
  - intros w1 w2 w3. unfold extends. by etrans.
Qed.

#[global] Instance same_chat_preorder : PreOrder same_chat.
Proof.
  split.
  - by intros w.
  - intros w1 w2 w3 [H1 H2] [H3 H4]. split; congruence.
Qed.

(** *** Code that keeps a relation between the worlds *)

Section preservation.

Context (R : relation world) `{!PreOrder R}.

Lemma preserves_reads {A} (m : M A) : reads m → preserves R m.
Proof. intros Hm w. by rewrite Hm. Qed.

Lemma preserves_bind {A B} (m : M A) (k : A → M B) :
  preserves R m → (∀ a, preserves R (k a)) → preserves R (m ≫= k).
Proof.
  intros Hm Hk w. rewrite bind_run. specialize (Hm w).
  destruct (m w) as [[a|e] w']; [|done]. cbn [snd] in Hm.
  etrans; [exact Hm|apply Hk].
Qed.

Lemma preserves_try_catch {A} (m : M A) (handler : error → M A) :
  preserves R m → (∀ e, preserves R (handler e)) → preserves R (try_catch m handler).
Proof.
  intros Hm Hh w. unfold try_catch. specialize (Hm w).
  destruct (m w) as [[a|e] w']; [done|]. cbn [snd] in Hm.
  etrans; [exact Hm|apply Hh].
Qed.

Lemma preserves_try_finally {A} (m : M A) (f : M unit) :
  preserves R m → preserves R f → preserves R (try_finally m f).
Proof.
  intros Hm Hf w. unfold try_finally. specialize (Hm w).
  destruct (m w) as [r w']. specialize (Hf w'). cbn [snd] in Hm.
  destruct (f w') as [[[]|e] w'']; cbn [snd] in *; by etrans.
Qed.

Lemma preserves_detached (m : M unit) : preserves R m → preserves R (detached m).
Proof. intros Hm w. apply Hm. Qed.

End preservation.

Lemma reads_ret {A} (a : A) : reads (mret a : M A).
Proof. done. Qed.

Lemma reads_throw {A} e : reads (throw e : M A).
Proof. done. Qed.

Lemma reads_gets {A} (f : state → A) : reads (gets f).
Proof. done. Qed.

Lemma reads_json o : reads (json o).
Proof. by destruct o as [? []|]. Qed.

Lemma reads_prop v name : reads (prop v name).
Proof. by destruct v. Qed.

Lemma reads_renderChatMessages : reads renderChatMessages.
Proof. intros w. by rewrite renderChatMessages_run. Qed.

Lemma reads_bind {A B} (m : M A) (k : A → M B) :
  reads m → (∀ a, reads (k a)) → reads (m ≫= k).
Proof.
  intros Hm Hk w. rewrite bind_run. specialize (Hm w).
  destruct (m w) as [[a|e] w']; cbn [snd] in Hm; subst w'; [apply Hk|done].
Qed.

Lemma reads_substitute v : reads (substitute v).
Proof. intros w. by rewrite substitute_run. Qed.

Lemma reads_for_each {A} (f : A → M unit) l :
  (∀ x, reads (f x)) → reads (for_each f l).
Proof.
  intros Hf. induction l as [|x l IH]; [done|].
  cbn [for_each]. apply reads_bind; [apply Hf|by intros _].
Qed.

Ltac reads_card :=
  repeat first [ apply reads_bind; [|intros ?]
               | apply reads_prop
               | apply reads_substitute ].

Lemma reads_task_card task : reads (task_card task).
Proof. unfold task_card. reads_card. Qed.

Lemma reads_instruction_card instruction : reads (instruction_card instruction).
Proof. unfold instruction_card. reads_card. Qed.

Lemma reads_result_card result : reads (result_card result).
Proof. unfold result_card. reads_card. Qed.

Lemma reads_render_cards limit card list :
  (∀ item, reads (card item)) → reads (render_cards limit card list).
Proof.
  intros Hcard. unfold render_cards.
  destruct list as [| | | |s|items|fields]; try done.
  - by destruct (decide _).
  - by apply reads_for_each.
  - by repeat case_match.
Qed.

Lemma reads_renderAvailableTasks : reads renderAvailableTasks.
Proof.
  apply reads_bind; [done|]. intros tasks.
  apply reads_render_cards, reads_task_card.
Qed.

Lemma reads_renderPopularInstructions : reads renderPopularInstructions.
Proof.
  apply reads_bind; [done|]. intros instructions.
  apply reads_render_cards, reads_instruction_card.
Qed.

Lemma reads_renderSearchResults results : reads (renderSearchResults results).
Proof. apply reads_render_cards, reads_result_card. Qed.

Create HintDb widget discriminated.

#[global] Hint Resolve reads_ret reads_throw reads_gets reads_json reads_prop
  reads_substitute reads_task_card reads_instruction_card reads_result_card
  reads_render_cards reads_renderAvailableTasks reads_renderPopularInstructions
  reads_renderSearchResults reads_renderChatMessages : widget.

(** The steps of a proof that a method keeps a relation: through the
    sequencing, the handlers and the branches, down to the primitive
    actions, which the hints settle. *)
Ltac keep :=
  repeat first
    [ solve [eauto with widget]
    | match goal with
      | |- preserves ?R (_ ≫= _) => apply (preserves_bind R); [|intros ?]
      | |- preserves ?R (try_catch _ _) => apply (preserves_try_catch R); [|intros ?]
      | |- preserves ?R (try_finally _ _) => apply (preserves_try_finally R)
      | |- preserves ?R (detached _) => apply (preserves_detached R)
      | |- preserves ?R (if ?b then _ else _) => destruct b
      | |- preserves ?R (match ?x with _ => _ end) => destruct x
      | |- preserves ?R _ => solve [apply (preserves_reads R); eauto with widget]
      end ].

(** *** The chat message list only grows *)

Lemma extends_modify f :
  (∀ s, chatMessages s `prefix_of` chatMessages (f s)) → preserves extends (modify f).
Proof. intros Hf w. apply Hf. Qed.

Lemma extends_fetch r : preserves extends (fetch r).
Proof. intros w. unfold extends, messages. cbn. reflexivity. Qed.

Lemma extends_console_error label e : preserves extends (console_error label e).
Proof. intros w. unfold extends, messages. cbn. reflexivity. Qed.

Lemma extends_set_sendBtn_disabled b : preserves extends (set_sendBtn_disabled b).
Proof. intros w. unfold extends, messages. cbn. reflexivity. Qed.

Lemma extends_addChatMessage role c i : preserves extends (addChatMessage role c i).
Proof.
  intros w. rewrite addChatMessage_run. unfold extends. cbn [snd].
  rewrite messages_added. by apply prefix_app_r.
Qed.

#[global] Hint Resolve extends_fetch extends_console_error
  extends_set_sendBtn_disabled extends_addChatMessage : widget.

#[global] Hint Extern 2 (preserves extends (modify _)) =>
  apply extends_modify; intros []; cbn; reflexivity : widget.

Lemma extends_resume r o random : preserves extends (resume r o random).
Proof.
  destruct r; cbn [resume];
    unfold init_after_help, init_after_popular, initializeWidget_resume,
      initializeWidget_try, initializeWidget_catch, loadPopularInstructions_resume,
      loadPopularInstructions_try, loadPopularInstructions_catch,
      loadPopularInstructions, searchInstructions_resume, searchInstructions_try,
      searchInstructions_catch, sendChatMessage_resume, sendChatMessage_try,
      sendChatMessage_catch, sendChatMessage_finally, showInstruction_resume,
      showInstruction_try, showInstruction_catch, processVoiceQuery_resume,
      processVoiceQuery_try, processVoiceQuery_catch, exportInstruction_resume,
      exportInstruction_try, exportInstruction_catch, renderAvailableTasks,
      renderPopularInstructions, renderSearchResults, switchTab, addWelcomeMessage,
      attachEventListeners, hideTypingIndicator, scrollChatToBottom; keep.
Qed.

Lemma extends_settle i o random : preserves extends (settle i o random).
Proof.
  intros w. unfold settle. destruct (pending w !! i) as [r|]; [|reflexivity].
  apply (extends_resume r o random (World _ _ _ _ _)).
Qed.

#[global] Hint Resolve extends_settle : widget.

Lemma extends_handle e : preserves extends (handle e).
Proof.
  destruct e; cbn [handle];
    unfold togglePanel, showPanel, hidePanel, toggleMinimize,
      searchInstructions, sendMessage, sendChatMessage, showInstruction,
      loadInstruction, startVoiceInput, processVoiceQuery, exportInstruction,
      renderAvailableTasks, renderPopularInstructions, updateNotificationBadge,
      showTypingIndicator, switchTab, scrollChatToBottom; keep.
Qed.

(** C9. The chat message list is append-only: whatever happens to the
    widget, the list before is a prefix of the list after, so a message
    once in the list stays at its place as it was created. The list changes
    in [addChatMessage] only, which adds one message at the end. *)
Theorem chat_append_only w e :
  (∃ new, messages (step w e) = messages w ++ new)
  ∧ (∀ i msg, messages w !! i = Some msg → messages (step w e) !! i = Some msg)
  ∧ (∀ role c d, ∃ msg, messages (addChatMessage role c d w).2 = messages w ++ [msg]).
Proof.
  pose proof (extends_handle e w) as [new Hnew]. fold (step w e) in Hnew.
  split; [by exists new|]. split.
  - intros i msg Hi. rewrite Hnew. by apply lookup_app_l_Some.
  - intros role c d. rewrite addChatMessage_run. cbn [snd].
    rewrite messages_added. by eexists.
Qed.

(** *** Sending a message *)

Lemma sendChatMessage_guard w :
  trim (currentChatMessage (this_state w)) = [] ∨ waiting w = true →
  sendChatMessage w = (Normal tt, w).
Proof.
  intros Hg. unfold sendChatMessage.
  rewrite bind_run. cbn [gets]. rewrite bind_run. cbn [gets].
  enough (bool_decide (trim (currentChatMessage (this_state w)) = [])
          || isWaitingForResponse (this_state w) = true) as -> by done.
  destruct Hg as [Ht|Hw].
  - by rewrite bool_decide_eq_true_2.
  - unfold waiting in Hw. rewrite Hw. apply orb_true_r.
Qed.

(** C5. With a chat input that is empty or all whitespace,
    [sendChatMessage] returns at once: the world is as before, so no
    message is added and no request is issued. *)
Theorem send_blank_noop w :
  forallb is_ws (currentChatMessage (this_state w)) = true →
  handle SendChatMessage w = (Normal tt, w)
  ∧ messages (step w SendChatMessage) = messages w
  ∧ pending (step w SendChatMessage) = pending w.
Proof.
  intros Hws. apply trim_nil_iff in Hws. unfold step. cbn [handle].
  by rewrite sendChatMessage_guard by by left.
Qed.

Lemma send_blank_noop_witness :
  handle SendChatMessage (step ready (ChatInput (lit "  " ++ [9; 10]%N)))
  = (Normal tt, step ready (ChatInput (lit "  " ++ [9; 10]%N))).
Proof.
  refine (proj1 (send_blank_noop (step ready (ChatInput (lit "  " ++ [9; 10]%N))) _)).
  vm_compute. reflexivity.
Defined.

(** *** One chat request at a time *)

Lemma same_chat_modify f :
  (∀ s, isWaitingForResponse (f s) = isWaitingForResponse s) →
  preserves same_chat (modify f).
Proof. intros Hf w. split; [apply Hf|done]. Qed.

Lemma same_chat_fetch r : is_chat r = false → preserves same_chat (fetch r).
Proof.
  intros Hr w. split; [done|]. unfold chat_requests. cbn.
  rewrite List.filter_app. cbn. rewrite Hr. apply app_nil_r.
Qed.

Lemma same_chat_console_error label e : preserves same_chat (console_error label e).
Proof. by intros w. Qed.

Lemma same_chat_set_sendBtn_disabled b : preserves same_chat (set_sendBtn_disabled b).
Proof. by intros w. Qed.

Lemma same_chat_added w role c i : same_chat w (added w role c i).
Proof.
  unfold same_chat, waiting, chat_requests, added, messages.
  destruct w as [[] ? ? ? ?]. cbn. by destruct (negb _ && _).
Qed.

Lemma same_chat_addChatMessage role c i : preserves same_chat (addChatMessage role c i).
Proof. intros w. rewrite addChatMessage_run. apply same_chat_added. Qed.

#[global] Hint Resolve same_chat_console_error same_chat_set_sendBtn_disabled
  same_chat_addChatMessage : widget.

#[global] Hint Extern 2 (preserves same_chat (modify _)) =>
  apply same_chat_modify; intros []; reflexivity : widget.

#[global] Hint Extern 2 (preserves same_chat (fetch _)) =>
  apply same_chat_fetch; reflexivity : widget.

(** The continuations of all requests but the chat request leave the flag
    and the chat requests alone. *)
Lemma same_chat_resume r o random :
  is_chat r = false → preserves same_chat (resume r o random).
Proof.
  destruct r; [| | |done| | |]; intros _; cbn [resume];
    unfold init_after_help, init_after_popular, initializeWidget_resume,
      initializeWidget_try, initializeWidget_catch, loadPopularInstructions_resume,
      loadPopularInstructions_try, loadPopularInstructions_catch,
      loadPopularInstructions, searchInstructions_resume, searchInstructions_try,
      searchInstructions_catch, showInstruction_resume, showInstruction_try,
      showInstruction_catch, processVoiceQuery_resume, processVoiceQuery_try,
      processVoiceQuery_catch, exportInstruction_resume, exportInstruction_try,
      exportInstruction_catch, renderAvailableTasks, renderPopularInstructions,
      renderSearchResults, switchTab, addWelcomeMessage, attachEventListeners,
      hideTypingIndicator, scrollChatToBottom; keep.
Qed.

(** The continuation of the chat request: whatever the reply, and even
    when the catch clause throws, the [finally] clause clears the flag and
    enables the button. *)
Lemma sendChatMessage_resume_post o w :
  waiting (sendChatMessage_resume o w).2 = false
  ∧ sendBtn_disabled (sendChatMessage_resume o w).2 = false
  ∧ chat_requests (sendChatMessage_resume o w).2 = chat_requests w.
Proof.
  unfold sendChatMessage_resume, sendChatMessage_try, sendChatMessage_catch,
    sendChatMessage_finally.
  match goal with
  | |- context [try_finally ?m ?f] =>
      assert (preserves same_chat m) as Hm by (unfold hideTypingIndicator; keep);
      specialize (Hm w); unfold try_finally; destruct (m w) as [r w1]
  end.
  destruct Hm as [_ Hreq]. cbn [snd] in Hreq. rewrite <- Hreq.
  destruct w1 as [[] ? ? ? ?]. by destruct r.
Qed.

Lemma filter_delete {A} (f : A → bool) l i x :
  l !! i = Some x →
  length (List.filter f l) = (if f x then 1 else 0) + length (List.filter f (delete i l))
  ∧ (f x = false → List.filter f (delete i l) = List.filter f l).
Proof.
  revert i. induction l as [|y l IH]; intros [|i] Hi; try done.
  - injection Hi as ->. cbn. destruct (f x); cbn; split; done.
  - destruct (IH i Hi) as [Hlen Hsame].
    change (delete (S i) (y :: l)) with (y :: delete i l).
    cbn [List.filter]. destruct (f y); cbn [length]; split.
    + rewrite Hlen. lia.
    + intros Hx. by rewrite Hsame.
    + done.
    + done.
Qed.

Lemma sendChatMessage_guarded w : guarded w → guarded (sendChatMessage w).2.
Proof.
  intros Hg.
  destruct (decide (trim (currentChatMessage (this_state w)) = [] ∨ waiting w = true))
    as [Hguard|Hguard].
  { by rewrite sendChatMessage_guard. }
  assert (waiting w = false) as Hw by (destruct (waiting w); tauto).
  assert (trim (currentChatMessage (this_state w)) ≠ []) as Ht by tauto.
  unfold guarded in Hg. rewrite Hw in Hg.
  unfold sendChatMessage.
  rewrite bind_run. cbn [gets]. rewrite bind_run. cbn [gets].
  rewrite bool_decide_eq_false_2 by done. fold (waiting w). rewrite Hw. cbn [orb].
  rewrite bind_run, addChatMessage_run.
  pose proof (same_chat_added w user
                (VStr (trim (currentChatMessage (this_state w)))) VUndefined)
    as [Hw1 Hr1].
  destruct (forallb renders _).
  - unfold guarded, waiting, chat_requests, showTypingIndicator,
      mbind, M_bind, mret, M_ret in *.
    destruct (added w user _ VUndefined) as [[] ? ? ? ?]. cbn in *.
    rewrite List.filter_app, length_app, Hr1, Hg. done.
  - unfold guarded. cbn [snd]. by rewrite Hw1, Hr1, Hw.
Qed.

(** In every world that the widget reaches, the flag tells whether a chat
    request is in flight, and there is at most one. *)
Lemma same_chat_handle e : chat_event e = false → preserves same_chat (handle e).
Proof.
  destruct e; try done; intros _; cbn [handle];
    unfold togglePanel, showPanel, hidePanel, toggleMinimize,
      searchInstructions, showInstruction,
      loadInstruction, startVoiceInput, processVoiceQuery, exportInstruction,
      renderAvailableTasks, renderPopularInstructions, updateNotificationBadge,
      showTypingIndicator, switchTab, scrollChatToBottom; keep.
Qed.

(** The end of a request that is not a chat request. *)
Lemma same_chat_settle w i o random r :
  pending w !! i = Some r → is_chat r = false →
  same_chat w (step w (Settle i o random)).
Proof.
  intros Hi Hr. unfold step. cbn [handle]. unfold settle. rewrite Hi.
  destruct (filter_delete is_chat _ _ _ Hi) as [_ Hsame].
  destruct (same_chat_resume r o random Hr
              (World (this_state w) (sendBtn_disabled w) (delete i (pending w))
                 (console w) (clock w))) as [Hw Hreq].
  split; [exact Hw|]. rewrite Hreq. unfold chat_requests. cbn [pending].
  by apply Hsame.
Qed.

(** The end of a chat request. *)
Lemma chat_settle w i o random message :
  pending w !! i = Some (Chat message) →
  waiting (step w (Settle i o random)) = false
  ∧ sendBtn_disabled (step w (Settle i o random)) = false
  ∧ S (length (chat_requests (step w (Settle i o random)))) = length (chat_requests w).
Proof.
  intros Hi. unfold step. cbn [handle]. unfold settle. rewrite Hi. cbn [resume].
  destruct (filter_delete is_chat _ _ _ Hi) as [Hlen _].
  destruct (sendChatMessage_resume_post o
              (World (this_state w) (sendBtn_disabled w) (delete i (pending w))
                 (console w) (clock w))) as (Hw & Hb & Hreq).
  split; [exact Hw|]. split; [exact Hb|]. rewrite Hreq.
  unfold chat_requests in *. cbn [pending is_chat] in *. lia.
Qed.

(** In every world that the widget reaches, the flag tells whether a chat
    request is in flight, and there is at most one. *)
Lemma step_guarded w e : guarded w → guarded (step w e).
Proof.
  intros Hg. destruct (chat_event e) eqn:He.
  - destruct e; try done.
    + by apply sendChatMessage_guarded.
    + unfold step. cbn [handle]. unfold sendMessage. rewrite bind_run.
      cbn [modify detached snd].
      apply sendChatMessage_guarded. unfold guarded, waiting, chat_requests in *.
      by destruct w as [[] ? ? ? ?].
    + destruct (pending w !! i) as [r|] eqn:Hi;
        [|by unfold step; cbn [handle]; unfold settle; rewrite Hi].
      destruct (is_chat r) eqn:Hr.
      * destruct r; try done.
        destruct (chat_settle w i o random _ Hi) as (Hw & _ & Hlen).
        unfold guarded in *. rewrite Hw. destruct (waiting w); lia.
      * destruct (same_chat_settle w i o random r Hi Hr) as [Hw Hreq].
        unfold guarded in *. by rewrite Hw, Hreq.
  - destruct (same_chat_handle e He w) as [Hw Hr]. unfold guarded, step.
    by rewrite Hw, Hr.
Qed.

Lemma reachable_guarded w : reachable w → guarded w.
Proof. induction 1 as [|w e _ IH]; [done|by apply step_guarded]. Qed.

Lemma filter_lookup {A} (f : A → bool) l :
  0 < length (List.filter f l) → ∃ i x, l !! i = Some x ∧ f x = true.
Proof.
  induction l as [|y l IH]; cbn [List.filter]; [cbn; lia|].
  destruct (f y) eqn:Hy.
  - intros _. by exists 0, y.
  - intros (i & x & Hi & Hx)%IH. by exists (S i), x.
Qed.

Lemma lookup_filter {A} (f : A → bool) l i x :
  l !! i = Some x → f x = true → 0 < length (List.filter f l).
Proof.
  intros Hi Hx. destruct (filter_delete f l i x Hi) as [Hlen _].
  rewrite Hx in Hlen. lia.
Qed.

(** In a world that the widget reaches, a chat request is outstanding
    exactly when the flag is set. *)
Lemma outstanding_iff_waiting w :
  reachable w → (chat_outstanding w ↔ waiting w = true).
Proof.
  intros Hg%reachable_guarded. unfold guarded in Hg. split.
  - intros (i & message & Hi).
    pose proof (lookup_filter is_chat _ _ _ Hi eq_refl) as Hpos.
    fold (chat_requests w) in Hpos. destruct (waiting w); [done|lia].
  - intros Hw. rewrite Hw in Hg.
    destruct (filter_lookup is_chat (pending w)) as (i & r & Hi & Hr).
    { fold (chat_requests w). lia. }
    destruct r; try done. by eexists _, _.
Qed.

(** C6. In a world that the widget reaches with the flag set, a chat
    request is outstanding; [sendChatMessage] returns at once and leaves
    the world as it is, so it adds no message and issues no request; the
    flag stays set, and the chat requests in flight stay the same, under
    every event but the end of the chat request; and when that request ends,
    however it ends, the flag is cleared and no chat request is left. *)
Theorem second_send_rejected w :
  reachable w → waiting w = true →
  chat_outstanding w
  ∧ handle SendChatMessage w = (Normal tt, w)
  ∧ (∀ e, ¬ ends_chat w e →
          waiting (step w e) = true
          ∧ chat_requests (step w e) = chat_requests w
          ∧ ∀ i msg, messages w !! i = Some msg → messages (step w e) !! i = Some msg)
  ∧ (∀ i message o random,
       pending w !! i = Some (Chat message) →
       waiting (step w (Settle i o random)) = false
       ∧ chat_requests (step w (Settle i o random)) = []).
Proof.
  intros Hreach Hw. pose proof (reachable_guarded w Hreach) as Hg.
  split; [by apply outstanding_iff_waiting|].
  split; [by apply sendChatMessage_guard; right|].
  split.
  - intros e He.
    assert (waiting (step w e) = true ∧ chat_requests (step w e) = chat_requests w)
      as [Hw' Hr'].
    { destruct (chat_event e) eqn:Hce.
      - destruct e; try done.
        + unfold step. cbn [handle]. by rewrite sendChatMessage_guard by by right.
        + unfold step. cbn [handle]. unfold sendMessage. rewrite bind_run.
          cbn [modify detached snd]. rewrite sendChatMessage_guard.
          * unfold waiting, chat_requests in *. by destruct w as [[] ? ? ? ?].
          * right. unfold waiting in *. by destruct w as [[] ? ? ? ?].
        + destruct (pending w !! i) as [r|] eqn:Hi;
            [|by unfold step; cbn [handle]; unfold settle; rewrite Hi].
          destruct (is_chat r) eqn:Hr.
          * destruct r; try done. exfalso. apply He. cbn. by eexists.
          * destruct (same_chat_settle w i o random r Hi Hr) as [Hw' Hr'].
            by rewrite Hw', Hr'.
      - destruct (same_chat_handle e Hce w) as [Hw' Hr']. unfold step.
        by rewrite Hw', Hr'. }
    split; [done|]. split; [done|].
    intros i msg Hi. destruct (extends_handle e w) as [new Hnew].
    fold (step w e) in Hnew. rewrite Hnew. by apply lookup_app_l_Some.
  - intros i message o random Hi.
    destruct (chat_settle w i o random message Hi) as (Hw' & _ & Hlen).
    split; [done|]. unfold guarded in Hg. rewrite Hw in Hg.
    destruct (chat_requests (step w (Settle i o random))); [done|cbn in Hlen; lia].
Qed.

Lemma reachable_ready : reachable ready.
Proof. apply reachable_step, reachable_step, reachable_initial. Qed.

Example sent_world :
  pending sent = [Chat (lit "hello")]
  ∧ waiting sent = true
  ∧ sendBtn_disabled sent = true
  ∧ map content (messages sent) = [VStr (lit "Привет! Я ваш AI-ассистент. Чем могу помочь?");
                                   VStr (lit "hello")].
Proof. vm_compute. repeat split; reflexivity. Qed.

Lemma second_send_rejected_witness :
  waiting sent = true
  ∧ handle SendChatMessage sent = (Normal tt, sent)
  ∧ waiting (step sent (Settle 0 Rejected 0)) = false.
Proof.
  assert (waiting sent = true) as Hw by (vm_compute; reflexivity).
  assert (pending sent !! 0 = Some (Chat (lit "hello"))) as Hp
    by (vm_compute; reflexivity).
  pose proof (second_send_rejected sent
                (reachable_step _ _ (reachable_step _ _ reachable_ready)) Hw)
    as (_ & Hsend & _ & Hend).
  split; [exact Hw|]. split; [exact Hsend|].
  exact (proj1 (Hend 0 (lit "hello") Rejected 0 Hp)).
Defined.

(** *** Failures of the network calls *)

(** The catch clause that logs and apologises. *)
Lemma apologise_run label text e w :
  (console_error label e;; hideTypingIndicator;;
   addChatMessage assistant (VStr text) VUndefined) w
  = (if forallb renders (messages w) then Normal tt else Thrown TypeError,
     added (logged w label e) assistant (VStr text) VUndefined).
Proof.
  rewrite bind_run. cbn [console_error]. rewrite bind_run.
  unfold hideTypingIndicator. change ((mret tt : M unit) ?w) with (Normal tt, w).
  cbn iota. rewrite addChatMessage_run, messages_added, forallb_app.
  cbn [forallb renders new_message msg_role instructionData truthy content is_string].
  unfold logged, messages. cbn [this_state]. by rewrite !andb_true_r.
Qed.

Lemma apologise_run' label text e w :
  (console_error label e;;
   addChatMessage assistant (VStr text) VUndefined) w
  = (if forallb renders (messages w) then Normal tt else Thrown TypeError,
     added (logged w label e) assistant (VStr text) VUndefined).
Proof.
  rewrite bind_run. cbn [console_error].
  rewrite addChatMessage_run, messages_added, forallb_app.
  cbn [forallb renders new_message msg_role instructionData truthy content is_string].
  unfold logged, messages. cbn [this_state]. by rewrite !andb_true_r.
Qed.

Lemma release_run w :
  (modify (set_isWaitingForResponse false);; set_sendBtn_disabled false) w
  = (Normal tt, released w).
Proof. reflexivity. Qed.

Lemma console_released w : console (released w) = console w.
Proof. reflexivity. Qed.

Lemma messages_released w : messages (released w) = messages w.
Proof. unfold messages, released. cbn [this_state]. by destruct (this_state w). Qed.

(** C8 (amended). A failure of a network call is caught and logged by the
    method that issued it. The call fails when the request is rejected, and
    when the body of the response cannot be read as JSON (for the methods
    that read it); either error is thrown in the [try] block of the method
    before the block has done anything. Whatever error the [try] block
    throws, the catch clause logs it under the label of the method. The
    methods of the chat request, of the instruction request and of the voice
    request then add their apology to the chat; the methods of the help
    request, the popular instructions, the search and the export add nothing
    to the chat, and they return. *)
Theorem failure_caught_and_logged r o w :
  (o = Rejected → try_block r o w = (Thrown NetworkError, w))
  ∧ (∀ ok, o = Fulfilled ok None → parses_body r = true →
           try_block r o w = (Thrown SyntaxError, w))
  ∧ (∀ e w',
       try_block r o w = (Thrown e, w') →
       console (method_resume r o w).2 = console w' ++ [(log_label r, e)]
       ∧ match apology r with
         | Some text =>
             ∃ msg, messages (method_resume r o w).2 = messages w' ++ [msg]
                    ∧ msg_role msg = assistant
                    ∧ content msg = VStr text
                    ∧ instructionData msg = VNull
         | None =>
             messages (method_resume r o w).2 = messages w'
             ∧ (method_resume r o w).1 = Normal tt
         end).
Proof.
  split; [|split].
  - intros ->. by destruct r.
  - intros ok -> Hr. by destruct r.
  - intros e w' He.
    destruct r; cbn [method_resume apology log_label try_block] in *.
    + unfold initializeWidget_resume, try_catch. rewrite He.
      by destruct w' as [[] ? ? ? ?].
    + unfold loadPopularInstructions_resume, try_catch. rewrite He.
      by destruct w' as [[] ? ? ? ?].
    + unfold searchInstructions_resume, try_catch. rewrite He.
      by destruct w' as [[] ? ? ? ?].
    + unfold sendChatMessage_resume, try_finally, try_catch. rewrite He.
      unfold sendChatMessage_catch, sendChatMessage_finally.
      rewrite apologise_run, release_run. cbn [fst snd].
      rewrite console_released, messages_released, messages_added.
      split; [done|]. by eexists.
    + unfold showInstruction_resume, try_catch. rewrite He.
      unfold showInstruction_catch. rewrite apologise_run'. cbn [fst snd].
      rewrite messages_added. split; [done|]. by eexists.
    + unfold processVoiceQuery_resume, try_catch. rewrite He.
      unfold processVoiceQuery_catch. rewrite apologise_run'. cbn [fst snd].
      rewrite messages_added. split; [done|]. by eexists.
    + unfold exportInstruction_resume, try_catch. rewrite He.
      by destruct w' as [[] ? ? ? ?].
Qed.

Lemma failure_caught_and_logged_witness :
  console (method_resume (Chat (lit "hello")) Rejected sent).2
  = console sent ++ [(lit "Chat error:", NetworkError)]
  ∧ ∃ msg, messages (method_resume (Chat (lit "hello")) Rejected sent).2
           = messages sent ++ [msg]
           ∧ content msg = VStr chat_apology.
Proof.
  destruct (failure_caught_and_logged (Chat (lit "hello")) Rejected sent)
    as (Hrejected & _ & Hcatch).
  destruct (Hcatch NetworkError sent (Hrejected eq_refl))
    as [Hlog (msg & Hmsg & _ & Hcontent & _)].
  split; [exact Hlog|]. by exists msg.
Defined.

(** C8, as stated, fails for the search: the rejected request is logged
    and the method returns, and the chat is as before, with the welcome
    message only. *)
Lemma search_failure_no_apology :
  pending searching = [SearchInstructions (lit "cart")]
  ∧ handle (Settle 0 Rejected 0) searching
    = (Normal tt, logged ready (lit "Ошибка поиска:") NetworkError)
  ∧ messages (step searching (Settle 0 Rejected 0)) = messages searching
  ∧ map content (messages (step searching (Settle 0 Rejected 0)))
    = [VStr (lit "Привет! Я ваш AI-ассистент. Чем могу помочь?")].
Proof. vm_compute. repeat split; reflexivity. Qed.

(** A reply to the chat request that has no [message] leaves a message in
    the chat that cannot be drawn: the catch clause throws when it draws the
    chat with its apology, and so does every later [addChatMessage]. *)
Example reply_without_message :
  handle (Settle 0 empty_reply 0) sent = (Thrown TypeError, broken)
  ∧ map content (messages broken)
    = [VStr (lit "Привет! Я ваш AI-ассистент. Чем могу помочь?");
       VStr (lit "hello"); VUndefined; VStr chat_apology]
  ∧ waiting broken = false.
Proof. vm_compute. repeat split; reflexivity. Qed.

Example failure_propagates :
  pending (step broken (ShowInstruction (lit "7") (lit "Checkout")))
  = [GetInstruction (lit "7") (lit "Checkout")]
  ∧ (handle (Settle 0 Rejected 0)
       (step broken (ShowInstruction (lit "7") (lit "Checkout")))).1
    = Thrown TypeError.
Proof. vm_compute. split; reflexivity. Qed.

(** After it, [sendChatMessage] throws before it issues its request. *)
Example send_after_broken :
  handle SendChatMessage (step broken (ChatInput (lit "again")))
  = (Thrown TypeError,
     added (step broken (ChatInput (lit "again"))) user (VStr (lit "again")) VUndefined)
  ∧ pending (step (step broken (ChatInput (lit "again"))) SendChatMessage) = [].
Proof. vm_compute. split; reflexivity. Qed.

End WidgetFacts.

(** ** More on the snapshot tool *)

Module DomParserMore.

Import Dom DomParser DomSpec DomSpecMore JSFacts DomParserFacts.

Lemma analyzeFile_summary env st path :
  let st' := analyzeFile env st path in
  totalPages st'.2 = totalPages st.2
  ∧ elementsByType st'.2 = elementsByType st.2
  ∧ totalElements st'.2 = totalElements st.2 + record_elements (fileRecord env path)
  ∧ interactiveElements st'.2
    = interactiveElements st.2 + record_interactive (fileRecord env path).
Proof.
  destruct st as [rs sm]. unfold analyzeFile, fileRecord. cbn zeta.
  destruct (countInteractiveElements (parseDOM env path));
    cbn [snd record_elements record_interactive totalPages elementsByType
         totalElements interactiveElements s_totalElements s_interactiveElements];
    repeat split; lia.
Qed.

Lemma analyze_loop_summary env files : ∀ st,
  let st' := fold_left (analyzeFile env) files st in
  totalPages st'.2 = totalPages st.2
  ∧ elementsByType st'.2 = elementsByType st.2
  ∧ totalElements st'.2
    = totalElements st.2 + list_sum (map record_elements (map (fileRecord env) files))
  ∧ interactiveElements st'.2
    = interactiveElements st.2
      + list_sum (map record_interactive (map (fileRecord env) files)).
Proof.
  induction files as [|path files IH]; intros st; cbn [fold_left map].
  - cbn. repeat split; lia.
  - destruct (IH (analyzeFile env st path)) as (Hp & Ht & He & Hi).
    destruct (analyzeFile_summary env st path) as (Hp' & Ht' & He' & Hi').
    cbn zeta in *. rewrite !list_sum_cons.
    repeat split; [congruence|congruence|lia|lia].
Qed.

(** X1. The summary of a report agrees with its records: [totalPages] is
    the number of paths of the list, also counting the files that failed,
    and [totalElements] and [interactiveElements] are the sums of the
    [stats] of the files that were analysed; a failed file adds nothing.
    [elementsByType] stays empty. *)
Theorem summary_totals env files :
  ∃ report,
    analyzeDOM env (VArr files) = Return report
    ∧ totalPages (r_summary report) = length files
    ∧ length (results report) = totalPages (r_summary report)
    ∧ totalElements (r_summary report)
      = list_sum (map record_elements (results report))
    ∧ interactiveElements (r_summary report)
      = list_sum (map record_interactive (results report))
    ∧ elementsByType (r_summary report) = ∅.
Proof.
  unfold analyzeDOM.
  pose proof (analyze_loop env files ([], Summary (length files) 0 ∅ 0)) as Hres.
  pose proof (analyze_loop_summary env files ([], Summary (length files) 0 ∅ 0))
    as (Hp & Ht & He & Hi).
  cbn zeta in *. destruct (fold_left _ _ _) as [rs sm]. cbn [fst snd] in *.
  eexists. split; [done|].
  cbn [r_summary results totalPages totalElements interactiveElements elementsByType] in *.
  cbn [app] in Hres. subst rs. rewrite length_map. repeat split; try done; lia.
Qed.

(** The count of a node and the nodes of its subtree. *)
Lemma count_is_size e : ∀ depth,
  S (default 0 (elementCount (elementToTree e depth)))
  = length (nodes (elementToTree e depth)).
Proof.
  induction e as [t a cs x IH] using element_induction. intros depth.
  rewrite elementToTree_eq. destruct (decide (10 < depth)); [done|].
  cbn [elementCount default Dom.children]. rewrite nodes_eq. cbn [length]. f_equal.
  rewrite length_flat_map, map_map. apply list_sum_ext.
  eapply Forall_impl; [exact IH|]. intros c Hc. cbn beta. apply Hc.
Qed.

(** X2. The counts of a tree are consistent with the tree: for every
    node of the tree of a document, [elementCount || 0] is the number of
    nodes of the tree below that node. A depth-limit node has no count and
    nothing below it. *)
Theorem elementCount_is_subtree_size root node :
  node ∈ nodes (elementToTree root 0) →
  default 0 (elementCount node) = length (nodes node) - 1.
Proof.
  intros (e & d & _ & _ & ->)%nodes_elementToTree.
  pose proof (count_is_size e d). lia.
Qed.

Lemma elementCount_is_subtree_size_witness :
  ElementInfo (lit "body") ∅ [ElementInfo (lit "button") ∅ [] (lit "x") 0] (lit "x") 1
    ∈ nodes (elementToTree Examples.page 0)
  ∧ 1 = length (nodes (ElementInfo (lit "body") ∅
                         [ElementInfo (lit "button") ∅ [] (lit "x") 0] (lit "x") 1)) - 1.
Proof.
  assert (ElementInfo (lit "body") ∅ [ElementInfo (lit "button") ∅ [] (lit "x") 0]
            (lit "x") 1 ∈ nodes (elementToTree Examples.page 0)) as Hin.
  { vm_compute. do 2 right. left. }
  split; [exact Hin|].
  exact (elementCount_is_subtree_size Examples.page _ Hin).
Defined.

Lemma elements_at_S k e :
  elements_at (S k) e = flat_map (elements_at k) (Dom.children e).
Proof. reflexivity. Qed.

Lemma flat_map_map {A B C} (f : A → B) (g : B → list C) l :
  flat_map g (map f l) = flat_map (λ x, g (f x)) l.
Proof. induction l as [|x l IH]; cbn [map flat_map]; [done|]. by rewrite IH. Qed.

Lemma map_flat_map {A B C} (f : B → C) (g : A → list B) l :
  map f (flat_map g l) = flat_map (λ x, map f (g x)) l.
Proof.
  induction l as [|x l IH]; cbn [map flat_map]; [done|]. by rewrite map_app, IH.
Qed.

Lemma flat_map_nil {A B} (l : list A) : flat_map (λ _, @nil B) l = [].
Proof. induction l; cbn [flat_map]; done. Qed.

Lemma flat_map_ext' {A B} (f g : A → list B) l :
  (∀ x, f x = g x) → flat_map f l = flat_map g l.
Proof. intros H. induction l as [|x l IH]; cbn [flat_map]; [done|]. by rewrite H, IH. Qed.

Lemma level_elementToTree k : ∀ e depth,
  depth ≤ 11 →
  level k (elementToTree e depth)
  = if decide (depth + k ≤ 11)
    then map (λ e', elementToTree e' (depth + k)) (elements_at k e)
    else [].
Proof.
  induction k as [|k IH]; intros e depth Hd.
  - cbn [level elements_at map]. rewrite Nat.add_0_r.
    by destruct (decide (depth ≤ 11)); [|lia].
  - rewrite elementToTree_eq. destruct (decide (10 < depth)).
    { cbn [level]. by destruct (decide (depth + S k ≤ 11)); [lia|]. }
    cbn [level]. rewrite flat_map_map, elements_at_S.
    rewrite (flat_map_ext' _ _ _ (λ c, IH c (depth + 1) ltac:(lia))).
    destruct (decide (depth + 1 + k ≤ 11)); destruct (decide (depth + S k ≤ 11));
      try lia.
    + rewrite map_flat_map. apply flat_map_ext'. intros c.
      apply map_ext. intros e'. f_equal. lia.
    + apply flat_map_nil.
Qed.

(** X3. The tree of a document follows the document level by level: down
    to level 11 the nodes of a level are the trees of the elements of that
    level, in document order; the nodes of the levels above 11 are
    [elementInfo] objects with [children], those of level 11 are depth-limit
    nodes, and there is no level below. *)
Theorem tree_levels root k :
  level k (elementToTree root 0)
  = (if decide (k ≤ 11) then map (λ e, elementToTree e k) (elements_at k root) else [])
  ∧ Forall (λ node, depthLimit node = if decide (k = 11) then Some true else None)
      (level k (elementToTree root 0))
  ∧ Forall (λ node, is_Some (children node) ↔ k < 11) (level k (elementToTree root 0)).
Proof.
  rewrite (level_elementToTree k root 0) by lia. cbn [Nat.add].
  split; [done|]. destruct (decide (k ≤ 11)); [|by split].
  split; apply Forall_forall; intros node (e & -> & _)%list_elem_of_fmap;
    rewrite elementToTree_eq; destruct (decide (10 < k)); cbn [depthLimit children].
  - by destruct (decide (k = 11)); [|lia].
  - by destruct (decide (k = 11)); [lia|].
  - split; [by intros [? ?]|lia].
  - split; [lia|by eexists].
Qed.

Lemma set_property_lookup attrs : ∀ (obj : gmap jsstring jsstring) name value,
  NoDup (map fst attrs) →
  fold_left (λ obj attr, set_property obj attr.1 attr.2) attrs obj !! name = Some value
  ↔ ((name, value) ∈ attrs ∧ name ≠ lit "__proto__")
    ∨ ((name ∉ map fst attrs ∨ name = lit "__proto__") ∧ obj !! name = Some value).
Proof.
  induction attrs as [|[n v] attrs IH]; intros obj name value Hnd; cbn [fold_left map].
  - split.
    + intros H. right. split; [left; apply not_elem_of_nil|done].
    + intros [[H _]|[_ H]]; [by apply elem_of_nil in H|done].
  - apply NoDup_cons in Hnd as [Hn Hnd]. rewrite (IH _ _ _ Hnd). cbn [fst snd].
    assert (∀ val, (n, val) ∈ attrs → False) as Hfst.
    { intros val Hin. apply Hn. apply list_elem_of_fmap. by exists (n, val). }
    unfold set_property. rewrite elem_of_cons, not_elem_of_cons.
    destruct (decide (n = lit "__proto__")) as [Hp|Hp].
    + destruct (decide (name = n)) as [->|Hnn]; naive_solver.
    + destruct (decide (name = n)) as [->|Hnn].
      * rewrite lookup_insert_eq. naive_solver.
      * rewrite lookup_insert_ne by done. naive_solver.
Qed.

(** X4. The [attributes] object of a node holds the attributes of its
    element under their names, with their values, and nothing else; an
    attribute named [__proto__] is the one that is dropped. (The names of
    the attributes of an element are distinct.) *)
Theorem attributes_lookup e depth a name value :
  attributes_of (elementToTree e depth) = Some a →
  NoDup (map fst (Dom.attributes e)) →
  a !! name = Some value
  ↔ (name, value) ∈ Dom.attributes e ∧ name ≠ lit "__proto__".
Proof.
  rewrite elementToTree_eq. destruct (decide (10 < depth)); [done|].
  cbn [attributes_of]. intros [= <-] Hnd. unfold attributeMap.
  rewrite (set_property_lookup _ _ _ _ Hnd). rewrite lookup_empty.
  split; [by intros [?|[_ ?]]|by left].
Qed.

Lemma attributes_lookup_witness :
  ({[ lit "type" := lit "text" ]} : gmap jsstring jsstring) !! lit "type"
    = Some (lit "text")
  ↔ (lit "type", lit "text") ∈ [(lit "type", lit "text"); (lit "__proto__", lit "x")]
    ∧ lit "type" ≠ lit "__proto__".
Proof.
  refine (attributes_lookup
            (Element (lit "INPUT") [(lit "type", lit "text"); (lit "__proto__", lit "x")]
               [] []) 0 _ (lit "type") (lit "text") _ _).
  - vm_compute. reflexivity.
  - vm_compute. repeat constructor; set_solver.
Defined.

Lemma replace_ws_runs_spaces b s :
  Forall (λ c, is_ws c = true → c = space) (replace_ws_runs b s).
Proof.
  revert b. induction s as [|c s IH]; intros b; cbn [replace_ws_runs]; [constructor|].
  destruct (is_ws c) eqn:Hc; [destruct b|]; try apply IH.
  - constructor; [done|apply IH].
  - constructor; [congruence|apply IH].
Qed.

Lemma sparse_cons a l :
  sparse l → (∀ b, head l = Some b → is_ws a = true → is_ws b = false) →
  sparse (a :: l).
Proof.
  intros Hl Hh. destruct l as [|b l]; [done|]. split; [|done].
  intros [Ha Hb]. specialize (Hh b eq_refl Ha). congruence.
Qed.

Lemma replace_ws_runs_sparse s :
  sparse (replace_ws_runs false s)
  ∧ sparse (replace_ws_runs true s)
  ∧ ∀ c, head (replace_ws_runs true s) = Some c → is_ws c = false.
Proof.
  induction s as [|c s (IHf & IHt & IHh)]; cbn [replace_ws_runs]; [done|].
  destruct (is_ws c) eqn:Hc.
  - split; [|done]. apply sparse_cons; [done|]. intros b Hb _. by apply IHh.
  - assert (sparse (c :: replace_ws_runs false s)) as Hs.
    { apply sparse_cons; [done|]. intros b _ Ha. congruence. }
    split; [done|]. split; [done|]. by intros c' [= <-].
Qed.

Lemma sparse_take n : ∀ l, sparse l → sparse (take n l).
Proof.
  induction n as [|n IH]; intros [|a l] Hl; try done.
  cbn [take]. apply sparse_cons.
  - apply IH. destruct l; [done|]. apply Hl.
  - intros b Hb Ha. destruct l as [|b' l]; [by destruct n|].
    destruct n; [done|]. cbn in Hb. injection Hb as <-.
    destruct Hl as [Hab _]. destruct (is_ws b') eqn:Hb'; [|done]. by destruct Hab.
Qed.

Lemma ink_replace_ws_runs b s : ink (replace_ws_runs b s) = ink s.
Proof.
  unfold ink. revert b. induction s as [|c s IH]; intros b; cbn [replace_ws_runs]; [done|].
  cbn [List.filter]. destruct (is_ws c) eqn:Hc; cbn [negb].
  - destruct b; [apply IH|]. cbn [List.filter].
    change (is_ws space) with true. cbn [negb]. apply IH.
  - cbn [List.filter]. rewrite Hc. cbn [negb]. by rewrite IH.
Qed.

Lemma ink_ws l : forallb is_ws l = true → ink l = [].
Proof.
  unfold ink. induction l as [|c l IH]; cbn [forallb List.filter]; [done|].
  intros [-> Hl]%andb_true_iff. cbn [negb]. by apply IH.
Qed.

Lemma ink_trim s : ink (trim s) = ink s.
Proof.
  destruct (trim_trimmed s) as (l & r & Hs & Hl & Hr & _).
  rewrite Hs at 2. unfold ink. rewrite !List.filter_app.
  fold (ink l) (ink r) (ink (trim s)). by rewrite (ink_ws l), (ink_ws r), app_nil_r.
Qed.

Lemma ink_take n l : ink (take n l) `prefix_of` ink l.
Proof.
  rewrite <- (take_drop n l) at 2. unfold ink. rewrite List.filter_app.
  by apply prefix_app_r.
Qed.

(** X5. The shape of the text of a node: the only whitespace in it is the
    space, no two spaces are neighbours, it does not begin with a space, and
    its other code units are those of the text of the element, in their
    order, from the first on. *)
Theorem nodeText_shape text :
  Forall (λ c, is_ws c = true → c = space) (nodeText text)
  ∧ sparse (nodeText text)
  ∧ (∀ c, head (nodeText text) = Some c → is_ws c = false)
  ∧ ink (nodeText text) `prefix_of` ink text.
Proof.
  unfold nodeText. destruct (decide (text = [])) as [->|Hne].
  { by repeat split. }
  unfold substring0. split; [|split; [|split]].
  - apply Forall_take, replace_ws_runs_spaces.
  - apply sparse_take, replace_ws_runs_sparse.
  - intros c Hc. destruct (trim_trimmed text) as (_ & _ & _ & _ & _ & Hh & _).
    destruct (trim text) as [|x t]; [done|].
    specialize (Hh x eq_refl). cbn [replace_ws_runs] in Hc. rewrite Hh in Hc.
    cbn in Hc. by injection Hc as <-.
  - etrans; [apply ink_take|]. by rewrite ink_replace_ws_runs, ink_trim.
Qed.

(** X6. The run succeeds, with exit code 0, exactly when the list can be
    read as a JSON array and the report can be written; the report written
    is the one [analyzeDOM] returns, and the status line counts all the
    paths of the list, the failed files too. A failure to write the report
    ends the run with exit code 1 although every file was analysed. *)
Theorem main_succeeds_iff env argv2 :
  (exit_code (main env argv2) = 0
   ↔ ∃ files report,
       input_list env argv2 = Some files
       ∧ analyzeDOM env (VArr files) = Return report
       ∧ writeFileSync env (lit "dom_analysis.json") report = Return tt)
  ∧ (∀ files report,
       input_list env argv2 = Some files →
       analyzeDOM env (VArr files) = Return report →
       main env argv2
       = match writeFileSync env (lit "dom_analysis.json") report with
         | Return _ => Completed report (StatusLine (Some (length files)))
         | Throw m => Exit1 m
         end).
Proof.
  unfold input_list, main.
  destruct (readFileSync env argv2) as [text|m]; cbn [bind];
    [|split; [split; [done|by intros (? & ? & ? & _)]|done]].
  destruct (JSON_parse env text) as [v|m]; cbn [bind];
    [|split; [split; [done|by intros (? & ? & ? & _)]|done]].
  destruct v as [| | | | |files|];
    try (cbn [analyzeDOM bind]; split; [split; [done|by intros (? & ? & ? & _)]|done]).
  destruct (analyzeDOM_array env files) as (report & Hr & _). rewrite Hr. cbn [bind].
  split.
  - destruct (writeFileSync env _ report) as [[]|m] eqn:Hw; cbn [bind exit_code].
    + split; [|done]. intros _. by exists files, report.
    + split; [done|]. intros (files' & report' & [= <-] & Hr' & Hw').
      rewrite Hr in Hr'. injection Hr' as <-. congruence.
  - intros files' report' [= <-] Hr'. rewrite Hr in Hr'. injection Hr' as <-.
    by destruct (writeFileSync env _ report) as [[]|m].
Qed.

Lemma trim_clean s :
  (∀ c, head s = Some c → is_ws c = false) →
  (∀ c, last s = Some c → is_ws c = false) →
  trim s = s.
Proof.
  intros Hh Hl. unfold trim.
  assert (trimStart s = s) as ->.
  { destruct s as [|c s]; [done|]. cbn [trimStart]. by rewrite (Hh c eq_refl). }
  unfold trimEnd.
  assert (trimStart (rev s) = rev s) as ->; [|apply rev_involutive].
  destruct (rev s) as [|c r] eqn:Hr; [done|]. cbn [trimStart].
  assert (last s = Some c) as Hc.
  { rewrite <- head_rev. by rewrite Hr. }
  by rewrite (Hl c Hc).
Qed.

Lemma sparse_inv a l :
  sparse (a :: l) →
  sparse l ∧ (is_ws a = true → ∀ b, head l = Some b → is_ws b = false).
Proof.
  destruct l as [|b l]; [done|]. intros [Hab Hl]. split; [done|].
  intros Ha b' [= <-]. destruct (is_ws b) eqn:Hb; [|done]. by destruct Hab.
Qed.

Lemma replace_ws_runs_clean s :
  Forall (λ c, is_ws c = true → c = space) s → sparse s →
  replace_ws_runs false s = s
  ∧ ((∀ c, head s = Some c → is_ws c = false) → replace_ws_runs true s = s).
Proof.
  induction 1 as [|c s Hc _ IH]; intros Hs; [done|].
  apply sparse_inv in Hs as [Hs Hnext]. destruct (IH Hs) as [IHf IHt].
  cbn [replace_ws_runs]. destruct (is_ws c) eqn:Hws.
  - split.
    + rewrite (Hc eq_refl), IHt; [done|]. by apply Hnext.
    + intros Hh. specialize (Hh c eq_refl). congruence.
  - by rewrite IHf.
Qed.

(** X7. A text that is already in the shape of X5 and at most 200 code
    units long is kept as it is: no whitespace at its ends, no whitespace
    but single spaces. *)
Theorem nodeText_fixed text :
  Forall (λ c, is_ws c = true → c = space) text →
  sparse text →
  (∀ c, head text = Some c → is_ws c = false) →
  (∀ c, last text = Some c → is_ws c = false) →
  length text ≤ 200 →
  nodeText text = text.
Proof.
  intros Hsp Hs Hh Hl Hlen. unfold nodeText.
  destruct (decide (text = [])) as [->|_]; [done|].
  rewrite trim_clean by done.
  rewrite (proj1 (replace_ws_runs_clean text Hsp Hs)).
  unfold substring0. by rewrite take_ge.
Qed.

Lemma nodeText_fixed_witness : nodeText (lit "Add to cart") = lit "Add to cart".
Proof.
  apply nodeText_fixed.
  - vm_compute. repeat constructor; intros; congruence.
  - vm_compute. repeat split; intros [? ?]; congruence.
  - vm_compute. by intros c [= <-].
  - vm_compute. by intros c [= <-].
  - vm_compute. lia.
Defined.

(** X8. Every analysis of the report is exact. A file has an analysis,
    and not a [{ file, error }] record, exactly when it can be read and
    parsed and its document has no element deeper than depth 10; its
    [totalElements] is then the number of all elements below the root, and
    its [interactiveElements] the number of all interactive elements of the
    document: the depth limit never shortens a count that is reported. *)
Theorem analysis_is_exact env path :
  (∀ domTree st,
     fileRecord env path = Analysis path domTree st →
     ∃ root, document env path = Return root
             ∧ height root ≤ 10
             ∧ domTree = elementToTree root 0
             ∧ s_totalElements st = length (descendants root)
             ∧ s_interactiveElements st
               = length (List.filter interactive (elements root)))
  ∧ (∀ root, document env path = Return root → height root ≤ 10 →
             ∃ st, fileRecord env path = Analysis path (elementToTree root 0) st).
Proof.
  split.
  - intros domTree st. destruct (document env path) as [root|m] eqn:Hd.
    + destruct (decide (height root ≤ 10)) as [Hh|Hh].
      * rewrite (fileRecord_shallow env path root Hd Hh). intros [= <- <-].
        by exists root.
      * by rewrite (fileRecord_deep env path root Hd) by lia.
    + by rewrite (fileRecord_unreadable env path m Hd).
  - intros root Hd Hh. rewrite (fileRecord_shallow env path root Hd Hh). by eexists.
Qed.

End DomParserMore.

(** ** More on the widget *)

Module WidgetMore.

Import Widget WidgetSpec WidgetSpecMore JSFacts WidgetFacts.

#[global] Instance keeps_drawable_preorder : PreOrder keeps_drawable.
Proof.
  split; [intros w H; exact H|intros w1 w2 w3 H1 H2 H; exact (H2 (H1 H))].
Qed.

#[global] Instance keeps_steady_preorder : PreOrder keeps_steady.
Proof.
  split; [intros w H; exact H|intros w1 w2 w3 H1 H2 H; exact (H2 (H1 H))].
Qed.

(** [sendChatMessage], in full. *)
Lemma sendChatMessage_run w :
  sendChatMessage w
  = if bool_decide (trim (currentChatMessage (this_state w)) = []) || waiting w
    then (Normal tt, w)
    else
      let message := trim (currentChatMessage (this_state w)) in
      let w1 := added w user (VStr message) VUndefined in
      if forallb renders (messages w1)
      then (Normal tt, submitted w1 message)
      else (Thrown TypeError, w1).
Proof.
  unfold sendChatMessage.
  rewrite bind_run. cbn [gets]. rewrite bind_run. cbn [gets]. fold (waiting w).
  destruct (bool_decide _ || waiting w); [done|]. cbn zeta.
  rewrite bind_run, addChatMessage_run.
  destruct (forallb renders _); [|done]. reflexivity.
Qed.

Lemma renders_user_string s t i :
  renders (Message t user (VStr s) i VNull) = true.
Proof. reflexivity. Qed.

(** *** What the widget keeps true *)

Lemma steady_fetch r : preserves keeps_steady (fetch r).
Proof. intros w H. exact H. Qed.

Lemma steady_console_error label e : preserves keeps_steady (console_error label e).
Proof. intros w H. exact H. Qed.

Lemma steady_addChatMessage role c i : preserves keeps_steady (addChatMessage role c i).
Proof.
  intros w. rewrite addChatMessage_run. cbn [snd].
  unfold keeps_steady, steady, added, waiting, messages.
  destruct w as [[] ? ? ? ?]. cbn.
  destruct isVisible0; cbn; [done|]. destruct (bool_decide _); cbn; naive_solver.
Qed.

Lemma steady_showPanel : preserves keeps_steady showPanel.
Proof.
  intros w. unfold keeps_steady, steady, waiting. destruct w as [[] ? ? ? ?].
  cbn. naive_solver.
Qed.

Lemma steady_sendChatMessage : preserves keeps_steady sendChatMessage.
Proof.
  intros w Hw. rewrite sendChatMessage_run.
  destruct (bool_decide _ || waiting w); [done|]. cbn zeta.
  pose proof (steady_addChatMessage user
                (VStr (trim (currentChatMessage (this_state w)))) VUndefined w Hw) as H1.
  rewrite addChatMessage_run in H1. cbn [snd] in H1.
  destruct (forallb renders _); [|done]. cbn [snd].
  unfold steady, submitted, waiting in *.
  destruct (added w user _ VUndefined) as [[] ? ? ? ?]. cbn in *. naive_solver.
Qed.

Lemma steady_sendChatMessage_resume o : preserves keeps_steady (sendChatMessage_resume o).
Proof.
  intros w Hw.
  unfold sendChatMessage_resume, sendChatMessage_try, sendChatMessage_catch,
    sendChatMessage_finally.
  match goal with
  | |- context [try_finally ?m ?f] =>
      assert (preserves keeps_steady m) as Hm
        by (unfold hideTypingIndicator; keep; apply steady_addChatMessage
            || apply steady_console_error);
      specialize (Hm w Hw); unfold try_finally; destruct (m w) as [r w1]
  end.
  cbn [snd] in Hm. rewrite release_run. unfold steady, released, waiting in *.
  destruct w1 as [[] ? ? ? ?]. destruct r; cbn in *; naive_solver.
Qed.

Lemma steady_startVoiceInput prompt_result :
  preserves keeps_steady (startVoiceInput prompt_result).
Proof.
  intros w (Hb & Hl & Hs). unfold startVoiceInput, processVoiceQuery.
  rewrite bind_run. cbn [gets]. rewrite Hl.
  unfold steady, waiting, try_finally, try_catch, detached, mbind, M_bind, mret, M_ret in *.
  destruct w as [[] ? ? ? ?].
  destruct prompt_result as [text|]; [destruct (decide (text = []))|]; cbn in *;
    naive_solver.
Qed.

#[global] Hint Resolve steady_fetch steady_console_error steady_addChatMessage
  steady_showPanel steady_sendChatMessage steady_sendChatMessage_resume
  steady_startVoiceInput : widget.

#[global] Hint Extern 2 (preserves keeps_steady (modify _)) =>
  intros [[] ? ? ? ?]; unfold keeps_steady, steady, waiting; cbn; naive_solver : widget.

Lemma steady_resume r o random : preserves keeps_steady (resume r o random).
Proof.
  destruct r; cbn [resume];
    unfold init_after_help, init_after_popular, initializeWidget_resume,
      initializeWidget_try, initializeWidget_catch, loadPopularInstructions_resume,
      loadPopularInstructions_try, loadPopularInstructions_catch,
      loadPopularInstructions, searchInstructions_resume, searchInstructions_try,
      searchInstructions_catch, showInstruction_resume, showInstruction_try,
      showInstruction_catch, processVoiceQuery_resume, processVoiceQuery_try,
      processVoiceQuery_catch, exportInstruction_resume, exportInstruction_try,
      exportInstruction_catch, renderAvailableTasks, renderPopularInstructions,
      renderSearchResults, switchTab, addWelcomeMessage, attachEventListeners,
      hideTypingIndicator, scrollChatToBottom; keep.
Qed.

Lemma steady_step w e : steady w → steady (step w e).
Proof.
  intros Hw. unfold step.
  assert (∀ m : M unit, preserves keeps_steady m → steady (m w).2) as Hkeep
    by (intros m Hm; by apply Hm).
  destruct e; cbn [handle]; try (apply Hkeep;
    unfold togglePanel, hidePanel, toggleMinimize, searchInstructions, sendMessage,
      showInstruction, loadInstruction, processVoiceQuery, exportInstruction,
      renderAvailableTasks, renderPopularInstructions, switchTab,
      scrollChatToBottom; by keep).
  unfold settle. destruct (pending w !! i) as [r|]; [|done].
  by apply (steady_resume r o random (World _ _ _ _ _)).
Qed.

Lemma reachable_steady w : reachable w → steady w.
Proof.
  induction 1 as [|w e _ IH]; [|by apply steady_step].
  unfold steady. by vm_compute.
Qed.

(** X9. In every world that the widget reaches, there are no unread
    messages while the panel is open: [addChatMessage] raises the flag only
    for a message of the assistant that arrives while the panel is closed,
    and [showPanel] clears it. So the badge is shown exactly when the flag is
    set. *)
Theorem no_unread_while_open w :
  reachable w →
  isVisible (this_state w) = true → hasUnreadMessages (this_state w) = false.
Proof. intros Hw. by destruct (reachable_steady w Hw) as (? & _). Qed.

Lemma no_unread_while_open_witness :
  isVisible (this_state (step ready ShowPanel)) = true
  ∧ hasUnreadMessages (this_state ready) = true
  ∧ hasUnreadMessages (this_state (step ready ShowPanel)) = false.
Proof.
  assert (isVisible (this_state (step ready ShowPanel)) = true) as Hv
    by (vm_compute; reflexivity).
  split; [exact Hv|]. split; [vm_compute; reflexivity|].
  exact (no_unread_while_open (step ready ShowPanel)
           (reachable_step _ _ reachable_ready) Hv).
Defined.

(** X10. In every world that the widget reaches, the send button is
    disabled exactly when a chat request is outstanding: [sendChatMessage]
    disables it with the request, and the [finally] clause enables it when
    the request ends. *)
Theorem button_disabled_iff_outstanding w :
  reachable w → (sendBtn_disabled w = true ↔ chat_outstanding w).
Proof.
  intros Hw. destruct (reachable_steady w Hw) as (_ & _ & ->).
  symmetry. by apply outstanding_iff_waiting.
Qed.

Lemma button_disabled_iff_outstanding_witness :
  sendBtn_disabled sent = true ∧ chat_outstanding sent.
Proof.
  assert (sendBtn_disabled sent = true) as Hb by (vm_compute; reflexivity).
  split; [exact Hb|].
  exact (proj1 (button_disabled_iff_outstanding sent
                  (reachable_step _ _ (reachable_step _ _ reachable_ready))) Hb).
Defined.

(** *** Sending and the reply *)

Lemma drawable_added w role c i :
  forallb renders (messages (added w role c i))
  = forallb renders (messages w) && renders (new_message w role c i).
Proof. rewrite messages_added, forallb_app. cbn [forallb]. by rewrite andb_true_r. Qed.

(** X11. What [sendChatMessage] does with a message to send (the input is
    not blank and no request is outstanding): it adds the trimmed input to
    the chat as a message of the user. When the chat can be drawn, it then
    empties the input, sets the flag, disables the button and issues one
    chat request with the trimmed input. When the chat holds a message that
    cannot be drawn, it throws after adding the message: nothing is
    requested and the input stays. *)
Theorem send_submits w :
  trim (currentChatMessage (this_state w)) ≠ [] →
  waiting w = false →
  let message := trim (currentChatMessage (this_state w)) in
  let w1 := added w user (VStr message) VUndefined in
  messages w1 = messages w ++ [Message (clock w) user (VStr message) (S (clock w)) VNull]
  ∧ handle SendChatMessage w
    = if forallb renders (messages w)
      then (Normal tt, submitted w1 message)
      else (Thrown TypeError, w1).
Proof.
  intros Ht Hw. cbn zeta. split; [apply messages_added|].
  cbn [handle]. rewrite sendChatMessage_run, Hw.
  rewrite bool_decide_eq_false_2 by done. cbn [orb]. cbn zeta.
  rewrite drawable_added.
  change (renders (new_message w user _ VUndefined)) with true.
  by rewrite andb_true_r.
Qed.

Lemma send_submits_witness :
  handle SendChatMessage typed
  = (Normal tt,
     submitted (added typed user (VStr (lit "hello")) VUndefined) (lit "hello"))
  ∧ pending sent = [Chat (lit "hello")]
  ∧ currentChatMessage (this_state sent) = [].
Proof.
  assert (trim (currentChatMessage (this_state typed)) ≠ []) as Ht
    by (vm_compute; congruence).
  assert (waiting typed = false) as Hw by (vm_compute; reflexivity).
  pose proof (proj2 (send_submits typed Ht Hw)) as Hsend.
  split; [|split; vm_compute; reflexivity].
  rewrite Hsend. vm_compute. reflexivity.
Defined.

(** The reply of the backend to a chat request, an object [fields]. *)
Lemma reply_run ok fields w :
  try_catch
    (data ← json (Fulfilled ok (Some (VObj fields)));
     hideTypingIndicator;;
     type ← prop data "type";
     if is_literal type "instruction" then
       message ← prop data "message";
       instruction_data ← prop data "instruction_data";
       addChatMessage assistant message instruction_data
     else
       message ← prop data "message";
       addChatMessage assistant message VUndefined)
    (λ error,
       console_error (lit "Chat error:") error;;
       hideTypingIndicator;;
       addChatMessage assistant (VStr chat_apology) VUndefined) w
  = let w1 := added w assistant (reply_content fields) (reply_payload fields) in
    if forallb renders (messages w1) then (Normal tt, w1)
    else (Thrown TypeError,
          added (logged w1 (lit "Chat error:") TypeError) assistant
            (VStr chat_apology) VUndefined).
Proof.
  unfold try_catch. rewrite bind_run. cbn [json].
  change ((mret (VObj fields) : M jsval) w) with (Normal (VObj fields), w). cbn iota.
  rewrite bind_run. unfold hideTypingIndicator at 1.
  change ((mret tt : M unit) w) with (Normal tt, w). cbn iota.
  rewrite bind_run. cbn [prop].
  change ((mret ?v : M jsval) w) with (Normal v, w). cbn iota.
  assert (∀ c p, addChatMessage assistant c p w
                 = (if forallb renders (messages (added w assistant c p))
                    then Normal tt else Thrown TypeError, added w assistant c p))
    as Hadd by (intros; apply addChatMessage_run).
  unfold reply_content, reply_payload. cbn zeta.
  destruct (is_literal _ "instruction").
  - rewrite bind_run. change ((mret ?v : M jsval) w) with (Normal v, w). cbn iota.
    rewrite bind_run. change ((mret ?v : M jsval) w) with (Normal v, w). cbn iota.
    rewrite Hadd. destruct (forallb renders _) eqn:Hr; [done|].
    rewrite apologise_run. unfold messages in *. by rewrite Hr.
  - rewrite bind_run. change ((mret ?v : M jsval) w) with (Normal v, w). cbn iota.
    rewrite Hadd. destruct (forallb renders _) eqn:Hr; [done|].
    rewrite apologise_run. unfold messages in *. by rewrite Hr.
Qed.

(** X12. What the reply to a chat request does, for a JSON object
    [fields]: the message of the assistant is added with [fields.message] as
    its content, and with [fields.instruction_data] as its payload when
    [fields.type] is ['instruction']. When the chat can be drawn with it, the
    method returns. When it cannot (say [message] is missing, the payload
    has no array [steps] of strings, or its [instruction_id] cannot be
    written as a string), the error is logged, the apology is
    added behind the message, and the [TypeError] of drawing the chat leaves
    the method. In both cases the flag is cleared and the button enabled. *)
Theorem chat_reply ok fields w :
  sendChatMessage_resume (Fulfilled ok (Some (VObj fields))) w
  = let w1 := added w assistant (reply_content fields) (reply_payload fields) in
    if forallb renders (messages w)
       && renders (new_message w assistant (reply_content fields) (reply_payload fields))
    then (Normal tt, released w1)
    else (Thrown TypeError,
          released (added (logged w1 (lit "Chat error:") TypeError) assistant
                      (VStr chat_apology) VUndefined)).
Proof.
  unfold sendChatMessage_resume, sendChatMessage_try, sendChatMessage_catch,
    sendChatMessage_finally, try_finally. rewrite reply_run. cbn zeta.
  rewrite drawable_added. destruct (_ && _); by rewrite release_run.
Qed.

Example chat_reply_plain :
  (handle (Settle 0 (Fulfilled true
                       (Some (VObj {[ lit "message" := VStr (lit "Open the cart.") ]}))) 0)
     sent).1 = Normal tt
  ∧ map content (messages (step sent
       (Settle 0 (Fulfilled true
                    (Some (VObj {[ lit "message" := VStr (lit "Open the cart.") ]}))) 0)))
    = [VStr (lit "Привет! Я ваш AI-ассистент. Чем могу помочь?");
       VStr (lit "hello"); VStr (lit "Open the cart.")].
Proof. vm_compute. split; reflexivity. Qed.

(** *** What can break the chat *)

Lemma drawable_fetch r : preserves keeps_drawable (fetch r).
Proof. intros w H. exact H. Qed.

Lemma drawable_console_error label e : preserves keeps_drawable (console_error label e).
Proof. intros w H. exact H. Qed.

Lemma drawable_set_sendBtn_disabled b : preserves keeps_drawable (set_sendBtn_disabled b).
Proof. intros w H. exact H. Qed.

Lemma drawable_addChatMessage role s :
  preserves keeps_drawable (addChatMessage role (VStr s) VUndefined).
Proof.
  intros w Hw. rewrite addChatMessage_run. cbn [snd]. unfold drawable in *.
  rewrite drawable_added, Hw. by destruct role.
Qed.

Lemma drawable_throw {A B} e (k : A → M B) : preserves keeps_drawable (throw e ≫= k).
Proof. intros w H. exact H. Qed.

#[global] Hint Resolve drawable_fetch drawable_console_error
  drawable_set_sendBtn_disabled drawable_addChatMessage drawable_throw : widget.

#[global] Hint Extern 2 (preserves keeps_drawable (modify _)) =>
  intros [[] ? ? ? ?] H; exact H : widget.

Lemma drawable_resume r o random :
  match o with Fulfilled _ (Some _) => False | _ => True end →
  preserves keeps_drawable (resume r o random).
Proof.
  intros Ho. destruct o as [ok [body|]|]; [done| |];
    destruct r; cbn [resume];
    unfold init_after_help, init_after_popular, initializeWidget_resume,
      initializeWidget_try, initializeWidget_catch, loadPopularInstructions_resume,
      loadPopularInstructions_try, loadPopularInstructions_catch,
      loadPopularInstructions, searchInstructions_resume, searchInstructions_try,
      searchInstructions_catch, sendChatMessage_resume, sendChatMessage_try,
      sendChatMessage_catch, sendChatMessage_finally, showInstruction_resume,
      showInstruction_try, showInstruction_catch, processVoiceQuery_resume,
      processVoiceQuery_try, processVoiceQuery_catch, exportInstruction_resume,
      exportInstruction_try, exportInstruction_catch, addWelcomeMessage,
      attachEventListeners, hideTypingIndicator;
    cbn [json]; keep.
Qed.

(** X13. Only a value of the backend can break the chat. If every
    message of the chat can be drawn, it is so after every event that brings
    no such value: what the user types, sends and clicks, the voice input,
    and the end of a request that was rejected or had no JSON body (whose
    apology can be drawn). *)
Theorem local_events_keep_drawable w e :
  drawable w → brings_payload e = false → drawable (step w e).
Proof.
  intros Hw He. unfold step.
  assert (∀ m : M unit, preserves keeps_drawable m → drawable (m w).2) as Hkeep
    by (intros m Hm; by apply Hm).
  destruct e; try done; cbn [handle]; try (apply Hkeep;
    unfold togglePanel, showPanel, hidePanel, toggleMinimize, searchInstructions,
      sendMessage, sendChatMessage, showInstruction, startVoiceInput,
      processVoiceQuery, exportInstruction,
      renderAvailableTasks, renderPopularInstructions, updateNotificationBadge,
      showTypingIndicator, switchTab, scrollChatToBottom; by keep).
  unfold settle. destruct (pending w !! i) as [r|]; [|done].
  apply (drawable_resume r o random); [|exact Hw].
  by destruct o as [? [?|]|].
Qed.

Lemma local_events_keep_drawable_witness :
  drawable sent ∧ drawable (step sent (Settle 0 Rejected 0)).
Proof.
  assert (drawable sent) as Hd by (vm_compute; reflexivity).
  split; [exact Hd|].
  exact (local_events_keep_drawable sent (Settle 0 Rejected 0) Hd eq_refl).
Defined.

(** *** The start of the widget *)

#[global] Instance quiet_preorder : PreOrder quiet.
Proof.
  split; [by intros w|]. intros w1 w2 w3 [H1 H2] [H3 H4]. split; congruence.
Qed.

Lemma quiet_console_error label e : preserves quiet (console_error label e).
Proof. by intros w. Qed.

#[global] Hint Resolve quiet_console_error : widget.

#[global] Hint Extern 2 (preserves quiet (modify _)) =>
  intros [[] ? ? ? ?]; split; reflexivity : widget.

Lemma quiet_initializeWidget_resume o : preserves quiet (initializeWidget_resume o).
Proof.
  unfold initializeWidget_resume, initializeWidget_try, initializeWidget_catch,
    renderAvailableTasks.
  keep.
Qed.

Lemma quiet_loadPopularInstructions_resume o :
  preserves quiet (loadPopularInstructions_resume o).
Proof.
  unfold loadPopularInstructions_resume, loadPopularInstructions_try,
    loadPopularInstructions_catch, renderPopularInstructions.
  keep.
Qed.

(** A method whose catch clause only logs returns. *)
Lemma logging_catch_returns (m : M unit) label w :
  (try_catch m (λ error, console_error label error) w).1 = Normal tt.
Proof. unfold try_catch. by destruct (m w) as [[[]|e] w']. Qed.

(** X14. The start of the widget. [init] asks for the help first and for
    the popular instructions when the first request has ended; when the
    second has ended, however the two ended, no request is left and the chat
    holds one message: one of the four welcome messages, from the assistant,
    without a payload. *)
Theorem init_completes o1 random1 o2 random2 :
  let w1 := step initial (Settle 0 o1 random1) in
  let w2 := step w1 (Settle 0 o2 random2) in
  pending initial = [GetHelp]
  ∧ pending w1 = [PopularInstructions] ∧ messages w1 = []
  ∧ pending w2 = []
  ∧ ∃ text id timestamp,
      text ∈ welcomeMessages
      ∧ messages w2 = [Message id assistant (VStr text) timestamp VNull].
Proof.
  cbn zeta. split; [reflexivity|].
  assert (pending (step initial (Settle 0 o1 random1)) = [PopularInstructions]
          ∧ messages (step initial (Settle 0 o1 random1)) = []) as [Hp1 Hm1].
  { unfold step. cbn [handle]. unfold settle.
    change (pending initial !! 0) with (Some GetHelp). cbn [resume].
    unfold init_after_help. rewrite bind_run.
    set (w0 := World _ _ _ _ _).
    pose proof (quiet_initializeWidget_resume o1 w0) as [Hm Hp].
    pose proof (logging_catch_returns (initializeWidget_try o1)
                  (lit "Ошибка инициализации ассистента:") w0) as Hr.
    change (try_catch _ _) with (initializeWidget_resume o1) in Hr.
    destruct (initializeWidget_resume o1 w0) as [r w']. cbn [fst snd] in *.
    subst r. unfold loadPopularInstructions. cbn [fetch snd pending].
    unfold messages in *. cbn [this_state]. by rewrite Hm, Hp. }
  split; [done|]. split; [done|].
  set (w1 := step initial (Settle 0 o1 random1)) in *. clearbody w1.
  unfold step. cbn [handle]. unfold settle. rewrite Hp1.
  change ([PopularInstructions] !! 0) with (Some PopularInstructions). cbn [resume].
  unfold init_after_popular. rewrite bind_run.
  set (w0 := World _ _ _ _ _).
  pose proof (quiet_loadPopularInstructions_resume o2 w0) as [Hm Hp].
  pose proof (logging_catch_returns (loadPopularInstructions_try o2)
                (lit "Ошибка загрузки популярных инструкций:") w0) as Hr.
  change (try_catch _ _) with (loadPopularInstructions_resume o2) in Hr.
  destruct (loadPopularInstructions_resume o2 w0) as [r w']. cbn [fst snd] in *.
  subst r. rewrite bind_run. unfold attachEventListeners.
  change ((mret tt : M unit) w') with (Normal tt, w'). cbn iota.
  unfold addWelcomeMessage. rewrite addChatMessage_run. cbn [snd].
  assert (pending w0 = []) as Hp0 by (subst w0; reflexivity).
  assert (messages w0 = []) as Hm0 by exact Hm1.
  split.
  - change (pending (added w' ?a ?b ?c)) with (pending w'). by rewrite Hp, Hp0.
  - destruct (lookup_lt_is_Some_2 welcomeMessages (random2 mod 4)) as [text Ht].
    { cbn [length welcomeMessages]. apply Nat.mod_upper_bound. lia. }
    exists text, (clock w'), (S (clock w')). split.
    + by apply list_elem_of_lookup_2 in Ht.
    + rewrite messages_added, Hm, Hm0, Ht. reflexivity.
Qed.

(** *** The search box and the voice input *)

(** Drawing reads the state, and the only error it throws is a
    [TypeError]. *)
Lemma draw_bind {A} (m : M A) (k : A → M unit) :
  (∀ w, (∃ a, m w = (Normal a, w)) ∨ m w = (Thrown TypeError, w)) →
  (∀ a w, k a w = (Normal tt, w) ∨ k a w = (Thrown TypeError, w)) →
  ∀ w, (m ≫= k) w = (Normal tt, w) ∨ (m ≫= k) w = (Thrown TypeError, w).
Proof.
  intros Hm Hk w. rewrite bind_run.
  destruct (Hm w) as [[a ->]| ->]; [apply Hk|by right].
Qed.

Lemma draw_prop v name w :
  (∃ a, prop v name w = (Normal a, w)) ∨ prop v name w = (Thrown TypeError, w).
Proof. destruct v; cbn [prop]; first [by right | left; by eexists]. Qed.

Lemma draw_substitute v w :
  substitute v w = (Normal tt, w) ∨ substitute v w = (Thrown TypeError, w).
Proof. rewrite substitute_run. destruct (stringifies v); auto. Qed.

Lemma draw_substitute' v w :
  (∃ a, substitute v w = (Normal a, w)) ∨ substitute v w = (Thrown TypeError, w).
Proof. destruct (draw_substitute v w) as [->| ->]; [left; by eexists|by right]. Qed.

Ltac draw_card :=
  repeat first [ apply draw_substitute
               | apply draw_bind; [intros ?; first [apply draw_prop | apply draw_substitute']
                                  |intros ?] ].

Lemma task_card_result task w :
  task_card task w = (Normal tt, w) ∨ task_card task w = (Thrown TypeError, w).
Proof. revert w. unfold task_card. draw_card. Qed.

Lemma instruction_card_result instruction w :
  instruction_card instruction w = (Normal tt, w)
  ∨ instruction_card instruction w = (Thrown TypeError, w).
Proof. revert w. unfold instruction_card. draw_card. Qed.

Lemma result_card_result result w :
  result_card result w = (Normal tt, w) ∨ result_card result w = (Thrown TypeError, w).
Proof. revert w. unfold result_card. draw_card. Qed.

Lemma render_cards_result limit card list w :
  (∀ item w, card item w = (Normal tt, w) ∨ card item w = (Thrown TypeError, w)) →
  render_cards limit card list w = (Normal tt, w)
  ∨ render_cards limit card list w = (Thrown TypeError, w).
Proof.
  intros Hcard. unfold render_cards.
  destruct list as [| | | |s|items|fields]; try by right.
  - destruct (decide _); auto.
  - generalize (match limit with Some n => take n items | None => items end).
    intros drawn. induction drawn as [|item drawn IH]; [by left|].
    cbn [for_each]. rewrite bind_run.
    destruct (Hcard item w) as [->| ->]; [exact IH|by right].
  - repeat case_match; auto.
Qed.

(** X15. The search box. A query that is empty or all whitespace sends
    nothing and draws the two lists of the tasks tab again; when the popular
    instructions were never loaded (the request failed, so the field is still
    [undefined]), that throws a [TypeError]. Any other query issues one
    search request, with the query as it was typed, and changes nothing
    else. *)
Theorem search_input w query :
  (trim query = [] →
     (handle (SearchInput query) w).2 = w
     ∧ (popularInstructions (this_state w) = VUndefined →
        (handle (SearchInput query) w).1 = Thrown TypeError))
  ∧ (trim query ≠ [] →
     handle (SearchInput query) w
     = (Normal tt,
        World (this_state w) (sendBtn_disabled w)
          (pending w ++ [SearchInstructions query]) (console w) (clock w))).
Proof.
  cbn [handle]. unfold searchInstructions. split.
  - intros Ht. destruct (decide (trim query = [])); [|done].
    unfold renderAvailableTasks, renderPopularInstructions.
    rewrite !bind_run. cbn [gets].
    destruct (render_cards_result None task_card (availableTasks (this_state w)) w
                task_card_result) as [->| ->].
    + rewrite bind_run. cbn [gets]. split.
      * by destruct (render_cards_result (Some 5) instruction_card
                       (popularInstructions (this_state w)) w instruction_card_result)
          as [->| ->].
      * by intros ->.
    + by split.
  - intros Ht. by destruct (decide (trim query = [])).
Qed.

(** X16. The voice input, in a world that the widget reaches: a text
    from the prompt that is not empty issues one voice request with that
    text; an empty text or a cancelled prompt issues nothing. The method
    returns with [isListening] cleared again, so its guard never holds it
    back. *)
Theorem voice_input w prompt_result :
  reachable w →
  isListening (this_state w) = false
  ∧ handle (StartVoiceInput prompt_result) w
    = (Normal tt,
       match prompt_result with
       | Some (c :: text) =>
           World (this_state w) (sendBtn_disabled w)
             (pending w ++ [ProcessVoice (c :: text)]) (console w) (clock w)
       | _ => w
       end).
Proof.
  intros (_ & Hl & _)%reachable_steady. split; [done|].
  cbn [handle]. unfold startVoiceInput, processVoiceQuery.
  rewrite bind_run. cbn [gets]. rewrite Hl.
  unfold try_finally, try_catch, detached, mbind, M_bind, mret, M_ret.
  destruct w as [[] ? ? ? ?]. cbn in Hl. subst.
  destruct prompt_result as [[|c text]|]; reflexivity.
Qed.

Lemma voice_input_witness :
  handle (StartVoiceInput (Some (lit "cart"))) ready
  = (Normal tt,
     World (this_state ready) (sendBtn_disabled ready)
       (pending ready ++ [ProcessVoice (lit "cart")]) (console ready) (clock ready)).
Proof.
  exact (proj2 (voice_input ready (Some (lit "cart")) reachable_ready)).
Defined.

(** *** Instructions without steps *)

Lemma switchTab_run tab w :
  switchTab tab w
  = (Normal tt,
     World (set_activeTab tab (this_state w)) (sendBtn_disabled w) (pending w)
       (console w) (clock w)).
Proof. unfold switchTab. rewrite bind_run. cbn [modify]. by destruct (decide _). Qed.

Lemma messages_switched tab w :
  messages (World (set_activeTab tab (this_state w)) (sendBtn_disabled w) (pending w)
              (console w) (clock w)) = messages w.
Proof. unfold messages. cbn [this_state]. by destruct (this_state w). Qed.

Lemma renders_no_steps w c id :
  renders (new_message w assistant c (instruction_object VUndefined id)) = false.
Proof.
  unfold renders, new_message, instruction_object, steps_render.
  cbn [msg_role instructionData truthy]. rewrite lookup_insert_eq.
  cbn [default from_option]. unfold Datatypes.id.
  by rewrite andb_false_r.
Qed.

Lemma renders_empty_steps w s id :
  renders (new_message w assistant (VStr s) (instruction_object (VArr []) id))
  = stringifies id.
Proof.
  unfold renders, new_message, instruction_object, steps_render, field.
  cbn [msg_role instructionData truthy content is_string].
  rewrite lookup_insert_eq, lookup_insert_ne, lookup_insert_eq by by vm_compute.
  reflexivity.
Qed.

(** X22. A reply that is a JSON object without [steps]. [showInstruction]
    puts an empty list in its place, so the instruction added to a chat that
    can be drawn is drawn, and the method returns, exactly when the
    [instruction_id] of the reply can be written into the markup of the
    export buttons. [processVoiceQuery] passes [undefined] on when the reply
    names one of the three sources of an instruction: the text of the user
    and the message of the assistant are added, drawing the chat throws, the
    apology of the catch clause is added and drawing throws again, so the
    [TypeError] leaves the method and the chat can no longer be drawn. *)
Theorem reply_without_steps taskName text source ok fields w :
  drawable w →
  fields !! lit "steps" = None →
  let instruction_id := default VUndefined (fields !! lit "instruction_id") in
  (showInstruction_resume taskName (Fulfilled ok (Some (VObj fields))) w).1
  = (if stringifies instruction_id then Normal tt else Thrown TypeError)
  ∧ (drawable (showInstruction_resume taskName (Fulfilled ok (Some (VObj fields))) w).2
     ↔ stringifies instruction_id = true)
  ∧ (source ∈ [lit "existing"; lit "generated"; lit "fallback"] →
     fields !! lit "source" = Some (VStr source) →
     (processVoiceQuery_resume text (Fulfilled ok (Some (VObj fields))) w).1
     = Thrown TypeError
     ∧ ¬ drawable (processVoiceQuery_resume text (Fulfilled ok (Some (VObj fields))) w).2
     ∧ length (messages (processVoiceQuery_resume text
                           (Fulfilled ok (Some (VObj fields))) w).2)
       = (length (messages w) + 3)%nat).
Proof.
  intros Hw Hsteps. cbn zeta. unfold drawable in *.
  assert (∀ w1 label e, messages (logged w1 label e) = messages w1) as Hlog
    by reflexivity.
  apply and_assoc. split.
  - unfold showInstruction_resume, showInstruction_try, showInstruction_catch,
      try_catch.
    rewrite bind_run. cbn [json].
    change ((mret (VObj fields) : M jsval) w) with (Normal (VObj fields), w). cbn iota.
    rewrite bind_run, switchTab_run. cbn iota.
    rewrite bind_run. cbn [prop]. rewrite Hsteps. cbn [default from_option].
    change ((mret ?v : M jsval) ?w) with (Normal v, w). cbn iota.
    rewrite bind_run. change ((mret ?v : M jsval) ?w) with (Normal v, w). cbn iota.
    unfold Datatypes.id. change (or_empty VUndefined) with (VArr []).
    rewrite addChatMessage_run, drawable_added, messages_switched, Hw,
      renders_empty_steps.
    cbn [andb]. destruct (stringifies _) eqn:Hid.
    + cbn [fst snd]. split; [done|].
      by rewrite drawable_added, messages_switched, Hw, renders_empty_steps, Hid.
    + rewrite apologise_run', drawable_added, messages_switched, Hw,
        renders_empty_steps, Hid.
      cbn [andb fst snd]. split; [done|].
      rewrite drawable_added, Hlog, drawable_added, messages_switched, Hw,
        renders_empty_steps, Hid.
      by cbn.
  - intros Hsource Hfield.
    assert (is_literal (VStr source) "existing" || is_literal (VStr source) "generated"
            || is_literal (VStr source) "fallback" = true) as Hlit.
    { cbn [is_literal]. set_unfold in Hsource.
      destruct Hsource as [->|[->|[->|[]]]];
        [rewrite (bool_decide_eq_true_2 (lit "existing" = lit "existing")) by reflexivity
        |rewrite (bool_decide_eq_true_2 (lit "generated" = lit "generated")) by reflexivity
        |rewrite (bool_decide_eq_true_2 (lit "fallback" = lit "fallback")) by reflexivity];
        by rewrite ?orb_true_r. }
    unfold processVoiceQuery_resume, processVoiceQuery_try, processVoiceQuery_catch,
      try_catch.
    rewrite bind_run. cbn [json].
    change ((mret (VObj fields) : M jsval) w) with (Normal (VObj fields), w). cbn iota.
    rewrite bind_run, switchTab_run. cbn iota.
    rewrite bind_run, addChatMessage_run, drawable_added, messages_switched, Hw.
    cbn [andb renders new_message msg_role content is_string]. cbn iota.
    rewrite bind_run. cbn [prop]. rewrite Hfield, Hsteps. cbn [default from_option].
    change ((mret ?v : M jsval) ?w) with (Normal v, w). cbn iota.
    unfold Datatypes.id. rewrite Hlit.
    rewrite bind_run. change ((mret ?v : M jsval) ?w) with (Normal v, w). cbn iota.
    rewrite bind_run. change ((mret ?v : M jsval) ?w) with (Normal v, w). cbn iota.
    rewrite bind_run. change ((mret ?v : M jsval) ?w) with (Normal v, w). cbn iota.
    rewrite addChatMessage_run, drawable_added, renders_no_steps, andb_false_r.
    rewrite apologise_run', drawable_added, renders_no_steps, andb_false_r.
    cbn [fst snd]. split; [done|]. split.
    + rewrite drawable_added, Hlog, drawable_added, renders_no_steps, andb_false_r.
      by cbn.
    + rewrite messages_added, Hlog, !messages_added, messages_switched, !length_app.
      cbn [length]. lia.
Qed.

Lemma reply_without_steps_witness :
  (showInstruction_resume (lit "Checkout")
     (Fulfilled true (Some (VObj {[ lit "source" := VStr (lit "existing") ]}))) ready).1
  = Normal tt
  ∧ (processVoiceQuery_resume (lit "how do I pay")
       (Fulfilled true (Some (VObj {[ lit "source" := VStr (lit "existing") ]}))) ready).1
    = Thrown TypeError.
Proof.
  destruct (reply_without_steps (lit "Checkout") (lit "how do I pay") (lit "existing")
              true {[ lit "source" := VStr (lit "existing") ]} ready)
    as (Hshow & _ & Hvoice).
  - by vm_compute.
  - by vm_compute.
  - split; [exact Hshow|]. apply Hvoice; [left|by vm_compute].
Defined.

(** An [instruction_id] that cannot be written as a string: the
    instruction is added, and the chat cannot be drawn with it. *)
Example instruction_id_not_a_string :
  (showInstruction_resume (lit "Checkout")
     (Fulfilled true
        (Some (VObj {[ lit "instruction_id"
                       := VObj {[ lit "toString" := VNum 0 ]} ]}))) ready).1
  = Thrown TypeError.
Proof. by vm_compute. Qed.

End WidgetMore.

(** ** The helpers for markup and colours *)

Module MarkupFacts.

Import Markup MarkupSpec.

Local Open Scope Z_scope.

Example lightenColor_brand : lightenColor (lit "#6366f1") 242 = lit "#ffffff".
Proof. vm_compute. reflexivity. Qed.

Example darkenColor_brand : darkenColor (lit "#6366f1") 51 = lit "#3033be".
Proof. vm_compute. reflexivity. Qed.

Example lightenColor_small : lightenColor (lit "#6366F1") 10 = lit "#6d70fb".
Proof. vm_compute. reflexivity. Qed.

Example escapeHtml_example :
  escapeHtml (lit "<b>Tom & 'Jerry'</b>")
  = lit "&lt;b&gt;Tom &amp; &#039;Jerry&#039;&lt;/b&gt;".
Proof. vm_compute. reflexivity. Qed.

Lemma flat_map_flat_map {A B C} (f : A → list B) (g : B → list C) l :
  flat_map g (flat_map f l) = flat_map (λ x, flat_map g (f x)) l.
Proof.
  induction l as [|x l IH]; cbn [flat_map]; [done|].
  by rewrite flat_map_app, IH.
Qed.

Lemma flat_map_pointwise {A B} (f g : A → list B) l :
  (∀ x, f x = g x) → flat_map f l = flat_map g l.
Proof. intros H. induction l as [|x l IH]; cbn [flat_map]; [done|]. by rewrite H, IH. Qed.

Lemma replace_unit_flat_map c r (f : N → jsstring) s :
  replace_unit c r (flat_map f s) = flat_map (λ x, replace_unit c r (f x)) s.
Proof. unfold replace_unit. apply flat_map_flat_map. Qed.

Lemma replace_unit_id c r s : replace_unit c r s = flat_map (λ x, replace_unit c r [x]) s.
Proof.
  unfold replace_unit. apply flat_map_pointwise. intros x. cbn [flat_map].
  by rewrite app_nil_r.
Qed.

Lemma escape_unit x :
  replace_unit 39 (lit "&#039;")
    (replace_unit 34 (lit "&quot;")
       (replace_unit 62 (lit "&gt;")
          (replace_unit 60 (lit "&lt;")
             (replace_unit 38 (lit "&amp;") [x]))))
  = entity x.
Proof.
  unfold entity.
  destruct (N.eqb x 38) eqn:H38; [apply N.eqb_eq in H38 as ->; by vm_compute|].
  destruct (N.eqb x 60) eqn:H60; [apply N.eqb_eq in H60 as ->; by vm_compute|].
  destruct (N.eqb x 62) eqn:H62; [apply N.eqb_eq in H62 as ->; by vm_compute|].
  destruct (N.eqb x 34) eqn:H34; [apply N.eqb_eq in H34 as ->; by vm_compute|].
  destruct (N.eqb x 39) eqn:H39; [apply N.eqb_eq in H39 as ->; by vm_compute|].
  unfold replace_unit. cbn [flat_map app]. rewrite H38. cbn [flat_map app].
  rewrite H60. cbn [flat_map app]. rewrite H62. cbn [flat_map app].
  rewrite H34. cbn [flat_map app]. by rewrite H39.
Qed.

Lemma escapeHtml_entities s : escapeHtml s = flat_map entity s.
Proof.
  unfold escapeHtml. rewrite (replace_unit_id 38).
  rewrite !replace_unit_flat_map. apply flat_map_pointwise. intros x.
  apply escape_unit.
Qed.

(** X17. The five replacements of [escapeHtml] work as one pass over the
    text: each code unit is replaced on its own by its entity, or kept, and
    the [&] of an entity that a replacement wrote is not escaped again. So
    escaping goes through concatenation, and the result is never shorter
    than the text. *)
Theorem escapeHtml_one_pass a b :
  escapeHtml a = flat_map entity a
  ∧ escapeHtml (a ++ b) = escapeHtml a ++ escapeHtml b
  ∧ (length a ≤ length (escapeHtml a))%nat.
Proof.
  split; [apply escapeHtml_entities|]. split.
  - by rewrite !escapeHtml_entities, flat_map_app.
  - rewrite escapeHtml_entities. induction a as [|x a IH]; cbn [flat_map length]; [done|].
    rewrite length_app. assert (1 ≤ length (entity x))%nat; [|lia].
    unfold entity. repeat case_match; vm_compute; lia.
Qed.

Lemma entity_safe x : Forall (λ c, c ∉ [60; 62; 34; 39]%N) (entity x).
Proof.
  unfold entity.
  destruct (N.eqb x 38) eqn:H38; [vm_compute; repeat constructor; set_solver|].
  destruct (N.eqb x 60) eqn:H60; [vm_compute; repeat constructor; set_solver|].
  destruct (N.eqb x 62) eqn:H62; [vm_compute; repeat constructor; set_solver|].
  destruct (N.eqb x 34) eqn:H34; [vm_compute; repeat constructor; set_solver|].
  destruct (N.eqb x 39) eqn:H39; [vm_compute; repeat constructor; set_solver|].
  apply N.eqb_neq in H60, H62, H34, H39. repeat constructor. set_solver.
Qed.

(** X18. Escaped text holds none of the code units [<], [>], double
    quote and single quote, whatever the text was; and a text with none of
    the five code units that [escapeHtml] replaces is returned as it is. *)
Theorem escapeHtml_safe s :
  Forall (λ c, c ∉ [60; 62; 34; 39]%N) (escapeHtml s)
  ∧ (forallb (λ c, negb (special c)) s = true → escapeHtml s = s).
Proof.
  rewrite escapeHtml_entities. split.
  - induction s as [|x s IH]; cbn [flat_map]; [constructor|].
    apply Forall_app. split; [apply entity_safe|exact IH].
  - induction s as [|x s IH]; cbn [flat_map forallb]; [done|].
    intros [Hx Hs]%andb_true_iff. rewrite (IH Hs).
    unfold special in Hx. unfold entity.
    destruct (N.eqb x 38); [done|]. destruct (N.eqb x 60); [done|].
    destruct (N.eqb x 62); [done|]. destruct (N.eqb x 34); [done|].
    by destruct (N.eqb x 39).
Qed.

(** *** Colours *)

Lemma hex_digit_code d :
  0 ≤ d < 16 →
  Z.of_N (hex_digit d) = if d <? 10 then 48 + d else 87 + d.
Proof. intros Hd. unfold hex_digit. destruct (d <? 10) eqn:H; lia. Qed.

Lemma hex_value_digit d : 0 ≤ d < 16 → hex_value (hex_digit d) = Some d.
Proof.
  intros Hd. pose proof (hex_digit_code d Hd) as Hc. unfold hex_value.
  destruct (d <? 10) eqn:H10.
  - apply Z.ltb_lt in H10.
    rewrite (proj2 (N.leb_le _ _)), (proj2 (N.leb_le _ _)) by lia.
    cbn [andb]. f_equal. lia.
  - apply Z.ltb_ge in H10.
    assert ((48 <=? hex_digit d)%N && (hex_digit d <=? 57)%N = false) as ->.
    { apply andb_false_iff. right. apply N.leb_gt. lia. }
    rewrite (proj2 (N.leb_le _ _)), (proj2 (N.leb_le _ _)) by lia.
    cbn [andb]. f_equal. lia.
Qed.

Lemma hex_digit_plain d :
  0 ≤ d < 16 →
  is_ws (hex_digit d) = false
  ∧ hex_digit d ≠ 45%N ∧ hex_digit d ≠ 43%N
  ∧ hex_digit d ≠ 120%N ∧ hex_digit d ≠ 88%N.
Proof.
  intros Hd.
  assert (d = 0 ∨ d = 1 ∨ d = 2 ∨ d = 3 ∨ d = 4 ∨ d = 5 ∨ d = 6 ∨ d = 7 ∨ d = 8
          ∨ d = 9 ∨ d = 10 ∨ d = 11 ∨ d = 12 ∨ d = 13 ∨ d = 14 ∨ d = 15) as Hcases
    by lia.
  repeat (destruct Hcases as [->|Hcases]; [by vm_compute|]). subst. by vm_compute.
Qed.

(** The sign and the prefix [0x] of [parseInt] on a string that begins
    with neither. *)
Lemma parseInt16_plain c s :
  is_ws c = false → c ≠ 45%N → c ≠ 43%N →
  (c = 48%N → ∀ x r, s = x :: r → x ≠ 120%N ∧ x ≠ 88%N) →
  parseInt16_int32 (c :: s)
  = match digits_value None (c :: s) with
    | None => 0
    | Some v => match round_double v with Some n => wrap32 n | None => 0 end
    end.
Proof.
  intros Hws H45 H43 Hx. unfold parseInt16_int32. cbn [trimStart]. rewrite Hws.
  assert (match c :: s with
          | 45%N :: r => (-1, r)
          | 43%N :: r => (1, r)
          | _ => (1, c :: s)
          end = (1, c :: s)) as ->.
  { destruct c as [|p]; [done|].
    do 6 (try destruct p as [p|p|]); try done. }
  assert (match c :: s with
          | 48%N :: x :: r => if N.eqb x 120 || N.eqb x 88 then r else c :: s
          | _ => c :: s
          end = c :: s) as ->.
  { destruct (decide (c = 48%N)) as [H48|H48].
    - destruct s as [|x r]; [by repeat case_match|].
      destruct (Hx H48 x r eq_refl) as [H120 H88].
      apply N.eqb_neq in H120, H88. rewrite H120, H88. by repeat case_match.
    - destruct c as [|p]; [done|].
      do 6 (try destruct p as [p|p|]); try done; by destruct s. }
  destruct (digits_value None (c :: s)) as [v|]; [|done].
  by rewrite Z.mul_1_l.
Qed.

Lemma round_double_small z : Z.abs z < 2 ^ 53 → round_double z = Some z.
Proof. intros Hz. unfold round_double. cbn zeta. by rewrite (proj2 (Z.ltb_lt _ _) Hz). Qed.

Lemma wrap32_small z : 0 ≤ z < 2 ^ 31 → wrap32 z = z.
Proof.
  intros Hz. unfold wrap32. cbn zeta.
  rewrite Z.mod_small by (change (2 ^ 32) with 4294967296;
                          change (2 ^ 31) with 2147483648 in Hz; lia).
  destruct (z >=? 2 ^ 31) eqn:H; [|done]. apply Z.geb_le in H. lia.
Qed.

(** [parseInt] reads the six digits of a colour. *)
Lemma parse_six d5 d4 d3 d2 d1 d0 :
  0 ≤ d5 < 16 → 0 ≤ d4 < 16 → 0 ≤ d3 < 16 →
  0 ≤ d2 < 16 → 0 ≤ d1 < 16 → 0 ≤ d0 < 16 →
  parseInt16_int32 (map hex_digit [d5; d4; d3; d2; d1; d0])
  = ((((d5 * 16 + d4) * 16 + d3) * 16 + d2) * 16 + d1) * 16 + d0.
Proof.
  intros H5 H4 H3 H2 H1 H0. cbn [map].
  destruct (hex_digit_plain d5 H5) as (Hws & H45 & H43 & _).
  destruct (hex_digit_plain d4 H4) as (_ & _ & _ & H120 & H88).
  rewrite parseInt16_plain; try done.
  2: { intros _ x r [= <- _]. done. }
  cbn [digits_value]. rewrite !hex_value_digit by done. cbn [default from_option].
  unfold id. rewrite round_double_small, wrap32_small.
  - lia.
  - change (2 ^ 31) with 2147483648. lia.
  - change (2 ^ 53) with 9007199254740992. lia.
Qed.

Lemma color_digits r g b :
  color r g b
  = 35%N :: map hex_digit [r / 16; r mod 16; g / 16; g mod 16; b / 16; b mod 16].
Proof. reflexivity. Qed.

Lemma remove_first_hash s : remove_first 35 (35%N :: s) = s.
Proof. reflexivity. Qed.

Lemma parse_color r g b :
  channel r → channel g → channel b →
  parseInt16_int32 (remove_first 35 (color r g b)) = r * 65536 + g * 256 + b.
Proof.
  unfold channel. intros Hr Hg Hb.
  rewrite color_digits, remove_first_hash, parse_six
    by (split; [apply Z.div_pos || apply Z.mod_pos_bound
               |apply Z.div_lt_upper_bound || apply Z.mod_pos_bound]; lia).
  pose proof (Z.div_mod r 16). pose proof (Z.div_mod g 16).
  pose proof (Z.div_mod b 16). lia.
Qed.

(** The three channels that the shifts and masks take out of [num]. *)
Lemma split_channels r g b :
  channel r → channel g → channel b →
  let num := r * 65536 + g * 256 + b in
  Z.shiftr num 16 = r
  ∧ Z.land (Z.shiftr num 8) 255 = g
  ∧ Z.land num 255 = b.
Proof.
  unfold channel. intros Hr Hg Hb. cbn zeta.
  change 255 with (Z.ones 8) at 1 2.
  rewrite !Z.land_ones, !Z.shiftr_div_pow2 by lia.
  change (2 ^ 16) with 65536. change (2 ^ 8) with 256.
  repeat split.
  - symmetry. apply (Z.div_unique _ _ _ (g * 256 + b)); lia.
  - rewrite <- (Z.div_unique (r * 65536 + g * 256 + b) 256 (r * 256 + g) b) by lia.
    symmetry. apply (Z.mod_unique _ _ r); lia.
  - symmetry. apply (Z.mod_unique _ _ (r * 256 + g)); lia.
Qed.

Lemma digits16_step fuel q d :
  1 ≤ q → 0 ≤ d < 16 →
  digits16 (S fuel) (q * 16 + d) = digits16 fuel q ++ [hex_digit d].
Proof.
  intros Hq Hd. cbn [digits16].
  destruct (q * 16 + d <? 16) eqn:H; [apply Z.ltb_lt in H; lia|].
  rewrite <- (Z.div_unique (q * 16 + d) 16 q d) by lia.
  by rewrite <- (Z.mod_unique (q * 16 + d) 16 q d) by lia.
Qed.

(** The seven digits of [0x1000000 + R * 0x10000 + G * 0x100 + B]. *)
Lemma digits16_seven fuel d5 d4 d3 d2 d1 d0 :
  0 ≤ d5 < 16 → 0 ≤ d4 < 16 → 0 ≤ d3 < 16 →
  0 ≤ d2 < 16 → 0 ≤ d1 < 16 → 0 ≤ d0 < 16 →
  digits16 (S (S (S (S (S (S (S fuel)))))))
    ((((((1 * 16 + d5) * 16 + d4) * 16 + d3) * 16 + d2) * 16 + d1) * 16 + d0)
  = 49%N :: map hex_digit [d5; d4; d3; d2; d1; d0].
Proof.
  intros H5 H4 H3 H2 H1 H0.
  rewrite !digits16_step by lia. reflexivity.
Qed.

Lemma toString16_color r g b :
  channel r → channel g → channel b →
  toString16 (16777216 + r * 65536 + g * 256 + b) = 49%N :: drop 1 (color r g b).
Proof.
  unfold channel. intros Hr Hg Hb. unfold toString16.
  destruct (_ <? 0) eqn:Hneg; [apply Z.ltb_lt in Hneg; lia|].
  rewrite (Z.log2_unique _ 24)
    by (change (2 ^ 24) with 16777216; change (2 ^ (24 + 1)) with 33554432; lia).
  change (S (Z.to_nat 24)) with (S (S (S (S (S (S (S 18%nat))))))).
  rewrite color_digits. change (drop 1 (35%N :: ?l)) with l.
  rewrite <- (digits16_seven 18)
    by (split; [apply Z.div_pos || apply Z.mod_pos_bound
               |apply Z.div_lt_upper_bound || apply Z.mod_pos_bound]; lia).
  f_equal.
  pose proof (Z.div_mod r 16). pose proof (Z.div_mod g 16).
  pose proof (Z.div_mod b 16). lia.
Qed.

Lemma clamp_channel n : channel (clamp n).
Proof. unfold channel, clamp. lia. Qed.

Lemma lighten_clamp n :
  (if n <? 255 then if n <? 1 then 0 else n else 255) = clamp n.
Proof.
  unfold clamp.
  destruct (Z.ltb_spec n 255), (Z.ltb_spec n 1); lia.
Qed.

Lemma darken_floor n : (if n >? 0 then n else 0) = Z.max 0 n.
Proof. destruct (n >? 0) eqn:H; [apply Z.gtb_lt in H|rewrite Z.gtb_ltb in H; apply Z.ltb_ge in H]; lia. Qed.

(** X19. [lightenColor] on a colour [#rrggbb] adds the amount to each of the
    three channels and cuts each sum to the range from 0 to 255; the result
    is again a colour of six digits. *)
Theorem lightenColor_channels r g b amt :
  channel r → channel g → channel b →
  lightenColor (color r g b) amt
  = color (clamp (r + amt)) (clamp (g + amt)) (clamp (b + amt)).
Proof.
  intros Hr Hg Hb. unfold lightenColor. cbn zeta.
  rewrite parse_color by done.
  destruct (split_channels r g b Hr Hg Hb) as (-> & -> & ->).
  rewrite !lighten_clamp.
  rewrite toString16_color by apply clamp_channel.
  reflexivity.
Qed.

Lemma lightenColor_channels_witness :
  lightenColor (color 99 102 241) 51 = color 150 153 255.
Proof.
  apply (lightenColor_channels 99 102 241 51); unfold channel; lia.
Defined.

(** X20. [darkenColor] with an amount that is not negative takes the amount
    off each of the three channels of a colour [#rrggbb] and stops at 0; the
    result is again a colour of six digits. *)
Theorem darkenColor_channels r g b amt :
  channel r → channel g → channel b → 0 ≤ amt →
  darkenColor (color r g b) amt
  = color (Z.max 0 (r - amt)) (Z.max 0 (g - amt)) (Z.max 0 (b - amt)).
Proof.
  intros Hr Hg Hb Hamt. unfold darkenColor. cbn zeta.
  rewrite parse_color by done.
  destruct (split_channels r g b Hr Hg Hb) as (-> & -> & ->).
  rewrite !darken_floor.
  rewrite toString16_color by (unfold channel in *; lia).
  reflexivity.
Qed.

Lemma darkenColor_channels_witness :
  darkenColor (color 99 102 241) 51 = color 48 51 190.
Proof.
  apply (darkenColor_channels 99 102 241 51); unfold channel; lia.
Defined.

Example darkenColor_negative_amount :
  darkenColor (lit "#ffffff") (-51) = lit "#333332".
Proof. by vm_compute. Qed.

Example lightenColor_shorthand :
  lightenColor (lit "#abc") 0 = lit "#000abc".
Proof. by vm_compute. Qed.

Lemma parseInt16_no_digit c s :
  hex_value c = None → is_ws c = false → c ≠ 45%N → c ≠ 43%N →
  parseInt16_int32 (c :: s) = 0.
Proof.
  intros Hc Hws H45 H43. rewrite parseInt16_plain; try done.
  - cbn [digits_value]. by rewrite Hc.
  - intros ->. by vm_compute in Hc.
Qed.

(** X21. A colour that begins with a character that is no digit of radix
    16 (a name such as [red], or [rgb(...)]) is read as 0: [lightenColor]
    gives the grey of the amount, and [darkenColor] with an amount that is
    not negative gives black. *)
Theorem unparsed_color_is_black c rest amt :
  hex_value c = None → is_ws c = false → c ≠ 45%N → c ≠ 43%N → c ≠ 35%N →
  lightenColor (c :: rest) amt = color (clamp amt) (clamp amt) (clamp amt)
  ∧ (0 ≤ amt → darkenColor (c :: rest) amt = color 0 0 0).
Proof.
  intros Hc Hws H45 H43 H35.
  assert (parseInt16_int32 (remove_first 35 (c :: rest)) = 0) as Hnum.
  { cbn [remove_first]. apply N.eqb_neq in H35. rewrite H35.
    by apply parseInt16_no_digit. }
  unfold lightenColor, darkenColor. cbn zeta. rewrite Hnum.
  change (Z.shiftr 0 16) with 0. change (Z.shiftr 0 8) with 0.
  change (Z.land 0 255) with 0. rewrite !Z.add_0_l, !Z.sub_0_l.
  rewrite !lighten_clamp, !darken_floor. split.
  - by rewrite toString16_color by apply clamp_channel.
  - intros Hamt. rewrite !Z.max_l by lia. by vm_compute.
Qed.

Lemma unparsed_color_is_black_witness :
  lightenColor (lit "rgb(99, 102, 241)") 51 = lit "#333333"
  ∧ (0 ≤ 51 → darkenColor (lit "rgb(99, 102, 241)") 51 = lit "#000000").
Proof.
  apply (unparsed_color_is_black 114 (lit "gb(99, 102, 241)") 51); by vm_compute.
Defined.

End MarkupFacts.
